(** * SIM7000 GPS tracker (main7.c): a shallow embedding and its properties

    The firmware drives a SIM7000 modem over a UART.  This development
    embeds the routines of [main7.c] that talk to the modem as functions
    on an explicit machine state and proves (or refutes) properties of
    the line reader, the response matcher, the SMS envelope parser, the
    bring-up state machines, the GPS poll and the guard-mode comparison. *)

From Stdlib Require Import Ascii String List Arith Bool Lia ZArith QArith Qabs.
From Stdlib Require Import Floats.SpecFloat.
Import ListNotations.

Local Open Scope nat_scope.
Local Open Scope list_scope.

(** ** Bytes, arrays and C strings *)

(** A [uint8_t] cell is an [ascii]; an array is the list of its cells. *)
Definition byte := ascii.
Definition array := list byte.

Definition NUL : byte := Ascii.zero.
Definition CR : byte := ascii_of_nat 13.      (* 0x0d *)
Definition LF : byte := ascii_of_nat 10.      (* 0x0a *)
Definition CTRLZ : byte := ascii_of_nat 26.

Definition is_nul (c : byte) : bool := Ascii.eqb c NUL.

(** [a[i]] as an rvalue.  A read past the modelled cells yields [NUL]. *)
Definition load (a : array) (i : nat) : byte := nth i a NUL.

(** The array [a] with cell [i] replaced by [c]. *)
Definition upd (a : array) (i : nat) (c : byte) : array :=
  firstn i a ++ c :: skipn (S i) a.

(** [a[i] = c].  A store outside the array has no defined behaviour in C;
    it is reported as [None]. *)
Definition store (a : array) (i : nat) (c : byte) : option array :=
  if i <? length a then Some (upd a i c) else None.

(** The bytes of a C string: everything before the first [NUL]. *)
Fixpoint cstr (a : array) : list byte :=
  match a with
  | [] => []
  | c :: a' => if is_nul c then [] else c :: cstr a'
  end.

Definition strlen (a : array) : nat := length (cstr a).

(** A string literal [{"..."}]: its characters and the terminating [NUL];
    [sizeof] of the literal is the length of this list. *)
Definition lit (s : string) : array := list_ascii_of_string s ++ [NUL].

(** [n] copies of one byte. *)
Definition fill (n : nat) (c : byte) : array := repeat c n.

(** [tok] occurs in [l] as a contiguous block. *)
Definition occurs (tok l : list byte) : Prop :=
  exists pre post, l = pre ++ tok ++ post.

(** ** The response matcher: [is_in_rx_buffer] (main7.c 225-239) *)

(** The inner loop
    [for(k=i, j=0; str[k] && sub[j]; j++, k++) if(str[k]!=sub[j]) break;]
    run on the cells of [str] from [k] on and of [sub] from [j] on; the
    result is the value of [j] when the loop is left.  ([k] and [j] are
    [uint8_t]; on arrays shorter than 256 cells they never wrap.) *)
Fixpoint scan (strk subj : list byte) (j : nat) : nat :=
  match strk, subj with
  | c :: strk', d :: subj' =>
      if is_nul c || is_nul d then j
      else if Ascii.eqb c d then scan strk' subj' (S j)
      else j
  | _, _ => j
  end.

(** The outer loop [for(i=0; i<buffersize; i++)] with [n] iterations left.
    [j] is declared once, outside the loop, and is only reset by the inner
    loop: the test [str[i] == sub[j]] uses whatever value the previous
    comparison left in it. *)
Fixpoint search (n i j : nat) (str sub : array) : nat :=
  match n with
  | 0 => 0
  | S n' =>
      if Ascii.eqb (load str i) (load sub j) then
        let j' := scan (skipn i str) sub 0 in
        if j' =? strlen sub then 1
        else search n' (S i) j' str sub
      else search n' (S i) j str sub
  end.

Definition is_in_rx_buffer (str sub : array) (buffersize : nat) : nat :=
  search buffersize 0 0 str sub.

(** ** The machine state *)

(** What the firmware does to the outside world. *)
Inductive event : Type :=
| Tx (bytes : list byte)     (* one call of uart_puts, uart_puts_P or send_uart *)
| Delay (secs : nat)         (* delay_sec *)
| DtrLow                     (* PORTC &= ~_BV(PC5) *)
| DtrHigh.                   (* PORTC |= _BV(PC5) *)

(** The global variables of main7.c, the EEPROM cells the program uses and
    the two ends of the serial line. *)
Record world : Type := World {
  rx : nat -> byte;   (* bytes arriving on the UART, in arrival order *)
  rx_pos : nat;   (* how many of them receive_uart has taken *)
  trace : list event;   (* what the program did to the outside, oldest first *)
  eeprom : array;   (* the 20 EEPROM cells at EEADDR *)
  response : array;   (* uint8_t response[BUFFER_SIZE] *)
  response_pos : nat;
  phonenumber : array;   (* uint8_t phonenumber[20] *)
  phonenumber_pos : nat;
  smstext : array;   (* uint8_t smstext[BUFFER_SIZE] *)
  smstext_pos : nat;
  latitude : array;   (* uint8_t latitude[20] *)
  latitude_pos : nat;
  longtitude : array;   (* uint8_t longtitude[20] *)
  longtitude_pos : nat;
  latitudegps : array;   (* uint8_t latitudegps[20] *)
  longtitudegps : array;   (* uint8_t longtitudegps[20] *)
  latitudegpsold : array;   (* uint8_t latitudegpsold[20] *)
  longtitudegpsold : array;   (* uint8_t longtitudegpsold[20] *)
  buf : array;   (* uint8_t buf[40] *)
  battery : array;   (* uint8_t battery[10] *)
  battery_pos : nat;
  continousgps : nat   (* mode counter: 1 single, 5 multi, 255 guard *)
}.

(** Field updates. *)
Definition set_rx (v : nat -> byte) (w : world) : world :=
  World v (rx_pos w) (trace w) (eeprom w) (response w) (response_pos w)
    (phonenumber w) (phonenumber_pos w) (smstext w) (smstext_pos w)
    (latitude w) (latitude_pos w) (longtitude w) (longtitude_pos w)
    (latitudegps w) (longtitudegps w) (latitudegpsold w)
    (longtitudegpsold w) (buf w) (battery w) (battery_pos w)
    (continousgps w).
Definition set_rx_pos (v : nat) (w : world) : world :=
  World (rx w) v (trace w) (eeprom w) (response w) (response_pos w)
    (phonenumber w) (phonenumber_pos w) (smstext w) (smstext_pos w)
    (latitude w) (latitude_pos w) (longtitude w) (longtitude_pos w)
    (latitudegps w) (longtitudegps w) (latitudegpsold w)
    (longtitudegpsold w) (buf w) (battery w) (battery_pos w)
    (continousgps w).
Definition set_trace (v : list event) (w : world) : world :=
  World (rx w) (rx_pos w) v (eeprom w) (response w) (response_pos w)
    (phonenumber w) (phonenumber_pos w) (smstext w) (smstext_pos w)
    (latitude w) (latitude_pos w) (longtitude w) (longtitude_pos w)
    (latitudegps w) (longtitudegps w) (latitudegpsold w)
    (longtitudegpsold w) (buf w) (battery w) (battery_pos w)
    (continousgps w).
Definition set_eeprom (v : array) (w : world) : world :=
  World (rx w) (rx_pos w) (trace w) v (response w) (response_pos w)
    (phonenumber w) (phonenumber_pos w) (smstext w) (smstext_pos w)
    (latitude w) (latitude_pos w) (longtitude w) (longtitude_pos w)
    (latitudegps w) (longtitudegps w) (latitudegpsold w)
    (longtitudegpsold w) (buf w) (battery w) (battery_pos w)
    (continousgps w).
Definition set_response (v : array) (w : world) : world :=
  World (rx w) (rx_pos w) (trace w) (eeprom w) v (response_pos w)
    (phonenumber w) (phonenumber_pos w) (smstext w) (smstext_pos w)
    (latitude w) (latitude_pos w) (longtitude w) (longtitude_pos w)
    (latitudegps w) (longtitudegps w) (latitudegpsold w)
    (longtitudegpsold w) (buf w) (battery w) (battery_pos w)
    (continousgps w).
Definition set_response_pos (v : nat) (w : world) : world :=
  World (rx w) (rx_pos w) (trace w) (eeprom w) (response w) v
    (phonenumber w) (phonenumber_pos w) (smstext w) (smstext_pos w)
    (latitude w) (latitude_pos w) (longtitude w) (longtitude_pos w)
    (latitudegps w) (longtitudegps w) (latitudegpsold w)
    (longtitudegpsold w) (buf w) (battery w) (battery_pos w)
    (continousgps w).
Definition set_phonenumber (v : array) (w : world) : world :=
  World (rx w) (rx_pos w) (trace w) (eeprom w) (response w) (response_pos w)
    v (phonenumber_pos w) (smstext w) (smstext_pos w) (latitude w)
    (latitude_pos w) (longtitude w) (longtitude_pos w) (latitudegps w)
    (longtitudegps w) (latitudegpsold w) (longtitudegpsold w) (buf w)
    (battery w) (battery_pos w) (continousgps w).
Definition set_phonenumber_pos (v : nat) (w : world) : world :=
  World (rx w) (rx_pos w) (trace w) (eeprom w) (response w) (response_pos w)
    (phonenumber w) v (smstext w) (smstext_pos w) (latitude w)
    (latitude_pos w) (longtitude w) (longtitude_pos w) (latitudegps w)
    (longtitudegps w) (latitudegpsold w) (longtitudegpsold w) (buf w)
    (battery w) (battery_pos w) (continousgps w).
Definition set_smstext (v : array) (w : world) : world :=
  World (rx w) (rx_pos w) (trace w) (eeprom w) (response w) (response_pos w)
    (phonenumber w) (phonenumber_pos w) v (smstext_pos w) (latitude w)
    (latitude_pos w) (longtitude w) (longtitude_pos w) (latitudegps w)
    (longtitudegps w) (latitudegpsold w) (longtitudegpsold w) (buf w)
    (battery w) (battery_pos w) (continousgps w).
Definition set_smstext_pos (v : nat) (w : world) : world :=
  World (rx w) (rx_pos w) (trace w) (eeprom w) (response w) (response_pos w)
    (phonenumber w) (phonenumber_pos w) (smstext w) v (latitude w)
    (latitude_pos w) (longtitude w) (longtitude_pos w) (latitudegps w)
    (longtitudegps w) (latitudegpsold w) (longtitudegpsold w) (buf w)
    (battery w) (battery_pos w) (continousgps w).
Definition set_latitude (v : array) (w : world) : world :=
  World (rx w) (rx_pos w) (trace w) (eeprom w) (response w) (response_pos w)
    (phonenumber w) (phonenumber_pos w) (smstext w) (smstext_pos w) v
    (latitude_pos w) (longtitude w) (longtitude_pos w) (latitudegps w)
    (longtitudegps w) (latitudegpsold w) (longtitudegpsold w) (buf w)
    (battery w) (battery_pos w) (continousgps w).
Definition set_latitude_pos (v : nat) (w : world) : world :=
  World (rx w) (rx_pos w) (trace w) (eeprom w) (response w) (response_pos w)
    (phonenumber w) (phonenumber_pos w) (smstext w) (smstext_pos w)
    (latitude w) v (longtitude w) (longtitude_pos w) (latitudegps w)
    (longtitudegps w) (latitudegpsold w) (longtitudegpsold w) (buf w)
    (battery w) (battery_pos w) (continousgps w).
Definition set_longtitude (v : array) (w : world) : world :=
  World (rx w) (rx_pos w) (trace w) (eeprom w) (response w) (response_pos w)
    (phonenumber w) (phonenumber_pos w) (smstext w) (smstext_pos w)
    (latitude w) (latitude_pos w) v (longtitude_pos w) (latitudegps w)
    (longtitudegps w) (latitudegpsold w) (longtitudegpsold w) (buf w)
    (battery w) (battery_pos w) (continousgps w).
Definition set_longtitude_pos (v : nat) (w : world) : world :=
  World (rx w) (rx_pos w) (trace w) (eeprom w) (response w) (response_pos w)
    (phonenumber w) (phonenumber_pos w) (smstext w) (smstext_pos w)
    (latitude w) (latitude_pos w) (longtitude w) v (latitudegps w)
    (longtitudegps w) (latitudegpsold w) (longtitudegpsold w) (buf w)
    (battery w) (battery_pos w) (continousgps w).
Definition set_latitudegps (v : array) (w : world) : world :=
  World (rx w) (rx_pos w) (trace w) (eeprom w) (response w) (response_pos w)
    (phonenumber w) (phonenumber_pos w) (smstext w) (smstext_pos w)
    (latitude w) (latitude_pos w) (longtitude w) (longtitude_pos w) v
    (longtitudegps w) (latitudegpsold w) (longtitudegpsold w) (buf w)
    (battery w) (battery_pos w) (continousgps w).
Definition set_longtitudegps (v : array) (w : world) : world :=
  World (rx w) (rx_pos w) (trace w) (eeprom w) (response w) (response_pos w)
    (phonenumber w) (phonenumber_pos w) (smstext w) (smstext_pos w)
    (latitude w) (latitude_pos w) (longtitude w) (longtitude_pos w)
    (latitudegps w) v (latitudegpsold w) (longtitudegpsold w) (buf w)
    (battery w) (battery_pos w) (continousgps w).
Definition set_latitudegpsold (v : array) (w : world) : world :=
  World (rx w) (rx_pos w) (trace w) (eeprom w) (response w) (response_pos w)
    (phonenumber w) (phonenumber_pos w) (smstext w) (smstext_pos w)
    (latitude w) (latitude_pos w) (longtitude w) (longtitude_pos w)
    (latitudegps w) (longtitudegps w) v (longtitudegpsold w) (buf w)
    (battery w) (battery_pos w) (continousgps w).
Definition set_longtitudegpsold (v : array) (w : world) : world :=
  World (rx w) (rx_pos w) (trace w) (eeprom w) (response w) (response_pos w)
    (phonenumber w) (phonenumber_pos w) (smstext w) (smstext_pos w)
    (latitude w) (latitude_pos w) (longtitude w) (longtitude_pos w)
    (latitudegps w) (longtitudegps w) (latitudegpsold w) v (buf w)
    (battery w) (battery_pos w) (continousgps w).
Definition set_buf (v : array) (w : world) : world :=
  World (rx w) (rx_pos w) (trace w) (eeprom w) (response w) (response_pos w)
    (phonenumber w) (phonenumber_pos w) (smstext w) (smstext_pos w)
    (latitude w) (latitude_pos w) (longtitude w) (longtitude_pos w)
    (latitudegps w) (longtitudegps w) (latitudegpsold w)
    (longtitudegpsold w) v (battery w) (battery_pos w) (continousgps w).
Definition set_battery (v : array) (w : world) : world :=
  World (rx w) (rx_pos w) (trace w) (eeprom w) (response w) (response_pos w)
    (phonenumber w) (phonenumber_pos w) (smstext w) (smstext_pos w)
    (latitude w) (latitude_pos w) (longtitude w) (longtitude_pos w)
    (latitudegps w) (longtitudegps w) (latitudegpsold w)
    (longtitudegpsold w) (buf w) v (battery_pos w) (continousgps w).
Definition set_battery_pos (v : nat) (w : world) : world :=
  World (rx w) (rx_pos w) (trace w) (eeprom w) (response w) (response_pos w)
    (phonenumber w) (phonenumber_pos w) (smstext w) (smstext_pos w)
    (latitude w) (latitude_pos w) (longtitude w) (longtitude_pos w)
    (latitudegps w) (longtitudegps w) (latitudegpsold w)
    (longtitudegpsold w) (buf w) (battery w) v (continousgps w).
Definition set_continousgps (v : nat) (w : world) : world :=
  World (rx w) (rx_pos w) (trace w) (eeprom w) (response w) (response_pos w)
    (phonenumber w) (phonenumber_pos w) (smstext w) (smstext_pos w)
    (latitude w) (latitude_pos w) (longtitude w) (longtitude_pos w)
    (latitudegps w) (longtitudegps w) (latitudegpsold w)
    (longtitudegpsold w) (buf w) (battery w) (battery_pos w) v.

(** ** Computations on the machine state *)

(** A routine either returns a value in a new state, stores outside an
    array (the array and the index are reported and the run is not followed
    further), or is still looping when the step budget given to an
    unbounded loop is used up. *)
Inductive outcome (A : Type) : Type :=
| Ret (a : A) (w : world)
| OutOfBounds (arr : string) (i : nat)
| NoFuel.
Arguments Ret {A} a w.
Arguments OutOfBounds {A} arr i.
Arguments NoFuel {A}.

Definition M (A : Type) : Type := world -> outcome A.

Definition ret {A : Type} (a : A) : M A := fun w => Ret a w.

Definition bind {A B : Type} (m : M A) (k : A -> M B) : M B :=
  fun w =>
    match m w with
    | Ret a w' => k a w'
    | OutOfBounds arr i => OutOfBounds arr i
    | NoFuel => NoFuel
    end.

Notation "x <- m ;; k" := (bind m (fun x => k))
  (at level 61, m at next level, right associativity).
Notation "m ;; k" := (bind m (fun _ => k))
  (at level 61, right associativity).

Definition get {A : Type} (f : world -> A) : M A := fun w => Ret (f w) w.
Definition put {A : Type} (set : A -> world -> world) (v : A) : M unit :=
  fun w => Ret tt (set v w).
Definition when (b : bool) (m : M unit) : M unit := if b then m else ret tt.

(** A [uint8_t] after an increment or decrement. *)
Definition u8 (n : nat) : nat := n mod 256.

(** [arr[i] = c] on a global array. *)
Definition poke (name : string) (g : world -> array)
    (set : array -> world -> world) (i : nat) (c : byte) : M unit :=
  fun w =>
    match store (g w) i c with
    | Some a => Ret tt (set a w)
    | None => OutOfBounds name i
    end.

(** [memcpy(dst, src, n)] and [memcpy_P(dst, src, n)]: cell by cell, so a
    copy longer than the destination stores past its end. *)
Definition memcpy (name : string) (g : world -> array)
    (set : array -> world -> world) (src : array) (n : nat) : M unit :=
  fun w =>
    if n <=? length (g w)
    then Ret tt (set (map (load src) (seq 0 n) ++ skipn n (g w)) w)
    else OutOfBounds name (length (g w)).

Definition emit (e : event) : M unit :=
  fun w => Ret tt (set_trace (trace w ++ [e]) w).

(** ** UART and delay primitives (main7.c 202-264, 601-626) *)

Definition send_uart (c : byte) : M unit := emit (Tx [c]).

(** [receive_uart] waits for the next byte; the stream [rx] supplies it. *)
Definition receive_uart : M byte :=
  fun w => Ret (rx w (rx_pos w)) (set_rx_pos (S (rx_pos w)) w).

Definition uart_puts (s : array) : M unit := emit (Tx (cstr s)).
Definition uart_puts_P (s : array) : M unit := emit (Tx (cstr s)).
Definition delay_sec (i : nat) : M unit := emit (Delay i).

(** ** Flash constants (main7.c 64-143) *)

Definition DQ : byte := ascii_of_nat 34.      (* the double quote *)

(** A command literal ending in a carriage return, as in [{"AT\r"}]. *)
Definition cmd (s : string) : array := list_ascii_of_string s ++ [CR; NUL].

Definition BUFFER_SIZE : nat := 170.

Definition AT : array := cmd "AT".
Definition ISATECHO : array := lit "AT".
Definition ISOK : array := lit "OK".
Definition ISREG1 : array := lit "+CREG: 0,1".
Definition ISREG2 : array := lit "+CREG: 0,5".
Definition SHOW_REGISTRATION : array := cmd "AT+CREG?".
Definition PIN_IS_READY : array := lit "+CPIN: READY".
Definition PIN_MUST_BE_ENTERED : array := lit "+CPIN: SIM PIN".
Definition SHOW_PIN : array := cmd "AT+CPIN?".
Definition ECHO_OFF : array := cmd "ATE0".
Definition ENTER_PIN : array :=
  list_ascii_of_string "AT+CPIN=" ++ [DQ] ++ list_ascii_of_string "1111"
    ++ [DQ; CR; NUL].
Definition SMS1 : array := cmd "AT+CMGF=1".
Definition SMS2 : array := list_ascii_of_string "AT+CMGS=" ++ [DQ; NUL].
Definition DELSMS : array := cmd "AT+CMGD=4".
Definition ISSMS : array := lit "CMT:".
Definition ISMULTI : array := lit "MULTI".
Definition ISSINGLE : array := lit "SINGLE".
Definition ISACTIVATE : array := lit "ACTIVATE".
Definition ISGUARD : array := lit "GUARD".
Definition ISSTOP : array := lit "STOP".
Definition COMMANDSINGLEACK : array :=
  list_ascii_of_string
    "SINGLE MEASUREMENT IN PROGRESS... PLEASE WAIT 7-8 MINUTES BEFORE NEXT COMMAND"
    ++ [LF; NUL].
Definition COMMANDMULTIACK : array :=
  list_ascii_of_string
    "MULTIPLE MEASUREMENTS IN PROGRESS.. PLEASE WAIT 25 MINUTES BEFORE NEXT COMMAND"
    ++ [LF; NUL].
Definition ACTIVATED : array := lit "ACTIVATED CALLS FROM ".
Definition GUARD : array :=
  list_ascii_of_string
    "GUARD MODE ACTIVATED.. PLEASE WAIT 5 MINUTES BEFORE NEXT COMMAND"
    ++ [LF; NUL].
Definition ALERT : array := lit "ALERT, POSITION CHANGED TO :  ".
Definition STOP : array := lit "GUARD MODE STOPPED".
Definition CRLF : array := [DQ; LF; CR; NUL].
Definition FLIGHTON : array := cmd "AT+CFUN=4".
Definition FLIGHTOFF : array := cmd "AT+CFUN=1".
Definition SLEEPON : array := cmd "AT+CSCLK=1".
Definition SLEEPOFF : array := cmd "AT+CSCLK=0".
Definition GOOGLELOC1 : array :=
  [CR; LF] ++ lit " http://maps.google.com/maps?q=".
Definition GOOGLELOC2 : array := lit ",".
Definition GOOGLELOC3 : array := [CR; LF; NUL].
Definition LONG : array := lit " LONGTITUDE=".
Definition LATT : array := lit " LATITUDE=".
Definition BATT : array := LF :: lit "BATTERY[mV]=".
Definition CHECKBATT : array := cmd "AT+CBC".
Definition GPSPWRON : array := cmd "AT+CGNSPWR=1".
Definition GPSISFIXED : array := lit "+CGNSINF: 1,1,".
Definition GPSINFO : array := cmd "AT+CGNSINF".
Definition GPSCLDSTART : array := cmd "AT+CGNSCOLD".
Definition GPSPWROFF : array := cmd "AT+CGNSPWR=0".
(** [{"0000000000000000000\x00"}]: nineteen zero digits, the written
    [\x00] and the terminator of the literal, 21 cells in all. *)
Definition INITLOC : array := fill 19 "0"%char ++ [NUL; NUL].

(** [memcpy_P(buf, TOKEN, sizeof(TOKEN))]. *)
Definition load_token (tok : array) : M unit :=
  memcpy "buf" buf set_buf tok (length tok).

(** [is_in_rx_buffer(arr, buf, BUFFER_SIZE) == 1] on a global array. *)
Definition found_in (g : world -> array) : M bool :=
  fun w => Ret (is_in_rx_buffer (g w) (buf w) BUFFER_SIZE =? 1) w.

(** ** The line reader: [readline] (main7.c 270-302) *)

Definition is_eol (c : byte) : bool := Ascii.eqb c LF || Ascii.eqb c CR.

(** One pass of the [do { ... } while ((wholeline == 0) && (i<150))] body
    with [i] bytes read so far by this call; [fuel] bounds the passes. *)
Fixpoint readline_loop (fuel i : nat) : M unit :=
  match fuel with
  | 0 => fun _ => NoFuel
  | S fuel' =>
      char1 <- receive_uart ;;
      when (negb (is_eol char1) && (i <? 150))
        (pos <- get response_pos ;;
         poke "response" response set_response pos char1 ;;
         put set_response_pos (u8 (pos + 1))) ;;
      wholeline <-
        (if is_eol char1 then
           pos <- get response_pos ;;
           if 0 <? pos then
             poke "response" response set_response pos NUL ;;
             put set_response_pos 0 ;;
             ret 1
           else ret 0
         else ret 0) ;;
      let i' := u8 (i + 1) in
      if (wholeline =? 0) && (i' <? 150) then readline_loop fuel' i'
      else ret tt
  end.

Definition readline : M nat :=
  put set_response_pos 0 ;;
  readline_loop 150 0 ;;
  ret 1.

(** ** The SMS body reader: [readsmstxt] (main7.c 308-340) *)

Fixpoint readsmstxt_loop (fuel i : nat) : M unit :=
  match fuel with
  | 0 => fun _ => NoFuel
  | S fuel' =>
      char1 <- receive_uart ;;
      when (negb (is_eol char1) && (i <? 150))
        (pos <- get smstext_pos ;;
         poke "smstext" smstext set_smstext pos char1 ;;
         put set_smstext_pos (u8 (pos + 1))) ;;
      wholeline <-
        (if is_eol char1 then
           pos <- get smstext_pos ;;
           if 0 <? pos then
             poke "smstext" smstext set_smstext pos NUL ;;
             put set_smstext_pos 0 ;;
             ret 1
           else ret 0
         else ret 0) ;;
      let i' := u8 (i + 1) in
      if (wholeline =? 0) && (i' <? 150) then readsmstxt_loop fuel' i'
      else ret tt
  end.

Definition readsmstxt : M nat :=
  put set_smstext_pos 0 ;;
  readsmstxt_loop 150 0 ;;
  ret 1.

(** ** The SMS envelope parser: [readsmsphonenumber] (main7.c 347-387) *)

(** [do { char1 = response[response_pos]; response_pos++; i++; }
     while ((char1 != stop) && (i<150));]  The result is the new [i]. *)
Fixpoint skip_response (fuel : nat) (stop : byte) (i : nat) : M nat :=
  match fuel with
  | 0 => fun _ => NoFuel
  | S fuel' =>
      pos <- get response_pos ;;
      r <- get response ;;
      let char1 := load r pos in
      put set_response_pos (u8 (pos + 1)) ;;
      let i' := u8 (i + 1) in
      if negb (Ascii.eqb char1 stop) && (i' <? 150)
      then skip_response fuel' stop i'
      else ret i'
  end.

(** The copying loop: every byte read, the closing quote included, is
    stored at [phonenumber[phonenumber_pos]]; nothing bounds that index. *)
Fixpoint copy_number (fuel i : nat) : M nat :=
  match fuel with
  | 0 => fun _ => NoFuel
  | S fuel' =>
      pos <- get response_pos ;;
      r <- get response ;;
      let char1 := load r pos in
      put set_response_pos (u8 (pos + 1)) ;;
      ppos <- get phonenumber_pos ;;
      poke "phonenumber" phonenumber set_phonenumber ppos char1 ;;
      put set_phonenumber_pos (u8 (ppos + 1)) ;;
      let i' := u8 (i + 1) in
      if negb (Ascii.eqb char1 DQ) && (i' <? 150)
      then copy_number fuel' i'
      else ret i'
  end.

Definition readsmsphonenumber : M nat :=
  put set_phonenumber_pos 0 ;;
  put set_response_pos 0 ;;
  i <- skip_response 150 ":"%char 0 ;;
  i <- skip_response 150 DQ i ;;
  _ <- copy_number 150 i ;;
  ppos <- get phonenumber_pos ;;
  poke "phonenumber" phonenumber set_phonenumber (ppos - 1) NUL ;;
  put set_phonenumber_pos 0 ;;
  put set_response_pos 0 ;;
  ret 1.

(** ** Battery and position field readers (main7.c 395-507) *)

(** [do { char1 = receive_uart(); i++; } while ((char1 != stop) && (i<lim));] *)
Fixpoint skip_uart (fuel : nat) (stop : byte) (lim i : nat) : M nat :=
  match fuel with
  | 0 => fun _ => NoFuel
  | S fuel' =>
      char1 <- receive_uart ;;
      let i' := u8 (i + 1) in
      if negb (Ascii.eqb char1 stop) && (i' <? lim)
      then skip_uart fuel' stop lim i'
      else ret i'
  end.

(** A field copied from the UART into a global array up to and including
    the byte that ends it, one of [stops]. *)
Fixpoint copy_uart (fuel : nat) (name : string) (g : world -> array)
    (set : array -> world -> world) (gpos : world -> nat)
    (setpos : nat -> world -> world) (stops : list byte) (lim i : nat)
    : M nat :=
  match fuel with
  | 0 => fun _ => NoFuel
  | S fuel' =>
      char1 <- receive_uart ;;
      pos <- get gpos ;;
      poke name g set pos char1 ;;
      put setpos (u8 (pos + 1)) ;;
      let i' := u8 (i + 1) in
      if negb (existsb (Ascii.eqb char1) stops) && (i' <? lim)
      then copy_uart fuel' name g set gpos setpos stops lim i'
      else ret i'
  end.

Definition readbattery : M nat :=
  put set_battery_pos 0 ;;
  i <- skip_uart 70 ","%char 70 0 ;;
  if i =? 70 then ret 0
  else
    i <- skip_uart 70 ","%char 70 i ;;
    _ <- copy_uart 70 "battery" battery set_battery battery_pos
           set_battery_pos [LF; CR] 70 i ;;
    bpos <- get battery_pos ;;
    poke "battery" battery set_battery (bpos - 1) NUL ;;
    put set_battery_pos 0 ;;
    ret 1.

Definition readSIM7000gps : M nat :=
  put set_longtitude_pos 0 ;;
  put set_latitude_pos 0 ;;
  uart_puts_P GPSINFO ;;
  i <- skip_uart 20 ":"%char 20 0 ;;
  if i =? 20 then ret 0
  else
    i <- skip_uart 150 ","%char 150 i ;;
    i <- skip_uart 150 ","%char 150 i ;;
    i <- skip_uart 150 ","%char 150 i ;;
    i <- copy_uart 150 "latitude" latitude set_latitude latitude_pos
           set_latitude_pos [","%char] 150 i ;;
    lpos <- get latitude_pos ;;
    poke "latitude" latitude set_latitude (lpos - 1) NUL ;;
    put set_latitude_pos 0 ;;
    i <- copy_uart 150 "longtitude" longtitude set_longtitude longtitude_pos
           set_longtitude_pos [","%char] 150 i ;;
    lpos <- get longtitude_pos ;;
    poke "longtitude" longtitude set_longtitude (lpos - 1) NUL ;;
    put set_longtitude_pos 0 ;;
    _ <- skip_uart 150 ","%char 150 i ;;
    ret 1.

(** ** GPS fix polling: [readgpsinfo] (main7.c 514-593) *)

(** The [do { ... } while (gpsattempts<20)] loop.  A [return] inside the
    loop is [inl] of the returned value; leaving the loop is [inr tt]. *)
Fixpoint readgpsinfo_loop (fuel gpsattempts : nat) : M (nat + unit) :=
  match fuel with
  | 0 => fun _ => NoFuel
  | S fuel' =>
      cont <- get continousgps ;;
      when (negb (cont =? 255)) (delay_sec 15) ;;
      uart_puts_P GPSINFO ;;
      r <- readline ;;
      if 0 <? r then
        load_token GPSISFIXED ;;
        gpsfixed <- found_in response ;;
        cont <- get continousgps ;;
        if negb gpsfixed && (cont =? 255) then ret (inl 0)
        else if gpsfixed then
          memcpy "latitudegps" latitudegps set_latitudegps INITLOC
            (length INITLOC) ;;
          memcpy "longtitudegps" longtitudegps set_longtitudegps INITLOC
            (length INITLOC) ;;
          _ <- readSIM7000gps ;;
          delay_sec 2 ;;
          cont <- get continousgps ;;
          when (cont =? 1) (uart_puts_P GPSPWROFF ;; delay_sec 1) ;;
          ret (inl 1)
        else
          let gpsattempts' := u8 (gpsattempts + 1) in
          if gpsattempts' <? 20 then readgpsinfo_loop fuel' gpsattempts'
          else ret (inr tt)
      else
        if gpsattempts <? 20 then readgpsinfo_loop fuel' gpsattempts
        else ret (inr tt)
  end.

(** [fuel] bounds the passes of the polling loop; 20 are enough, since
    every pass returns or counts an attempt ([readgpsinfo_total]). *)
Definition readgpsinfo_fuel (fuel : nat) : M nat :=
  cont <- get continousgps ;;
  (if (cont =? 1) || (cont =? 5) then
     delay_sec 1 ;;
     uart_puts_P GPSPWRON ;;
     delay_sec 2 ;;
     uart_puts_P GPSCLDSTART
   else delay_sec 1) ;;
  r <- readgpsinfo_loop fuel 0 ;;
  match r with
  | inl v => ret v
  | inr _ =>
      delay_sec 2 ;;
      cont <- get continousgps ;;
      when (cont =? 1) (uart_puts_P GPSPWROFF ;; delay_sec 1) ;;
      ret 0
  end.

Definition readgpsinfo : M nat := readgpsinfo_fuel 20.

(** ** Modem bring-up (main7.c 661-808) *)

Definition flag (b : bool) : nat := if b then 1 else 0.

(** [checkat]: the probe loop has no bound of its own; [fuel] bounds the
    number of probes followed. *)
Fixpoint checkat_loop (fuel : nat) : M unit :=
  match fuel with
  | 0 => fun _ => NoFuel
  | S fuel' =>
      uart_puts_P AT ;;
      r <- readline ;;
      initialized2 <-
        (if 0 <? r then
           load_token ISOK ;;
           b <- found_in response ;;
           ret (flag b)
         else
           load_token ISATECHO ;;
           b <- found_in response ;;
           ret (flag b)) ;;
      delay_sec 1 ;;
      if initialized2 =? 0 then checkat_loop fuel' else ret tt
  end.

Definition checkat (fuel : nat) : M nat :=
  checkat_loop fuel ;;
  delay_sec 1 ;;
  uart_puts_P ECHO_OFF ;;
  delay_sec 1 ;;
  ret 1.

Fixpoint checkpin_loop (fuel : nat) : M unit :=
  match fuel with
  | 0 => fun _ => NoFuel
  | S fuel' =>
      delay_sec 2 ;;
      uart_puts_P SHOW_PIN ;;
      r <- readline ;;
      initialized2 <-
        (if 0 <? r then
           load_token PIN_IS_READY ;;
           ready <- found_in response ;;
           load_token PIN_MUST_BE_ENTERED ;;
           needed <- found_in response ;;
           when needed
             (delay_sec 1 ;; uart_puts_P ENTER_PIN ;; delay_sec 1) ;;
           ret (flag ready)
         else ret 0) ;;
      if initialized2 =? 0 then checkpin_loop fuel' else ret tt
  end.

Definition checkpin (fuel : nat) : M nat :=
  checkpin_loop fuel ;;
  ret 1.

(** [n] times the same action, for the counted [for] loops. *)
Fixpoint times (n : nat) (m : M unit) : M unit :=
  match n with
  | 0 => ret tt
  | S n' => m ;; times n' m
  end.

(** The test of the first query: [return(1)] at the first code found. *)
Definition registered_already : M bool :=
  load_token ISREG1 ;;
  home <- found_in response ;;
  if home then ret true
  else
    load_token ISREG2 ;;
    found_in response.

(** The test inside the retry loop: both codes are always looked for. *)
Definition registered : M bool :=
  load_token ISREG1 ;;
  home <- found_in response ;;
  load_token ISREG2 ;;
  roaming <- found_in response ;;
  ret (home || roaming).

(** Radio off, modem asleep for 30 minutes, then awake and radio on again
    (main7.c 768-797). *)
Definition backoff : M unit :=
  delay_sec 1 ;;
  uart_puts_P FLIGHTON ;;
  delay_sec 1 ;;
  uart_puts_P GPSPWROFF ;;
  delay_sec 1 ;;
  uart_puts_P SLEEPON ;;
  times 30 (delay_sec 60) ;;
  emit DtrLow ;;
  uart_puts_P AT ;;
  delay_sec 1 ;;
  uart_puts_P SLEEPOFF ;;
  delay_sec 1 ;;
  emit DtrHigh ;;
  delay_sec 1 ;;
  uart_puts_P FLIGHTOFF.

(** The [do { ... } while ((initialized2 == 0) && (attempt2 < 24))] loop;
    the result is [initialized2]. *)
Fixpoint checkregistration_loop (fuel attempt2 : nat) : M nat :=
  match fuel with
  | 0 => fun _ => NoFuel
  | S fuel' =>
      delay_sec 120 ;;
      uart_puts_P SHOW_REGISTRATION ;;
      r <- readline ;;
      initialized2 <-
        (if 0 <? r then
           reg <- registered ;;
           when (negb reg) backoff ;;
           ret (flag reg)
         else ret 0) ;;
      let attempt2' := u8 (attempt2 + 1) in
      if (initialized2 =? 0) && (attempt2' <? 24)
      then checkregistration_loop fuel' attempt2'
      else ret initialized2
  end.

Definition checkregistration : M nat :=
  delay_sec 1 ;;
  uart_puts_P SHOW_REGISTRATION ;;
  r <- readline ;;
  already <- (if 0 <? r then registered_already else ret false) ;;
  if already then ret 1
  else
    delay_sec 1 ;;
    uart_puts_P FLIGHTOFF ;;
    checkregistration_loop 24 0.

(** ** The SMS command dispatcher (main7.c 1109-1297) *)

(** [toupper] on one cell. *)
Definition toupper (c : byte) : byte :=
  let n := nat_of_ascii c in
  if (97 <=? n) && (n <=? 122) then ascii_of_nat (n - 32) else c.

(** [strupr] rewrites the cells of a C string in place, up to its
    terminator; [None] when the array holds no terminator, in which case
    the library routine runs on past the array. *)
Fixpoint strupr_cells (a : array) : option array :=
  match a with
  | [] => None
  | c :: a' =>
      if is_nul c then Some a
      else option_map (cons (toupper c)) (strupr_cells a')
  end.

(** [is_in_rx_buffer(strupr(smstext), buf, BUFFER_SIZE) == 1]. *)
Definition found_in_upper_smstext : M bool :=
  fun w =>
    match strupr_cells (smstext w) with
    | Some a => found_in smstext (set_smstext a w)
    | None => OutOfBounds "smstext" (length (smstext w))
    end.

(** Wake the modem through DTR (the same seven statements open every
    command branch). *)
Definition wake_modem : M unit :=
  emit DtrLow ;;
  uart_puts_P AT ;;
  delay_sec 1 ;;
  uart_puts_P SLEEPOFF ;;
  delay_sec 1 ;;
  emit DtrHigh ;;
  delay_sec 1.

(** Open a text-mode SMS to [phonenumber]. *)
Definition sms_open : M unit :=
  uart_puts_P SMS1 ;;
  delay_sec 1 ;;
  uart_puts_P SMS2 ;;
  p <- get phonenumber ;;
  uart_puts p ;;
  uart_puts_P CRLF ;;
  delay_sec 1.

(** Ctrl-Z, wait for delivery, delete the stored messages. *)
Definition sms_close : M unit :=
  send_uart CTRLZ ;;
  delay_sec 10 ;;
  uart_puts_P SMS1 ;;
  delay_sec 1 ;;
  uart_puts_P DELSMS ;;
  delay_sec 2.

(** The locals [initialized] and [ringrcvd] of [main]. *)
Record flags : Type := Flags { initialized : nat; ringrcvd : nat }.

Definition multi_branch : M flags :=
  wake_modem ;;
  sms_open ;;
  uart_puts_P COMMANDMULTIACK ;;
  sms_close ;;
  put set_continousgps 5 ;;
  ret (Flags 1 1).

Definition single_branch : M flags :=
  wake_modem ;;
  sms_open ;;
  uart_puts_P COMMANDSINGLEACK ;;
  sms_close ;;
  put set_continousgps 1 ;;
  ret (Flags 1 1).

(** [eeprom_write_block(phonenumber, EEADDR, 20)] stores the 20 cells of
    [phonenumber], terminator and what follows it included. *)
Definition activate_branch : M flags :=
  wake_modem ;;
  p <- get phonenumber ;;
  put set_eeprom (map (load p) (seq 0 20)) ;;
  sms_open ;;
  uart_puts_P ACTIVATED ;;
  p <- get phonenumber ;;
  uart_puts p ;;
  sms_close ;;
  put set_continousgps 0 ;;
  ret (Flags 0 1).

Definition guard_branch : M flags :=
  wake_modem ;;
  sms_open ;;
  uart_puts_P GUARD ;;
  sms_close ;;
  put set_continousgps 255 ;;
  uart_puts_P GPSPWRON ;;
  delay_sec 2 ;;
  uart_puts_P GPSCLDSTART ;;
  delay_sec 1 ;;
  ret (Flags 1 1).

(** One [if (is_in_rx_buffer(strupr(smstext), buf, BUFFER_SIZE) == 1)]
    block: the branch runs when the keyword is found, otherwise the flags
    stay as they are. *)
Definition on_keyword (kw : array) (branch : M flags) (f : flags)
    : M flags :=
  load_token kw ;;
  hit <- found_in_upper_smstext ;;
  if hit then branch else ret f.

(** The body of [if ((is_in_rx_buffer(response, buf, ...) == 1) &&
    (ringrcvd == 0))], entered when the line just read is a [+CMT:]
    notification. *)
Definition sms_command : M flags :=
  _ <- readsmstxt ;;
  _ <- readsmsphonenumber ;;
  put set_continousgps 0 ;;
  f <- on_keyword ISMULTI multi_branch (Flags 0 0) ;;
  f <- on_keyword ISSINGLE single_branch f ;;
  f <- on_keyword ISACTIVATE activate_branch f ;;
  on_keyword ISGUARD guard_branch f.

(** ** The reaction to a line received while idle (main7.c 1104-1338) *)

(** [f] holds the flags as the wait loop left them (a byte has arrived:
    [initialized = 1], [ringrcvd = 0]); [fuel] bounds the PIN polling of
    the fallback branch. *)
Definition on_line (fuel : nat) (f : flags) : M flags :=
  r <- readline ;;
  if 0 <? r then
    load_token ISSMS ;;
    sms <- found_in response ;;
    f <- (if sms && (ringrcvd f =? 0) then sms_command else ret f) ;;
    if ringrcvd f =? 0 then
      wake_modem ;;
      _ <- checkpin fuel ;;
      _ <- checkregistration ;;
      delay_sec 1 ;;
      uart_puts_P SMS1 ;;
      delay_sec 1 ;;
      uart_puts_P DELSMS ;;
      delay_sec 2 ;;
      put set_continousgps 0 ;;
      ret (Flags 0 0)
    else ret f
  else ret f.

(** ** Guard mode: comparing successive fixes (main7.c 1424-1489) *)

(** [atof] and the arithmetic on [double] belong to the C library and the
    compiler, not to main7.c; the comparison code is embedded over any
    implementation of them. *)
Class libm : Type := {
  double : Type;
  atof : array -> double;                 (* atof, on the cells of a string *)
  d_zero : double;                        (* the constant 0 *)
  d_limit : double;                       (* the constant 0.0027 *)
  d_sub : double -> double -> double;     (* x - y *)
  d_ltb : double -> double -> bool;       (* x < y *)
  d_neqb : double -> double -> bool       (* x != y *)
}.

Section Guard.
Context {fp : libm}.

(** [if (d < 0) d = 0 - d;] *)
Definition unsign (d : double) : double :=
  if d_ltb d d_zero then d_sub d_zero d else d.

(** The alert message and the exit from guard mode (main7.c 1448-1480). *)
Definition alert : M unit :=
  delay_sec 1 ;;
  sms_open ;;
  uart_puts_P ALERT ;;
  uart_puts_P GOOGLELOC1 ;;
  la <- get latitudegps ;;
  uart_puts la ;;
  uart_puts_P GOOGLELOC2 ;;
  lo <- get longtitudegps ;;
  uart_puts lo ;;
  uart_puts_P GOOGLELOC3 ;;
  delay_sec 1 ;;
  send_uart CTRLZ ;;
  delay_sec 10 ;;
  put set_continousgps 1 ;;
  uart_puts_P GPSPWROFF ;;
  delay_sec 1 ;;
  uart_puts_P SMS1 ;;
  delay_sec 1 ;;
  uart_puts_P DELSMS ;;
  delay_sec 2.

(** Lines 1426-1483, with the local [gpsdataavailable] as an argument. *)
Definition guard_check (gpsdataavailable : nat) : M unit :=
  laold <- get latitudegpsold ;;
  loold <- get longtitudegpsold ;;
  let latdiff := atof laold in
  let longdiff := atof loold in
  cont <- get continousgps ;;
  if (gpsdataavailable =? 1) && (cont =? 255)
     && d_neqb latdiff d_zero && d_neqb longdiff d_zero
  then
    la <- get latitudegps ;;
    lo <- get longtitudegps ;;
    let latdiff := unsign (d_sub (atof laold) (atof la)) in
    let longdiff := unsign (d_sub (atof loold) (atof lo)) in
    when (d_ltb d_limit longdiff || d_ltb d_limit latdiff) alert
  else ret tt.

(** Lines 1486-1489: the current position becomes the old one. *)
Definition remember_position : M unit :=
  la <- get latitudegps ;;
  memcpy "latitudegpsold" latitudegpsold set_latitudegpsold la 10 ;;
  lo <- get longtitudegps ;;
  memcpy "longtitudegpsold" longtitudegpsold set_longtitudegpsold lo 11 ;;
  poke "longtitudegpsold" longtitudegpsold set_longtitudegpsold 11 NUL ;;
  poke "latitudegpsold" latitudegpsold set_latitudegpsold 10 NUL.

Definition guard_step (gpsdataavailable : nat) : M unit :=
  guard_check gpsdataavailable ;;
  remember_position.

(** The position report of the single and multi modes (main7.c 1385-1420). *)
Definition position_sms : M unit :=
  delay_sec 1 ;;
  uart_puts_P CHECKBATT ;;
  _ <- readbattery ;;
  delay_sec 1 ;;
  sms_open ;;
  uart_puts_P LONG ;;
  lo <- get longtitudegps ;;
  uart_puts lo ;;
  uart_puts_P LATT ;;
  la <- get latitudegps ;;
  uart_puts la ;;
  uart_puts_P BATT ;;
  b <- get battery ;;
  uart_puts b ;;
  uart_puts_P GOOGLELOC1 ;;
  uart_puts la ;;
  uart_puts_P GOOGLELOC2 ;;
  lo' <- get longtitude ;;
  uart_puts lo' ;;
  uart_puts_P GOOGLELOC3 ;;
  delay_sec 1 ;;
  send_uart CTRLZ.

(** One pass of the polling loop, from the call of [readgpsinfo] to the
    delays that follow the countdown (main7.c 1351-1506).  The listening
    window for STOP that ends a guard-mode pass depends on when bytes
    arrive and is not part of this function. *)
Definition gps_pass : M unit :=
  r <- readgpsinfo ;;
  gpsdataavailable <-
    (if r =? 1 then
       lo <- get longtitude ;;
       memcpy "longtitudegps" longtitudegps set_longtitudegps lo 11 ;;
       poke "longtitudegps" longtitudegps set_longtitudegps 11 NUL ;;
       la <- get latitude ;;
       memcpy "latitudegps" latitudegps set_latitudegps la 10 ;;
       poke "latitudegps" latitudegps set_latitudegps 10 NUL ;;
       ret 1
     else ret 0) ;;
  cont <- get continousgps ;;
  when ((gpsdataavailable =? 1) && negb (cont =? 255)) position_sms ;;
  guard_step gpsdataavailable ;;
  cont <- get continousgps ;;
  when (negb (cont =? 255)) (put set_continousgps (u8 (cont + 255))) ;;
  cont <- get continousgps ;;
  when ((0 <? cont) && (cont <? 255))
    (delay_sec 60 ;; delay_sec 60 ;; delay_sec 60) ;;
  when (cont =? 0) (delay_sec 10).

End Guard.

(** ** IEEE 754 arithmetic as an implementation of [libm] *)

(** [atof] reads a decimal constant as [strtod] does: optional white
    space, an optional sign, digits with an optional point, an optional
    exponent.  The value is rounded to the nearest number of the format,
    ties to even; a string without digits reads as zero.  Subtraction
    and the comparisons are those of IEEE 754 ([SpecFloat]), and the
    constant [0.0027] is rounded as the compiler rounds it.  The format
    is a parameter: [double] has 64 bits on most hosts and 32 bits with
    the default settings of avr-gcc.  The words [inf] and [nan] and
    hexadecimal constants are not read. *)

Definition isspace (c : byte) : bool :=
  let n := nat_of_ascii c in (n =? 32) || ((9 <=? n) && (n <=? 13)).

Definition digit_of (c : byte) : option Z :=
  let n := nat_of_ascii c in
  if (48 <=? n) && (n <=? 57) then Some (Z.of_nat (n - 48)) else None.

Fixpoint skip_spaces (l : list byte) : list byte :=
  match l with
  | c :: l' => if isspace c then skip_spaces l' else l
  | [] => []
  end.

(** Leading digits of [l] appended to the number [m]; the result also
    counts them and gives what follows them. *)
Fixpoint read_digits (l : list byte) (m : Z) (k : nat)
    : Z * nat * list byte :=
  match l with
  | c :: l' =>
      match digit_of c with
      | Some d => read_digits l' (10 * m + d)%Z (S k)
      | None => (m, k, l)
      end
  | [] => (m, k, [])
  end.

(** The exponent part at the head of [l], 0 when there is none. *)
Definition read_exponent (l : list byte) : Z :=
  match l with
  | c :: l' =>
      if Ascii.eqb c "e"%char || Ascii.eqb c "E"%char then
        match l' with
        | s :: l'' =>
            if Ascii.eqb s "-"%char
            then let '(n, _, _) := read_digits l'' 0%Z 0 in (- n)%Z
            else if Ascii.eqb s "+"%char
            then let '(n, _, _) := read_digits l'' 0%Z 0 in n
            else let '(n, _, _) := read_digits l' 0%Z 0 in n
        | [] => 0%Z
        end
      else 0%Z
  | [] => 0%Z
  end.

(** The unsigned decimal constant at the head of [l]: its digits as one
    number, how many there are, and the power of ten that scales them. *)
Definition read_decimal (l : list byte) : Z * nat * Z :=
  let '(m, k1, rest) := read_digits l 0%Z 0 in
  match rest with
  | c :: rest' =>
      if Ascii.eqb c "."%char then
        let '(m', k2, rest'') := read_digits rest' m 0 in
        (m', k1 + k2, (read_exponent rest'' - Z.of_nat k2)%Z)
      else (m, k1, read_exponent rest)
  | [] => (m, k1, 0%Z)
  end.

Section Format.
Variables prec emax : Z.

(** [m * 10^e] with sign [s], rounded to the format. *)
Definition round_decimal (s : bool) (m e : Z) : spec_float :=
  match m with
  | Zpos p =>
      match e with
      | Zneg _ =>
          SFdiv prec emax (S754_finite s p 0)
            (S754_finite false (Z.to_pos (10 ^ (- e))) 0)
      | _ => binary_round prec emax s (p * Z.to_pos (10 ^ e)) 0
      end
  | _ => S754_zero s
  end.

Definition read_signed (s : bool) (l : list byte) : spec_float :=
  let '(m, k, e) := read_decimal l in
  if k =? 0 then S754_zero false else round_decimal s m e.

Definition atof_ieee (a : array) : spec_float :=
  match skip_spaces a with
  | c :: l =>
      if Ascii.eqb c "-"%char then read_signed true l
      else if Ascii.eqb c "+"%char then read_signed false l
      else read_signed false (c :: l)
  | [] => S754_zero false
  end.

Definition ieee : libm := {|
  double := spec_float;
  atof := atof_ieee;
  d_zero := S754_zero false;
  d_limit := round_decimal false 27 (-4);
  d_sub := SFsub prec emax;
  d_ltb := SFltb;
  d_neqb := fun x y => negb (SFeqb x y)
|}.

End Format.

(** [double] with 64 bits, and with the 32 bits of avr-gcc's default. *)
Definition binary64 : libm := ieee 53 1024.

(** ** Start-up: seeding the position buffers (main7.c 903-906) *)

(** The first statements of [main] that touch the globals: four copies
    of [INITLOC], each of [sizeof(INITLOC)] bytes. *)
Definition seed_positions : M unit :=
  memcpy "latitudegpsold" latitudegpsold set_latitudegpsold INITLOC
    (length INITLOC) ;;
  memcpy "latitudegps" latitudegps set_latitudegps INITLOC
    (length INITLOC) ;;
  memcpy "longtitudegpsold" longtitudegpsold set_longtitudegpsold INITLOC
    (length INITLOC) ;;
  memcpy "longtitudegps" longtitudegps set_longtitudegps INITLOC
    (length INITLOC).

(** ** Guard mode: a line received while waiting (main7.c 1530-1577) *)

(** The acknowledgment of STOP and the exit from guard mode
    (main7.c 1549-1570). *)
Definition stop_branch : M unit :=
  sms_open ;;
  uart_puts_P STOP ;;
  sms_close ;;
  uart_puts_P GPSPWROFF ;;
  delay_sec 1 ;;
  put set_continousgps 0.

(** The body of [if (initialized == 1)]: a byte has arrived during the
    minute the guard loop listens.  Only an SMS whose text holds STOP has
    an effect. *)
Definition on_guard_line : M unit :=
  r <- readline ;;
  if 0 <? r then
    load_token ISSMS ;;
    sms <- found_in response ;;
    if sms then
      _ <- readsmstxt ;;
      _ <- readsmsphonenumber ;;
      load_token ISSTOP ;;
      hit <- found_in_upper_smstext ;;
      when hit stop_branch
    else ret tt
  else ret tt.

(** ** Initial state and test inputs *)

(** The initialisers of the globals (main7.c 150-178); EEPROM erased. *)
Definition digits10 : array := list_ascii_of_string "1234567890".
Definition digits170 : array := concat (repeat digits10 17).

Definition boot (input : nat -> byte) : world :=
  World input 0 [] (fill 20 (ascii_of_nat 255))
    digits170 0                       (* response *)
    (digits10 ++ digits10) 0          (* phonenumber *)
    digits170 0                       (* smstext *)
    (fill 20 "0"%char) 0              (* latitude *)
    (fill 20 "0"%char) 0              (* longtitude *)
    (fill 20 "0"%char) (fill 20 "0"%char)   (* latitudegps, longtitudegps *)
    (fill 20 "0"%char) (fill 20 "0"%char)   (* ...old *)
    (fill 40 NUL)                     (* buf *)
    (fill 10 "0"%char) 0              (* battery *)
    0.                                (* continousgps *)

(** The bytes of [l] followed by those of [rest]. *)
Definition feed (l : list byte) (rest : nat -> byte) : nat -> byte :=
  fun n => if n <? length l then nth n l NUL else rest (n - length l).

(** A line on which only carriage returns arrive. *)
Definition idle : nat -> byte := fun _ => CR.

(** The text [s] as a line ended by CR LF. *)
Definition line (s : string) : list byte := list_ascii_of_string s ++ [CR; LF].


(** * Definitions used in the statements *)

(** Forgetting the three things [readline] may change. *)
Definition but_line (w : world) : world :=
  set_response [] (set_response_pos 0 (set_rx_pos 0 w)).

(** Forgetting the three things [readsmstxt] may change. *)
Definition but_smstext (w : world) : world :=
  set_smstext [] (set_smstext_pos 0 (set_rx_pos 0 w)).

(** The array after the line [s] was stored over the contents [old]. *)
Definition holding (s : string) (old : array) : array :=
  lit s ++ skipn (length (lit s)) old.

(** The announcement of an SMS from [num], as the modem prints it:
    [+CMT: "num","","24/01/01,12:00:00+04"] and CR LF. *)
Definition notification (num : string) : list byte :=
  list_ascii_of_string "+CMT: " ++ [DQ] ++ list_ascii_of_string num
    ++ [DQ] ++ list_ascii_of_string "," ++ [DQ; DQ]
    ++ list_ascii_of_string "," ++ [DQ]
    ++ list_ascii_of_string "24/01/01,12:00:00+04" ++ [DQ; CR; LF].

(** An SMS from [num] with text [body] arriving on an otherwise quiet
    line, at the initial state. *)
Definition sms_arrives (num body : string) : world :=
  boot (feed (notification num ++ line body) idle).

(** The events [es] appended to the trace, one call each. *)
Definition emits (es : list event) (w : world) : world :=
  fold_left (fun w e => set_trace (trace w ++ [e]) w) es w.

(** One fix-status check as the polling loop of [readgpsinfo] makes it:
    the 15 s wait outside guard mode, the query, the reply line and the
    search for the fix marker (main7.c 543-557). *)
Definition fix_check : M bool :=
  cont <- get continousgps ;;
  when (negb (cont =? 255)) (delay_sec 15) ;;
  uart_puts_P GPSINFO ;;
  _ <- readline ;;
  load_token GPSISFIXED ;;
  found_in response.

(** [n] fix-status checks in a row, none reporting a fix, lead from the
    first state to the second. *)
Inductive failed_checks : nat -> world -> world -> Prop :=
| failed_none (w : world) : failed_checks 0 w w
| failed_next (n : nat) (w w1 w2 : world) :
    fix_check w = Ret false w1 ->
    failed_checks n w1 w2 ->
    failed_checks (S n) w w2.

(** The state in which the polling loop starts: GPS switched on and cold
    started at the first or last pass of a sequence (main7.c 523-535). *)
Definition powered (w : world) : world :=
  if (continousgps w =? 1) || (continousgps w =? 5)
  then emits [Delay 1; Tx (cstr GPSPWRON); Delay 2; Tx (cstr GPSCLDSTART)] w
  else emits [Delay 1] w.

(** What follows a reported fix (main7.c 564-579). *)
Definition take_fix : M nat :=
  memcpy "latitudegps" latitudegps set_latitudegps INITLOC
    (length INITLOC) ;;
  memcpy "longtitudegps" longtitudegps set_longtitudegps INITLOC
    (length INITLOC) ;;
  _ <- readSIM7000gps ;;
  delay_sec 2 ;;
  cont <- get continousgps ;;
  when (cont =? 1) (uart_puts_P GPSPWROFF ;; delay_sec 1) ;;
  ret 1.

(** The number of failed checks after which [readgpsinfo] gives up. *)
Definition patience (cont : nat) : nat := if cont =? 255 then 1 else 20.

(** Equality of byte sequences, decided. *)
Fixpoint same_bytes (a b : list byte) : bool :=
  match a, b with
  | [], [] => true
  | x :: a', y :: b' => Ascii.eqb x y && same_bytes a' b'
  | _, _ => false
  end.

(** The fix-status queries in a trace. *)
Definition is_probe (e : event) : bool :=
  match e with
  | Tx b => same_bytes b (cstr GPSINFO)
  | _ => false
  end.

Definition probes (t : list event) : nat := length (filter is_probe t).

(** The C string in [a] consists of zero digits only, as in the value the
    position buffers are seeded with. *)
Definition zero_digits (a : array) : Prop :=
  Forall (fun c => c = "0"%char) (cstr a).



(** A 20-cell position buffer holding the string [s]. *)
Definition coordinate (s : string) : array := holding s (fill 20 "0"%char).

(** Guard mode with a stored previous fix and a newly read one. *)
Definition guarding (oldlat oldlon newlat newlon : string) : world :=
  set_continousgps 255
    (set_latitudegpsold (coordinate oldlat)
       (set_longtitudegpsold (coordinate oldlon)
          (set_latitudegps (coordinate newlat)
             (set_longtitudegps (coordinate newlon) (boot idle))))).

(** The contents of the four position buffers after the seeding of
    [main] (main7.c 903-906): nineteen zero digits and a terminator. *)
Definition seeded : array := fill 19 "0"%char ++ [NUL].

(** The number a decimal string denotes: optional white space and sign,
    digits, and an optional point followed by digits. *)
Fixpoint pow10 (k : nat) : positive :=
  match k with
  | 0 => 1%positive
  | S k' => (10 * pow10 k')%positive
  end.

Definition unsigned_value (l : list byte) : Q :=
  let '(m, _, rest) := read_digits l 0%Z 0 in
  match rest with
  | c :: rest' =>
      if Ascii.eqb c "."%char then
        let '(m', k, _) := read_digits rest' m 0 in
        Qmake m' (pow10 k)
      else inject_Z m
  | [] => inject_Z m
  end.

Definition decimal_value (a : array) : Q :=
  match skip_spaces a with
  | c :: l =>
      if Ascii.eqb c "-"%char then Qopp (unsigned_value l)
      else if Ascii.eqb c "+"%char then unsigned_value l
      else unsigned_value (c :: l)
  | [] => 0%Q
  end.

(** In the words of the specification: a coordinate of the new fix,
    as a decimal number, is more than 0.0027 degrees away from that of
    the previous one. *)
Definition moved (w : world) : Prop :=
  (27 # 10000 <
     Qabs (decimal_value (latitudegpsold w) - decimal_value (latitudegps w))
   \/
   27 # 10000 <
     Qabs (decimal_value (longtitudegpsold w)
           - decimal_value (longtitudegps w)))%Q.



(** The first guard-mode pass with a fix: the stored position is still
    the seeded one, the position just read is 52.003000 N 21.000000 E. *)
Definition first_guard_pass : world :=
  set_continousgps 255
    (set_latitudegpsold seeded
       (set_longtitudegpsold seeded
          (set_latitudegps (coordinate "52.003000")
             (set_longtitudegps (coordinate "21.000000") (boot idle))))).

(** The buffer [r] after the bytes [l] and a terminator were stored from
    index [p] on. *)
Definition place (r : array) (p : nat) (l : list byte) : array :=
  firstn p r ++ l ++ NUL :: skipn (p + S (length l)) r.

(** The next bytes on the line are those of [l]. *)
Definition incoming (w : world) (l : list byte) : Prop :=
  forall k, k < length l -> rx w (rx_pos w + k) = nth k l NUL.

(** A modem that answers every probe with its echo, the two letters AT
    and a carriage return, and never says OK. *)
Definition echo_only : nat -> byte :=
  fun n => nth (n mod 3) ["A"%char; "T"%char; CR] NUL.

(** The response buffer after an echo was read into it, and [buf] after
    the OK token was copied into it. *)
Definition echo_line : array := holding "AT" digits170.
Definition ok_token : array := ISOK ++ fill 37 NUL.

(** The state before probe number [m] of the echoing modem: trace [t],
    response buffer [r], token buffer [b]. *)
Definition probing (m : nat) (t : list event) (r b : array) : world :=
  set_rx_pos (3 * m)
    (set_trace t (set_response r (set_buf b (boot echo_only)))).

(** One pass of the probe loop of [checkat]; the result is
    [initialized2] (main7.c 671-683). *)
Definition probe_once : M nat :=
  uart_puts_P AT ;;
  r <- readline ;;
  initialized2 <-
    (if 0 <? r then
       load_token ISOK ;;
       b <- found_in response ;;
       ret (flag b)
     else
       load_token ISATECHO ;;
       b <- found_in response ;;
       ret (flag b)) ;;
  delay_sec 1 ;;
  ret initialized2.

(** The text [tok] was sent in one piece at some point of the trace. *)
Definition sent (tok : array) (t : list event) : bool :=
  existsb (fun e => match e with
                    | Tx b => same_bytes b (cstr tok)
                    | _ => false
                    end) t.

(** How often it was sent. *)
Definition times_sent (tok : array) (t : list event) : nat :=
  length (filter (fun e => match e with
                           | Tx b => same_bytes b (cstr tok)
                           | _ => false
                           end) t).

(** The matcher's verdict on the array [a] for the token [tok]. *)
Definition finds (tok a : array) : bool :=
  is_in_rx_buffer a tok BUFFER_SIZE =? 1.

(** No cell of [t] is a terminator. *)
Definition nul_free (t : list byte) : bool :=
  forallb (fun c => negb (is_nul c)) t.

(** The four keyword tests of [sms_command], after the body and the
    sender were read and the flags cleared (main7.c 1121-1295). *)
Definition dispatch : M flags :=
  f <- on_keyword ISMULTI multi_branch (Flags 0 0) ;;
  f <- on_keyword ISSINGLE single_branch f ;;
  f <- on_keyword ISACTIVATE activate_branch f ;;
  on_keyword ISGUARD guard_branch f.

(** The mode the tests leave behind, for an upper-cased body [u] and the
    mode [m] before them: the last keyword found decides. *)
Definition mode_after (m : nat) (u : array) : nat :=
  if finds ISGUARD u then 255
  else if finds ISACTIVATE u then 0
  else if finds ISSINGLE u then 1
  else if finds ISMULTI u then 5
  else m.

(** The flags [initialized] and [ringrcvd] they leave behind. *)
Definition flags_after (u : array) : flags :=
  if finds ISGUARD u then Flags 1 1
  else if finds ISACTIVATE u then Flags 0 1
  else if finds ISSINGLE u then Flags 1 1
  else if finds ISMULTI u then Flags 1 1
  else Flags 0 0.

(** The number of keywords the matcher finds in [u]. *)
Definition hits (u : array) : nat :=
  flag (finds ISMULTI u) + flag (finds ISSINGLE u)
  + flag (finds ISACTIVATE u) + flag (finds ISGUARD u).

(** What a command branch sends before and after its own text. *)
Definition opening (w : world) : list event :=
  [DtrLow; Tx (cstr AT); Delay 1; Tx (cstr SLEEPOFF); Delay 1; DtrHigh;
   Delay 1; Tx (cstr SMS1); Delay 1; Tx (cstr SMS2);
   Tx (cstr (phonenumber w)); Tx (cstr CRLF); Delay 1].

Definition closing : list event :=
  [Tx [CTRLZ]; Delay 10; Tx (cstr SMS1); Delay 1; Tx (cstr DELSMS);
   Delay 2].

(** What each branch sends, in full. *)
Definition multi_events (w : world) : list event :=
  opening w ++ [Tx (cstr COMMANDMULTIACK)] ++ closing.
Definition single_events (w : world) : list event :=
  opening w ++ [Tx (cstr COMMANDSINGLEACK)] ++ closing.
Definition activate_events (w : world) : list event :=
  opening w ++ [Tx (cstr ACTIVATED); Tx (cstr (phonenumber w))] ++ closing.
Definition guard_events (w : world) : list event :=
  opening w ++ [Tx (cstr GUARD)] ++ closing
    ++ [Tx (cstr GPSPWRON); Delay 2; Tx (cstr GPSCLDSTART); Delay 1].

Definition if_found (b : bool) (es : list event) : list event :=
  if b then es else [].

(** The state in which a keyword test can run: the body has a
    terminator, its upper-case form is [u], and [buf] has its 40 cells. *)
Definition ready (u : array) (w : world) : Prop :=
  strupr_cells (smstext w) = Some u /\ length (buf w) = 40.

(** The first query of [checkregistration]; the result tells whether a
    registration code was found (main7.c 738-746). *)
Definition first_query : M bool :=
  delay_sec 1 ;;
  uart_puts_P SHOW_REGISTRATION ;;
  r <- readline ;;
  if 0 <? r then registered_already else ret false.

(** One wait-and-requery cycle of the retry loop, its back-off included
    (main7.c 753-800). *)
Definition cycle : M bool :=
  delay_sec 120 ;;
  uart_puts_P SHOW_REGISTRATION ;;
  r <- readline ;;
  if 0 <? r then
    reg <- registered ;;
    when (negb reg) backoff ;;
    ret reg
  else ret false.

(** The radio switched on before the retry loop (main7.c 750-751). *)
Definition radio_on : M unit :=
  delay_sec 1 ;;
  uart_puts_P FLIGHTOFF.

(** [n] cycles in a row, none observing registration. *)
Inductive failed_cycles : nat -> world -> world -> Prop :=
| cycles_none (w : world) : failed_cycles 0 w w
| cycles_next (n : nat) (w w1 w2 : world) :
    cycle w = Ret false w1 ->
    failed_cycles n w1 w2 ->
    failed_cycles (S n) w w2.

(** [n] probes in a row without OK. *)
Inductive failed_probes : nat -> world -> world -> Prop :=
| probes_none (w : world) : failed_probes 0 w w
| probes_next (n : nat) (w w1 w2 : world) :
    probe_once w = Ret 0 w1 ->
    failed_probes n w1 w2 ->
    failed_probes (S n) w w2.

(** A GPS that has no fix: twenty status replies [+CGNSINF: 1,0,...],
    read in mode [mode]. *)
Definition no_fix_yet (mode : nat) : world :=
  set_continousgps mode
    (boot (feed (concat (repeat (line "+CGNSINF: 1,0,,,,,0.00,0.0,0") 20))
             idle)).

(** A network found at the fourth registration query. *)
Definition found_at_fourth : world :=
  boot (feed (concat (repeat (line "+CREG: 0,2") 3) ++ line "+CREG: 0,5")
          idle).

(** The cells [p .. p+n-1] of an array. *)
Definition cells (a : array) (p n : nat) : list byte :=
  map (fun j => load a (p + j)) (seq 0 n).

(** The layout [readsmsphonenumber] relies on: the first colon of the
    buffer at index [a], the first quote after it [b] cells further, and
    then [n] cells that are not quotes. *)
Definition envelope (r : array) (a b n : nat) : Prop :=
  (forall j, j < a -> Ascii.eqb (load r j) ":"%char = false) /\
  Ascii.eqb (load r a) ":"%char = true /\
  (forall j, j < b -> Ascii.eqb (load r (S a + j)) DQ = false) /\
  Ascii.eqb (load r (S a + b)) DQ = true /\
  (forall j, j < n -> Ascii.eqb (load r (S (S a) + b + j)) DQ = false).


(** One pass of the loop of [checkpin]; the result is [initialized2]
    (main7.c 704-717). *)
Definition pin_pass : M nat :=
  delay_sec 2 ;;
  uart_puts_P SHOW_PIN ;;
  r <- readline ;;
  if 0 <? r then
    load_token PIN_IS_READY ;;
    ready <- found_in response ;;
    load_token PIN_MUST_BE_ENTERED ;;
    needed <- found_in response ;;
    when needed
      (delay_sec 1 ;; uart_puts_P ENTER_PIN ;; delay_sec 1) ;;
    ret (flag ready)
  else ret 0.

(** [n] passes in a row that do not see the SIM ready. *)
Inductive failed_pin_passes : nat -> world -> world -> Prop :=
| pin_none (w : world) : failed_pin_passes 0 w w
| pin_next (n : nat) (w w1 w2 : world) :
    pin_pass w = Ret 0 w1 ->
    failed_pin_passes n w1 w2 ->
    failed_pin_passes (S n) w w2.

(** [buf] after the token [tok] was copied into it. *)
Definition token_in (tok b : array) : array :=
  tok ++ skipn (length tok) b.

(** A SIM that asks for its PIN once and is ready after that. *)
Definition pin_then_ready : nat -> byte :=
  feed (line "+CPIN: SIM PIN" ++ line "+CPIN: READY") idle.

(** Forgetting the three things [readsmsphonenumber] may change. *)
Definition but_sender (w : world) : world :=
  set_phonenumber [] (set_phonenumber_pos 0 (set_response_pos 0 w)).

(** What the STOP branch sends to the number in [p], in order
    (main7.c 1549-1568). *)
Definition stop_events (p : array) : list event :=
  [Tx (cstr SMS1); Delay 1; Tx (cstr SMS2); Tx (cstr p); Tx (cstr CRLF);
   Delay 1; Tx (cstr STOP); Tx [CTRLZ]; Delay 10; Tx (cstr SMS1); Delay 1;
   Tx (cstr DELSMS); Delay 2; Tx (cstr GPSPWROFF); Delay 1].

(** Guard mode, and a message from +48123456789 with the text [body]
    arriving. *)
Definition guarded_sms (body : string) : world :=
  set_buf (fill 40 "x"%char)
    (set_continousgps 255 (sms_arrives "+48123456789" body)).

(** Forgetting the things a fix-status check may change. *)
Definition but_check (w : world) : world :=
  set_buf [] (set_trace [] (but_line w)).

(** What a pass of the polling loop sends in mode [c] when no check
    reports a fix: the switching on, the checks, the giving up and the
    pause before the next pass (main7.c 523-590, 1493-1506). *)
Definition power_events (c : nat) : list event :=
  if (c =? 1) || (c =? 5)
  then [Delay 1; Tx (cstr GPSPWRON); Delay 2; Tx (cstr GPSCLDSTART)]
  else [Delay 1].

Definition check_events (c : nat) : list event :=
  if c =? 255 then [Tx (cstr GPSINFO)] else [Delay 15; Tx (cstr GPSINFO)].

Definition give_up_events (c : nat) : list event :=
  if c =? 255 then []
  else Delay 2 :: (if c =? 1 then [Tx (cstr GPSPWROFF); Delay 1] else []).

Definition pause_events (c : nat) : list event :=
  if c =? 255 then []
  else if c =? 1 then [Delay 10]
  else [Delay 60; Delay 60; Delay 60].

Definition no_fix_events (c : nat) : list event :=
  power_events c ++ concat (repeat (check_events c) (patience c))
    ++ give_up_events c ++ pause_events c.

(** The seconds spent in [delay_sec] according to a trace. *)
Fixpoint seconds (t : list event) : nat :=
  match t with
  | [] => 0
  | Delay s :: t' => s + seconds t'
  | _ :: t' => seconds t'
  end.

(** What the back-off of [checkregistration] does, in order
    (main7.c 772-796). *)
Definition backoff_events : list event :=
  [Delay 1; Tx (cstr FLIGHTON); Delay 1; Tx (cstr GPSPWROFF); Delay 1;
   Tx (cstr SLEEPON)]
    ++ repeat (Delay 60) 30
    ++ [DtrLow; Tx (cstr AT); Delay 1; Tx (cstr SLEEPOFF); Delay 1;
        DtrHigh; Delay 1; Tx (cstr FLIGHTOFF)].

(** A network that is not found: every registration query is answered
    with [+CREG: 0,2], searching. *)
Definition searching : nat -> byte :=
  feed (concat (repeat (line "+CREG: 0,2") 25)) idle.

(** A modem with the echo on that answers the second probe: the echo of
    the first probe, then OK. *)
Definition echo_then_ok : nat -> byte :=
  feed (line "AT" ++ line "OK") idle.

(** The body hi in a buffer that still holds, behind it, the end of an
    earlier message: [tell GUARD]. *)
Definition hi_over_guard : array :=
  lit "hi" ++ list_ascii_of_string "l GUARD" ++ NUL :: skipn 11 digits170.

(** The state in which [sms_command] starts: the notification of a
    message from [num] with the text [body] has been read by
    [readline]. *)
Definition announced (num body : string) : world :=
  match readline (sms_arrives num body) with
  | Ret _ w => w
  | _ => sms_arrives num body
  end.

(** A text of 160 letters, the longest a single SMS carries. *)
Definition long_text : string :=
  string_of_list_ascii (repeat "a"%char 160).

(** An outcome with the contents of the EEPROM left out. *)
Definition forget_eeprom {A : Type} (o : outcome A) : outcome A :=
  match o with
  | Ret a w => Ret a (set_eeprom [] w)
  | OutOfBounds arr i => OutOfBounds arr i
  | NoFuel => NoFuel
  end.

(** A routine whose outcome, the EEPROM left out, does not depend on what
    the EEPROM holds. *)
Definition eeprom_blind {A : Type} (m : M A) : Prop :=
  forall w e, forget_eeprom (m (set_eeprom e w)) = forget_eeprom (m w).

(** A reply of the modem as it arrives on the line: line-end bytes left
    from what came before, the text of the reply, and the line-end byte
    that closes it. *)
Record reply : Type :=
  Reply { reply_lead : list byte; reply_text : list byte; reply_end : byte }.

Definition wire (r : reply) : list byte :=
  reply_lead r ++ reply_text r ++ [reply_end r].

(** A reply that [readline] takes in one piece: the text is not empty
    and ends before the 150th byte. *)
Definition framed (r : reply) : Prop :=
  Forall (fun c => is_eol c = true) (reply_lead r) /\
  Forall (fun c => is_eol c = false) (reply_text r) /\
  is_eol (reply_end r) = true /\
  0 < length (reply_text r) /\
  length (reply_lead r) + length (reply_text r) < 150.

(** The text reports registration: it holds the home or the roaming
    code with no plus sign before it, as when the reply begins with the
    code. *)
Definition reports_registration (l : list byte) : Prop :=
  exists tok pre post,
    (tok = cstr ISREG1 \/ tok = cstr ISREG2) /\
    l = pre ++ tok ++ post /\
    Forall (fun c => c <> "+"%char) pre.

(** The text holds neither code. *)
Definition reports_none (l : list byte) : Prop :=
  ~ occurs (cstr ISREG1) l /\ ~ occurs (cstr ISREG2) l.

(** No code stands in the buffer [r] behind its first cell, where the
    next reply would not overwrite it. *)
Definition no_stale_code (r : array) : Prop :=
  forall tok pre post,
    tok = cstr ISREG1 \/ tok = cstr ISREG2 ->
    r = pre ++ tok ++ post -> pre = [].

(** One wait-and-requery cycle that ends in the back-off. *)
Definition failed_cycle_events : list event :=
  [Delay 120; Tx (cstr SHOW_REGISTRATION)] ++ backoff_events.

(** What [checkregistration] does when [k] replies report no
    registration and the next one reports it (main7.c 738-800). *)
Definition registration_events (k : nat) : list event :=
  [Delay 1; Tx (cstr SHOW_REGISTRATION)]
    ++ match k with
       | 0 => []
       | S j =>
           [Delay 1; Tx (cstr FLIGHTOFF)]
             ++ concat (repeat failed_cycle_events j)
             ++ [Delay 120; Tx (cstr SHOW_REGISTRATION)]
       end.

(** What it does when the first reply and those of 24 cycles report no
    registration. *)
Definition given_up_events : list event :=
  [Delay 1; Tx (cstr SHOW_REGISTRATION); Delay 1; Tx (cstr FLIGHTOFF)]
    ++ concat (repeat failed_cycle_events 24).

(** The replies [+CREG: 0,2] (searching) and [+CREG: 0,5] (registered,
    roaming) as they follow one another on the line. *)
Definition creg_first (s : string) : reply :=
  Reply [] (list_ascii_of_string s) CR.
Definition creg_next (s : string) : reply :=
  Reply [LF] (list_ascii_of_string s) CR.

(** The buffer [r] after [readline] stored the line [l] in it. *)
Definition stored (l : list byte) (r : array) : array :=
  l ++ NUL :: skipn (S (length l)) r.

(** The state after a query: what was done appended to the trace, the
    reply [r] taken from the line and stored, [b] in the token buffer. *)
Definition queried (es : list event) (b : array) (r : reply) (w : world)
    : world :=
  set_buf b
    (set_response (stored (reply_text r) (response w))
       (set_response_pos 0
          (set_rx_pos (rx_pos w + length (wire r))
             (set_trace (trace w ++ es) w)))).

(** The token buffer after both codes were looked for. *)
Definition both_codes (b : array) : array :=
  token_in ISREG2 (token_in ISREG1 b).

(** The buffers as [checkregistration] needs them: [response] and [buf]
    of their declared sizes, and no stale code in [response]. *)
Definition listening (w : world) : Prop :=
  length (response w) = BUFFER_SIZE /\ length (buf w) = 40 /\
  no_stale_code (response w).


(** * Properties *)

(** Projections of updated states, and nothing else, are computed by
    [fields]. *)
Ltac fields :=
  cbn [
    rx rx_pos trace eeprom response response_pos phonenumber
    phonenumber_pos smstext smstext_pos latitude latitude_pos
    longtitude longtitude_pos latitudegps longtitudegps latitudegpsold
    longtitudegpsold buf battery battery_pos continousgps set_rx
    set_rx_pos set_trace set_eeprom set_response set_response_pos
    set_phonenumber set_phonenumber_pos set_smstext set_smstext_pos
    set_latitude set_latitude_pos set_longtitude set_longtitude_pos
    set_latitudegps set_longtitudegps set_latitudegpsold
    set_longtitudegpsold set_buf set_battery set_battery_pos
    set_continousgps ] in *.

(** ** Arrays *)

Lemma store_some (a : array) (i : nat) (c : byte) :
  i < length a -> store a i c = Some (upd a i c).
Proof.
  intros H. unfold store. apply Nat.ltb_lt in H. now rewrite H.
Qed.

Lemma store_inv (a a' : array) (i : nat) (c : byte) :
  store a i c = Some a' -> i < length a /\ a' = upd a i c.
Proof.
  unfold store. destruct (i <? length a) eqn:E; [|discriminate].
  intros [= <-]. apply Nat.ltb_lt in E. now split.
Qed.

Lemma length_upd (a : array) (i : nat) (c : byte) :
  i < length a -> length (upd a i c) = length a.
Proof.
  intros H. unfold upd. rewrite length_app, length_firstn. cbn [length].
  rewrite length_skipn. lia.
Qed.

(** A store below [n] leaves the cells from [n] on as they were. *)
Lemma skipn_upd (a : array) (i n : nat) (c : byte) :
  i < n -> i < length a -> skipn n (upd a i c) = skipn n a.
Proof.
  intros Hn Hi. unfold upd.
  rewrite skipn_app, length_firstn, Nat.min_l by lia.
  rewrite (skipn_all2 (firstn i a)) by (rewrite length_firstn; lia).
  cbn [app]. replace (n - i) with (S (n - S i)) by lia.
  rewrite skipn_cons, skipn_skipn. f_equal. lia.
Qed.

(** ** Stepping through computations *)

Lemma bind_ret_inv {A B : Type} (m : M A) (k : A -> M B) (w w' : world)
    (b : B) :
  bind m k w = Ret b w' ->
  exists a w1, m w = Ret a w1 /\ k a w1 = Ret b w'.
Proof.
  unfold bind. destruct (m w) as [a w1| |]; try discriminate. eauto.
Qed.

Lemma bind_ret {A B : Type} (m : M A) (k : A -> M B) (w w1 : world)
    (a : A) :
  m w = Ret a w1 -> bind m k w = k a w1.
Proof. unfold bind. now intros ->. Qed.

Lemma u8_small (n : nat) : n < 256 -> u8 n = n.
Proof. intros H. unfold u8. now apply Nat.mod_small. Qed.

(** The plumbing of [M], unfolded. *)
Ltac run :=
  cbv beta iota zeta delta
    [bind ret get put when emit poke receive_uart send_uart uart_puts
     uart_puts_P delay_sec] in *.

(** The same on a state given by its fields ([destruct w] first): the
    state is rebuilt after every step, which keeps long straight-line
    code small. *)
Ltac crunch :=
  cbv beta iota zeta delta
    [bind ret get put when emit poke receive_uart send_uart uart_puts
     uart_puts_P delay_sec
     rx rx_pos trace eeprom response response_pos phonenumber
     phonenumber_pos smstext smstext_pos latitude latitude_pos
     longtitude longtitude_pos latitudegps longtitudegps
     latitudegpsold longtitudegpsold buf battery battery_pos
     continousgps set_rx set_rx_pos set_trace set_eeprom set_response
     set_response_pos set_phonenumber set_phonenumber_pos set_smstext
     set_smstext_pos set_latitude set_latitude_pos set_longtitude
     set_longtitude_pos set_latitudegps set_longtitudegps
     set_latitudegpsold set_longtitudegpsold set_buf set_battery
     set_battery_pos set_continousgps] in *.

(** ** The line readers stay inside their buffers *)

(** Both readers run the same loop on different globals; one script serves
    both.  [pos] is the cursor of the buffer and [hide] the frame. *)
Ltac line_loop_bounded pos hide :=
  let IH := fresh "IH" in
  let w' := fresh "w'" in
  let R := fresh "R" in
  let F := fresh "F" in
  let L := fresh "L" in
  let S' := fresh "S'" in
  let P := fresh "P" in
  let Ei := fresh "Ei" in
  intros fuel; induction fuel as [|fuel IH];
  intros i w Hf Hi Hp Hl; [lia|];
  cbn [readline_loop readsmstxt_loop]; run;
  rewrite (u8_small (i + 1)) by lia;
  replace (i + 1) with (S i) by lia;
  assert (Hi' : (i <? 150) = true) by (now apply Nat.ltb_lt);
  rewrite Hi', andb_true_r;
  destruct (is_eol (rx w (rx_pos w))); cbn [negb]; run; fields;
  [ destruct (0 <? pos w); run; fields;
    [ rewrite store_some by lia; cbn [Nat.eqb andb];
      eexists; split; [reflexivity|]; unfold hide; fields;
      repeat split; try lia; [apply length_upd; lia | apply skipn_upd; lia]
    | cbn [Nat.eqb andb]; destruct (S i <? 150) eqn:Ei;
      [ apply Nat.ltb_lt in Ei;
        destruct (IH (S i) (set_rx_pos (S (rx_pos w)) w))
          as (w' & R & F & L & S' & P); fields; try lia;
        exists w'; split; [exact R|]; unfold hide in *; fields;
        repeat split; try lia; assumption
      | eexists; split; [reflexivity|]; unfold hide; fields;
        repeat split; lia ] ]
  | rewrite store_some by lia; run; fields; cbn [Nat.eqb andb];
    rewrite (u8_small (pos w + 1)) by lia;
    destruct (S i <? 150) eqn:Ei;
    [ apply Nat.ltb_lt in Ei;
      match goal with |- exists _, _ _ _ ?w2 = _ /\ _ =>
        destruct (IH (S i) w2) as (w' & R & F & L & S' & P) end;
        fields; try rewrite length_upd; try lia;
      exists w'; split; [exact R|]; unfold hide in *; fields;
      rewrite length_upd in L by lia;
      rewrite skipn_upd in S' by lia;
      repeat split; try lia; assumption
    | eexists; split; [reflexivity|]; unfold hide; fields;
      repeat split; try lia; [apply length_upd; lia | apply skipn_upd; lia] ] ].

Lemma readline_loop_bounded :
  forall (fuel i : nat) (w : world),
  150 <= fuel + i -> i < 150 -> response_pos w <= i ->
  150 <= length (response w) ->
  exists w',
    readline_loop fuel i w = Ret tt w' /\
    but_line w' = but_line w /\
    length (response w') = length (response w) /\
    skipn 150 (response w') = skipn 150 (response w) /\
    rx_pos w < rx_pos w' <= rx_pos w + (150 - i).
Proof. line_loop_bounded response_pos but_line. Qed.

Lemma readsmstxt_loop_bounded :
  forall (fuel i : nat) (w : world),
  150 <= fuel + i -> i < 150 -> smstext_pos w <= i ->
  150 <= length (smstext w) ->
  exists w',
    readsmstxt_loop fuel i w = Ret tt w' /\
    but_smstext w' = but_smstext w /\
    length (smstext w') = length (smstext w) /\
    skipn 150 (smstext w') = skipn 150 (smstext w) /\
    rx_pos w < rx_pos w' <= rx_pos w + (150 - i).
Proof. line_loop_bounded smstext_pos but_smstext. Qed.

(** [readline] on a buffer of at least 150 cells. *)
Lemma readline_bounded (w : world) :
  150 <= length (response w) ->
  exists w',
    readline w = Ret 1 w' /\
    but_line w' = but_line w /\
    length (response w') = length (response w) /\
    skipn 150 (response w') = skipn 150 (response w) /\
    rx_pos w < rx_pos w' <= rx_pos w + 150.
Proof.
  intros Hl. unfold readline. run.
  destruct (readline_loop_bounded 150 0 (set_response_pos 0 w))
    as (w' & R & F & L & S' & P); fields; try lia.
  rewrite R. exists w'. unfold but_line in *. fields.
  repeat split; try assumption; lia.
Qed.

Lemma readsmstxt_bounded (w : world) :
  150 <= length (smstext w) ->
  exists w',
    readsmstxt w = Ret 1 w' /\
    but_smstext w' = but_smstext w /\
    length (smstext w') = length (smstext w) /\
    skipn 150 (smstext w') = skipn 150 (smstext w) /\
    rx_pos w < rx_pos w' <= rx_pos w + 150.
Proof.
  intros Hl. unfold readsmstxt. run.
  destruct (readsmstxt_loop_bounded 150 0 (set_smstext_pos 0 w))
    as (w' & R & F & L & S' & P); fields; try lia.
  rewrite R. exists w'. unfold but_smstext in *. fields.
  repeat split; try assumption; lia.
Qed.

(** C3.  Whatever bytes arrive and however many, [readline] and its sibling
    [readsmstxt] return normally on a buffer of [BUFFER_SIZE] cells: no
    store falls outside the array.  Only the buffer, its cursor and the
    read position of the UART change, the buffer keeps its size, the cells
    from index 150 on keep their contents, and at most 150 bytes are
    taken from the line; what arrives after them is not this call's. *)
Theorem line_readers_stay_in_bounds (w : world) :
  length (response w) = BUFFER_SIZE ->
  length (smstext w) = BUFFER_SIZE ->
  (exists w',
     readline w = Ret 1 w' /\
     but_line w' = but_line w /\
     length (response w') = BUFFER_SIZE /\
     skipn 150 (response w') = skipn 150 (response w) /\
     rx_pos w < rx_pos w' <= rx_pos w + 150) /\
  (exists w',
     readsmstxt w = Ret 1 w' /\
     but_smstext w' = but_smstext w /\
     length (smstext w') = BUFFER_SIZE /\
     skipn 150 (smstext w') = skipn 150 (smstext w) /\
     rx_pos w < rx_pos w' <= rx_pos w + 150).
Proof.
  unfold BUFFER_SIZE. intros Hr Hs. split.
  - destruct (readline_bounded w) as (w' & R & F & L & S' & P); [lia|].
    exists w'. rewrite L. auto.
  - destruct (readsmstxt_bounded w) as (w' & R & F & L & S' & P); [lia|].
    exists w'. rewrite L. auto.
Qed.

(** The theorem at the initial state, on a line that only sends the
    letter x: 150 bytes are taken and cells 150..169 are untouched. *)
Lemma line_readers_stay_in_bounds_witness :
  let w := boot (fun _ => "x"%char) in
  (exists w',
     readline w = Ret 1 w' /\
     but_line w' = but_line w /\
     length (response w') = BUFFER_SIZE /\
     skipn 150 (response w') = skipn 150 (response w) /\
     rx_pos w < rx_pos w' <= rx_pos w + 150) /\
  (exists w',
     readsmstxt w = Ret 1 w' /\
     but_smstext w' = but_smstext w /\
     length (smstext w') = BUFFER_SIZE /\
     skipn 150 (smstext w') = skipn 150 (smstext w) /\
     rx_pos w < rx_pos w' <= rx_pos w + 150).
Proof.
  apply (line_readers_stay_in_bounds (boot (fun _ => "x"%char)));
    reflexivity.
Defined.

(** ** The response matcher *)

(** What one comparison run establishes: [scan] advances [j] by the
    number of cells that agree, never beyond the end of the token. *)
Lemma scan_agrees (l s : list byte) (j : nat) :
  exists m,
    scan l s j = j + m /\ m <= strlen s /\
    firstn m l = firstn m (cstr s).
Proof.
  revert s j. induction l as [|c l IH]; intros s j.
  - exists 0. cbn. repeat split; lia.
  - destruct s as [|d s].
    + exists 0. cbn. repeat split; lia.
    + cbn [scan]. unfold strlen. cbn [cstr].
      destruct (is_nul c) eqn:Ec; cbn [orb].
      * exists 0. cbn. repeat split; lia.
      * destruct (is_nul d) eqn:Ed.
        -- exists 0. cbn. repeat split; lia.
        -- destruct (Ascii.eqb c d) eqn:E.
           ++ apply Ascii.eqb_eq in E. subst d.
              destruct (IH s (S j)) as (m & Hs & Hm & Hp).
              exists (S m). cbn [length firstn]. unfold strlen in Hm.
              rewrite Hs, Hp. repeat split; lia.
           ++ exists 0. cbn. repeat split; lia.
Qed.

Lemma search_hit (n i j : nat) (str sub : array) :
  search n i j str sub = 1 ->
  exists i', i <= i' < i + n /\ scan (skipn i' str) sub 0 = strlen sub.
Proof.
  revert i j. induction n as [|n IH]; intros i j; cbn [search].
  - discriminate.
  - destruct (Ascii.eqb (load str i) (load sub j)).
    + destruct (scan (skipn i str) sub 0 =? strlen sub) eqn:E.
      * intros _. apply Nat.eqb_eq in E. exists i. split; [lia|exact E].
      * intros H. destruct (IH _ _ H) as (i' & Hi & Hs).
        exists i'. split; [lia|exact Hs].
    + intros H. destruct (IH _ _ H) as (i' & Hi & Hs).
      exists i'. split; [lia|exact Hs].
Qed.

(** The matcher never reports a token that is not there: when it answers
    1, the token stands in [str] at some index below [buffersize]. *)
Lemma is_in_rx_buffer_sound (str sub : array) (buffersize : nat) :
  is_in_rx_buffer str sub buffersize = 1 ->
  exists i, i < buffersize /\
    firstn (strlen sub) (skipn i str) = cstr sub /\
    occurs (cstr sub) str.
Proof.
  intros H. apply search_hit in H. destruct H as (i & Hi & Hs).
  destruct (scan_agrees (skipn i str) sub 0) as (m & Hm & _ & Hp).
  assert (m = strlen sub) by lia. subst m.
  unfold strlen in *. rewrite (firstn_all (cstr sub)) in Hp.
  exists i. split; [lia|]. split; [exact Hp|].
  exists (firstn i str), (skipn (length (cstr sub)) (skipn i str)).
  rewrite <- Hp at 1. now rewrite !firstn_skipn.
Qed.

Lemma search_01 (n i j : nat) (str sub : array) :
  search n i j str sub = 0 \/ search n i j str sub = 1.
Proof.
  revert i j. induction n as [|n IH]; intros i j; cbn [search]; auto.
  destruct (Ascii.eqb _ _); auto.
  destruct (_ =? _); auto.
Qed.

(** C1.  The matcher misses tokens that are there.  The cells
    [PLEASE SINGLE] contain [SINGLE], and [aab] contains [ab], yet
    [is_in_rx_buffer] answers 0 on both: after the partial match at the
    first [S] (or [a]) the index [j] stays at 1, so the next candidate
    start is compared with the second character of the token. *)
Theorem is_in_rx_buffer_misses_token :
  occurs (cstr ISSINGLE) (cstr (holding "PLEASE SINGLE" digits170)) /\
  length (holding "PLEASE SINGLE" digits170) = BUFFER_SIZE /\
  is_in_rx_buffer (holding "PLEASE SINGLE" digits170) ISSINGLE BUFFER_SIZE
    = 0 /\
  occurs (cstr (lit "ab")) (cstr (lit "aab")) /\
  is_in_rx_buffer (lit "aab") (lit "ab") 4 = 0.
Proof.
  repeat split.
  - exists (list_ascii_of_string "PLEASE "), []. reflexivity.
  - exists (list_ascii_of_string "a"), []. reflexivity.
Qed.

(** ** The sender number *)

(** C2.  A sender number of 20 characters is neither cut nor refused: the
    copying loop of [readsmsphonenumber] stores its closing quote in
    [phonenumber[20]], one cell past the array, before ACTIVATE is even
    looked at.  With 19 characters the number, then a terminator, is what
    ACTIVATE writes to the EEPROM. *)
Theorem sender_number_overruns_phonenumber :
  String.length "+4812345678901234567" = 20 /\
  on_line 1 (Flags 1 0) (sms_arrives "+4812345678901234567" "ACTIVATE")
    = OutOfBounds "phonenumber" 20 /\
  String.length "+481234567890123456" = 19 /\
  exists w',
    on_line 1 (Flags 1 0) (sms_arrives "+481234567890123456" "ACTIVATE")
      = Ret (Flags 0 1) w' /\
    length (eeprom w') = 20 /\
    cstr (eeprom w') = list_ascii_of_string "+481234567890123456".
Proof.
  split; [reflexivity|]. split; [vm_compute; reflexivity|].
  split; [reflexivity|].
  eexists. split; [vm_compute; reflexivity|].
  split; vm_compute; reflexivity.
Qed.

(** ** What the line reader leaves alone, on any buffer *)

Lemma readline_loop_frame (fuel i : nat) (w w' : world) :
  readline_loop fuel i w = Ret tt w' -> but_line w' = but_line w.
Proof.
  revert i w. induction fuel as [|fuel IH]; intros i w H.
  - discriminate.
  - cbn [readline_loop] in H. run.
    destruct (is_eol (rx w (rx_pos w))); cbn [negb andb] in H.
    + run. fields.
      destruct (0 <? response_pos w); run; fields.
      * destruct (store _ _ _); [|discriminate].
        cbn [Nat.eqb andb] in H. injection H as <-. reflexivity.
      * cbn [Nat.eqb andb] in H.
        destruct (u8 (i + 1) <? 150).
        -- apply IH in H. exact H.
        -- injection H as <-. reflexivity.
    + destruct (i <? 150); run; fields.
      * destruct (store _ _ _); [|discriminate].
        cbn [Nat.eqb andb] in H.
        destruct (u8 (i + 1) <? 150).
        -- apply IH in H. exact H.
        -- injection H as <-. reflexivity.
      * cbn [Nat.eqb andb] in H.
        destruct (u8 (i + 1) <? 150).
        -- apply IH in H. exact H.
        -- injection H as <-. reflexivity.
Qed.

(** [readline] has one return value, and changes nothing but its buffer,
    its cursor and the read position. *)
Lemma readline_frame (w w' : world) (r : nat) :
  readline w = Ret r w' -> r = 1 /\ but_line w' = but_line w.
Proof.
  unfold readline. run.
  destruct (readline_loop 150 0 (set_response_pos 0 w)) as [[] w1| |] eqn:E;
    try discriminate.
  intros [= <- <-]. split; [reflexivity|].
  apply readline_loop_frame in E. exact E.
Qed.

(** ** GPS polling: one check in guard mode, twenty otherwise *)

Lemma probes_snoc (t : list event) (e : event) :
  probes (t ++ [e]) = probes t + (if is_probe e then 1 else 0).
Proof.
  unfold probes. rewrite filter_app, length_app. cbn [filter].
  now destruct (is_probe e).
Qed.

(** Counting the queries among events appended to a trace. *)
Ltac count_probes :=
  rewrite ?probes_snoc; cbn [is_probe];
  repeat match goal with
  | |- context [same_bytes ?a ?b] =>
      let v := eval vm_compute in (same_bytes a b) in
      change (same_bytes a b) with v
  end;
  cbv iota; lia.

Lemma load_token_frame (tok : array) (w w' : world) :
  load_token tok w = Ret tt w' ->
  w' = set_buf (buf w') w.
Proof.
  unfold load_token, memcpy. destruct (_ <=? _); [|discriminate].
  now intros [= <-].
Qed.

(** A check changes neither the mode nor the stream, and sends exactly
    one query. *)
Lemma fix_check_frame (w w1 : world) (b : bool) :
  fix_check w = Ret b w1 ->
  continousgps w1 = continousgps w /\
  probes (trace w1) = probes (trace w) + 1.
Proof.
  unfold fix_check. run. fields.
  destruct (continousgps w =? 255); cbn [negb]; run; fields.
  - destruct (readline _) as [r w2| |] eqn:R; try discriminate.
    apply readline_frame in R. destruct R as [-> F].
    destruct (load_token _ w2) as [[] w3| |] eqn:T; try discriminate.
    apply load_token_frame in T. unfold found_in. intros [= <- <-].
    rewrite T. fields.
    apply (f_equal continousgps) in F as Fc.
    apply (f_equal trace) in F as Ft.
    unfold but_line in *. fields. rewrite Fc, Ft.
    split; [reflexivity | count_probes].
  - destruct (readline _) as [r w2| |] eqn:R; try discriminate.
    apply readline_frame in R. destruct R as [-> F].
    destruct (load_token _ w2) as [[] w3| |] eqn:T; try discriminate.
    apply load_token_frame in T. unfold found_in. intros [= <- <-].
    rewrite T. fields.
    apply (f_equal continousgps) in F as Fc.
    apply (f_equal trace) in F as Ft.
    unfold but_line in *. fields. rewrite Fc, Ft.
    split; [reflexivity | count_probes].
Qed.

Lemma failed_checks_frame (n : nat) (w w' : world) :
  failed_checks n w w' ->
  continousgps w' = continousgps w /\
  probes (trace w') = probes (trace w) + n.
Proof.
  induction 1 as [w|n w w1 w2 H _ [IHc IHp]].
  - split; lia.
  - apply fix_check_frame in H. destruct H as [Hc Hp].
    split; [congruence | lia].
Qed.

(** One pass of the polling loop, in terms of the check it makes. *)
Lemma readgpsinfo_loop_pass (fuel a : nat) (w : world) :
  readgpsinfo_loop (S fuel) a w =
  match fix_check w with
  | Ret gpsfixed w1 =>
      if negb gpsfixed && (continousgps w1 =? 255) then Ret (inl 0) w1
      else if gpsfixed then bind take_fix (fun v => ret (inl v)) w1
      else if u8 (a + 1) <? 20 then readgpsinfo_loop fuel (u8 (a + 1)) w1
      else Ret (inr tt) w1
  | OutOfBounds arr i => OutOfBounds arr i
  | NoFuel => NoFuel
  end.
Proof.
  cbn [readgpsinfo_loop]. unfold fix_check, take_fix. run. fields.
  destruct (continousgps w =? 255); cbn [negb]; run; fields;
    (destruct (readline _) as [r w2| |] eqn:R; try reflexivity;
     apply readline_frame in R; destruct R as [-> _];
     change (0 <? 1) with true; run;
     destruct (load_token _ w2) as [[] w3| |]; try reflexivity; run;
     unfold found_in; run;
     destruct (_ =? 1); cbn [negb andb]; run;
     [ destruct (memcpy _ _ _ _ _ w3) as [[] w4| |]; try reflexivity; run;
       destruct (memcpy _ _ _ _ _ w4) as [[] w5| |]; try reflexivity; run;
       destruct (readSIM7000gps w5) as [x w6| |]; try reflexivity; run;
       fields; destruct (continousgps w6 =? 1); reflexivity
     | destruct (continousgps w3 =? 255); [reflexivity|];
       destruct (u8 (a + 1) <? 20); reflexivity ]).
Qed.

(** After a fix the routine returns 1 or does not return at all. *)
Lemma take_fix_returns_1 (w w' : world) (v : nat) :
  take_fix w = Ret v w' -> v = 1.
Proof.
  unfold take_fix. run.
  destruct (memcpy _ _ _ _ _ w) as [[] w4| |]; try discriminate.
  destruct (memcpy _ _ _ _ _ w4) as [[] w5| |]; try discriminate.
  destruct (readSIM7000gps w5) as [x w6| |]; try discriminate.
  fields. destruct (continousgps w6 =? 1); now intros [= <- _].
Qed.

Lemma powered_frame (w : world) :
  continousgps (powered w) = continousgps w /\
  probes (trace (powered w)) = probes (trace w).
Proof.
  unfold powered.
  destruct ((continousgps w =? 1) || (continousgps w =? 5));
    cbn [emits fold_left]; fields; (split; [reflexivity | count_probes]).
Qed.

(** Outside guard mode, [k] failed checks that use up the attempts take
    the loop to its exit. *)
Lemma retry_loop_exhausts (k : nat) (w w' : world) :
  failed_checks k w w' ->
  forall fuel a,
    continousgps w <> 255 -> 1 <= k <= fuel -> a + k = 20 ->
    readgpsinfo_loop fuel a w = Ret (inr tt) w'.
Proof.
  induction 1 as [w|n w w1 w2 H Hrest IH]; intros fuel a Hc Hk Ha.
  - lia.
  - destruct fuel as [|fuel]; [lia|].
    rewrite readgpsinfo_loop_pass, H.
    destruct (fix_check_frame _ _ _ H) as [Hc1 _].
    assert (E : (continousgps w1 =? 255) = false).
    { apply Nat.eqb_neq. congruence. }
    rewrite E. cbn [negb andb]. rewrite u8_small by lia.
    destruct n as [|n].
    + inversion Hrest; subst.
      assert (E2 : (a + 1 <? 20) = false) by (apply Nat.ltb_ge; lia).
      now rewrite E2.
    + assert (E2 : (a + 1 <? 20) = true) by (apply Nat.ltb_lt; lia).
      rewrite E2. apply IH; [congruence | lia | lia].
Qed.

(** However the loop ends, it ends in one of three ways: with a fix, in
    guard mode after one failed check, or otherwise after as many failed
    checks as there were attempts left. *)
Lemma polling_loop_ends (fuel a : nat) (w w' : world) (r : nat + unit) :
  readgpsinfo_loop fuel a w = Ret r w' -> a < 20 ->
  r = inl 1 \/
  (r = inl 0 /\ continousgps w = 255 /\ failed_checks 1 w w') \/
  (r = inr tt /\ continousgps w <> 255 /\ failed_checks (20 - a) w w').
Proof.
  revert a w. induction fuel as [|fuel IH]; intros a w H Ha.
  - discriminate.
  - rewrite readgpsinfo_loop_pass in H.
    destruct (fix_check w) as [b w1| |] eqn:F; try discriminate.
    destruct (fix_check_frame _ _ _ F) as [Hc1 _].
    destruct b; cbn [negb andb] in H.
    + left. unfold bind in H.
      destruct (take_fix w1) as [v w2| |] eqn:T; try discriminate.
      apply take_fix_returns_1 in T. subst v. now injection H as <- _.
    + destruct (continousgps w1 =? 255) eqn:E.
      * injection H as <- <-. right. left.
        apply Nat.eqb_eq in E. repeat split; [congruence|].
        econstructor; [exact F | constructor].
      * apply Nat.eqb_neq in E. rewrite u8_small in H by lia.
        destruct (a + 1 <? 20) eqn:E2.
        -- apply Nat.ltb_lt in E2.
           destruct (IH _ _ H) as [-> | [(_ & C & _) | (-> & C & Hf)]];
             [lia | now left | congruence | ].
           right. right. repeat split; [congruence|].
           replace (20 - a) with (S (20 - (a + 1))) by lia.
           econstructor; eassumption.
        -- apply Nat.ltb_ge in E2. injection H as <- <-.
           right. right. repeat split; [congruence|].
           replace (20 - a) with 1 by lia.
           econstructor; [exact F | constructor].
Qed.

(** [readgpsinfo] in terms of its polling loop. *)
Lemma readgpsinfo_unfold (w : world) :
  readgpsinfo w =
  match readgpsinfo_loop 20 0 (powered w) with
  | Ret (inl v) w1 => Ret v w1
  | Ret (inr _) w1 =>
      Ret 0
        (if continousgps w1 =? 1
         then emits [Delay 2; Tx (cstr GPSPWROFF); Delay 1] w1
         else emits [Delay 2] w1)
  | OutOfBounds arr i => OutOfBounds arr i
  | NoFuel => NoFuel
  end.
Proof.
  unfold readgpsinfo, readgpsinfo_fuel, powered. run. fields.
  destruct ((continousgps w =? 1) || (continousgps w =? 5)); run; fields;
    cbn [emits fold_left];
    (destruct (readgpsinfo_loop 20 0 _) as [[v|[]] w1| |]; try reflexivity;
     run; fields; destruct (continousgps w1 =? 1); reflexivity).
Qed.

(** C4.  [readgpsinfo] returns failure exactly when the first
    [patience] fix-status checks, made from the state in which the
    polling loop starts, all fail to report a fix, and it has then sent
    exactly [patience] status queries: one in guard mode
    ([continousgps = 255]), twenty in every other mode. *)
Theorem readgpsinfo_gives_up_after_patience (w : world) :
  patience 255 = 1 /\
  (continousgps w <> 255 -> patience (continousgps w) = 20) /\
  ((exists wn, failed_checks (patience (continousgps w)) (powered w) wn)
   <-> (exists w', readgpsinfo w = Ret 0 w')) /\
  (forall w', readgpsinfo w = Ret 0 w' ->
     probes (trace w') = probes (trace w) + patience (continousgps w)).
Proof.
  destruct (powered_frame w) as [Pc Pp].
  assert (Pat : continousgps w <> 255 -> patience (continousgps w) = 20).
  { intros C. unfold patience. apply Nat.eqb_neq in C. now rewrite C. }
  split; [reflexivity|]. split; [exact Pat|].
  assert (Back : forall w', readgpsinfo w = Ret 0 w' ->
    exists wn, failed_checks (patience (continousgps w)) (powered w) wn /\
      probes (trace w') = probes (trace wn)).
  { intros w' H. rewrite readgpsinfo_unfold in H.
    destruct (readgpsinfo_loop 20 0 (powered w)) as [r w1| |] eqn:L;
      try discriminate.
    apply polling_loop_ends in L; [|lia].
    destruct L as [-> | [(-> & C & Hf) | (-> & C & Hf)]].
    - discriminate.
    - injection H as <-. exists w1. rewrite Pc in C. rewrite C.
      split; [exact Hf | reflexivity].
    - exists w1. rewrite Pc in C. rewrite (Pat C).
      split; [exact Hf|]. injection H as <-.
      destruct (continousgps w1 =? 1); cbn [emits fold_left]; fields;
        count_probes. }
  split; [split|].
  - intros [wn Hf]. rewrite readgpsinfo_unfold.
    destruct (Nat.eq_dec (continousgps w) 255) as [C|C].
    + rewrite C in Hf. cbn in Hf. inversion Hf as [|n w0 w1 w2 F R]; subst.
      inversion R; subst.
      rewrite readgpsinfo_loop_pass, F.
      destruct (fix_check_frame _ _ _ F) as [Hc1 _].
      rewrite Hc1, Pc, C. cbn. eauto.
    + rewrite (Pat C) in Hf.
      rewrite (retry_loop_exhausts 20 _ _ Hf 20 0); [eauto | | lia | lia].
      congruence.
  - intros [w' H]. destruct (Back w' H) as (wn & Hf & _). eauto.
  - intros w' H. destruct (Back w' H) as (wn & Hf & ->).
    apply failed_checks_frame in Hf. destruct Hf as [_ Hp]. lia.
Qed.

(** ** Guard mode: when an alert is sent *)

(** *** IEEE 754: a string of zero digits reads as zero *)

Lemma is_nul_true (c : byte) : is_nul c = true -> c = NUL.
Proof. unfold is_nul. apply Ascii.eqb_eq. Qed.

Lemma read_digits_zeros (a : array) (k : nat) :
  zero_digits a ->
  exists k' rest,
    read_digits a 0 k = (0%Z, k', rest) /\
    (rest = [] \/ exists r, rest = NUL :: r).
Proof.
  unfold zero_digits. revert k. induction a as [|c a IH]; intros k Hz.
  - exists k, []. split; [reflexivity | now left].
  - cbn [cstr] in Hz. cbn [read_digits].
    destruct (is_nul c) eqn:Ec.
    + apply is_nul_true in Ec. subst c.
      exists k, (NUL :: a). split; [reflexivity | right; eauto].
    + inversion Hz as [|c' l Hc Hl]; subst.
      change (digit_of "0"%char) with (Some 0%Z). cbv iota.
      change (10 * 0 + 0)%Z with 0%Z. apply IH. exact Hl.
Qed.

Lemma atof_ieee_zero_digits (prec emax : Z) (a : array) :
  zero_digits a -> atof_ieee prec emax a = S754_zero false.
Proof.
  intros Hz. unfold atof_ieee.
  assert (U : read_signed prec emax false a = S754_zero false).
  { unfold read_signed, read_decimal.
    destruct (read_digits_zeros a 0 Hz) as (k' & rest & -> & [-> | [r ->]]);
      cbn [read_exponent]; [|change (Ascii.eqb NUL "."%char) with false;
        change (Ascii.eqb NUL "e"%char || Ascii.eqb NUL "E"%char)
          with false; cbv iota];
      destruct (k' =? 0); reflexivity. }
  destruct a as [|c a]; [reflexivity|].
  assert (Hc : c = NUL \/ c = "0"%char).
  { unfold zero_digits in Hz. cbn [cstr] in Hz.
    destruct (is_nul c) eqn:Ec.
    - left. now apply is_nul_true.
    - right. now inversion Hz. }
  destruct Hc as [-> | ->]; cbn [skip_spaces];
    [change (isspace NUL) with false
    |change (isspace "0"%char) with false];
    cbv iota;
    [change (Ascii.eqb NUL "-"%char) with false;
     change (Ascii.eqb NUL "+"%char) with false
    |change (Ascii.eqb "0"%char "-"%char) with false;
     change (Ascii.eqb "0"%char "+"%char) with false];
    cbv iota; exact U.
Qed.

Lemma ieee_reads_zero_digits_as_zero (prec emax : Z) (a : array) :
  zero_digits a -> @d_neqb (ieee prec emax) (atof a) d_zero = false.
Proof.
  intros H. cbn [d_neqb atof d_zero ieee].
  now rewrite (atof_ieee_zero_digits prec emax a H).
Qed.

(** *** The alert branch *)


(** With a stored coordinate that reads as zero the comparison is not
    made. *)
Lemma zero_coordinate_skips_comparison_general {fp : libm}
    (gpsdataavailable : nat) (w : world) :
  d_neqb (atof (latitudegpsold w)) d_zero = false \/
  d_neqb (atof (longtitudegpsold w)) d_zero = false ->
  guard_check gpsdataavailable w = Ret tt w.
Proof.
  intros H. unfold guard_check. run. fields.
  destruct H as [-> | ->]; rewrite ?andb_false_r; reflexivity.
Qed.

(** C10.  Whatever the library, when the stored previous latitude or the
    stored previous longitude reads as zero, the guard-mode comparison is
    not made: [guard_check] returns with the state as it was, so nothing
    is sent and the mode is unchanged.  One zero coordinate is enough. *)
Theorem zero_coordinate_skips_comparison {fp : libm}
    (gpsdataavailable : nat) (w : world) :
  d_neqb (atof (latitudegpsold w)) d_zero = false \/
  d_neqb (atof (longtitudegpsold w)) d_zero = false ->
  guard_check gpsdataavailable w = Ret tt w.
Proof. apply zero_coordinate_skips_comparison_general. Qed.

(** A fix on the equator, 21 degrees east, is not the seeded value, the
    next fix lies 0.003 degrees further north, and still the comparison
    is skipped; likewise on the prime meridian. *)
Lemma zero_coordinate_skips_comparison_witness :
  (cstr (longtitudegpsold (guarding "0.000000" "21.000000" "0.003000"
                             "21.000000"))
     = list_ascii_of_string "21.000000" /\
   moved (guarding "0.000000" "21.000000" "0.003000" "21.000000") /\
   @guard_check binary64 1
     (guarding "0.000000" "21.000000" "0.003000" "21.000000")
   = Ret tt (guarding "0.000000" "21.000000" "0.003000" "21.000000")) /\
  (cstr (latitudegpsold (guarding "52.000000" "0.000000" "52.000000"
                           "0.003000"))
     = list_ascii_of_string "52.000000" /\
   moved (guarding "52.000000" "0.000000" "52.000000" "0.003000") /\
   @guard_check binary64 1
     (guarding "52.000000" "0.000000" "52.000000" "0.003000")
   = Ret tt (guarding "52.000000" "0.000000" "52.000000" "0.003000")).
Proof.
  split; (split; [reflexivity|]; split).
  - left. vm_compute. reflexivity.
  - apply (@zero_coordinate_skips_comparison binary64 1
             (guarding "0.000000" "21.000000" "0.003000" "21.000000")).
    left. vm_compute. reflexivity.
  - right. vm_compute. reflexivity.
  - apply (@zero_coordinate_skips_comparison binary64 1
             (guarding "52.000000" "0.000000" "52.000000" "0.003000")).
    right. vm_compute. reflexivity.
Defined.

(** *** Remembering the position *)

Lemma map_load_firstn (a : array) (n : nat) :
  n <= length a -> map (load a) (seq 0 n) = firstn n a.
Proof.
  revert n. induction a as [|c a IH]; intros n Hn.
  - cbn in Hn. now replace n with 0 by lia.
  - destruct n as [|n]; [reflexivity|].
    cbn [seq map firstn]. f_equal.
    rewrite <- seq_shift, map_map. cbn in Hn.
    rewrite <- (IH n) by lia. reflexivity.
Qed.

Lemma upd_splice (a b : array) (n : nat) (c : byte) :
  n <= length a -> n < length b ->
  upd (firstn n a ++ skipn n b) n c = firstn n a ++ c :: skipn (S n) b.
Proof.
  intros Ha Hb. unfold upd.
  assert (L : length (firstn n a) = n) by (rewrite length_firstn; lia).
  rewrite firstn_app, L, Nat.sub_diag, firstn_O, app_nil_r.
  rewrite firstn_firstn, Nat.min_id.
  rewrite skipn_app, L.
  rewrite (skipn_all2 (firstn n a)) by lia.
  replace (S n - n) with 1 by lia.
  rewrite skipn_skipn. reflexivity.
Qed.

Lemma length_splice (a b : array) (n : nat) :
  n <= length a -> n <= length b ->
  length (firstn n a ++ skipn n b) = length b.
Proof.
  intros Ha Hb. rewrite length_app, length_firstn, length_skipn. lia.
Qed.

(** The stored position after [remember_position]: the first 10 (11)
    cells of the current latitude (longitude), then a terminator. *)
Lemma remember_position_runs (w : world) :
  length (latitudegps w) = 20 -> length (longtitudegps w) = 20 ->
  length (latitudegpsold w) = 20 -> length (longtitudegpsold w) = 20 ->
  remember_position w =
  Ret tt
    (set_latitudegpsold
       (firstn 10 (latitudegps w) ++ NUL :: skipn 11 (latitudegpsold w))
       (set_longtitudegpsold
          (firstn 11 (longtitudegps w)
             ++ NUL :: skipn 12 (longtitudegpsold w)) w)).
Proof.
  destruct w. cbn [latitudegps longtitudegps latitudegpsold
                   longtitudegpsold].
  intros H1 H2 H3 H4. unfold remember_position, memcpy. crunch.
  rewrite H3. change (10 <=? 20) with true. crunch.
  rewrite H4. change (11 <=? 20) with true. crunch.
  rewrite !map_load_firstn by lia.
  rewrite store_some by (rewrite length_splice; lia). crunch.
  rewrite store_some by (rewrite length_splice; lia). crunch.
  rewrite !upd_splice by lia. reflexivity.
Qed.

(** C6.  While both stored coordinates are strings of zero digits, as
    seeded at start-up, [guard_check] sends nothing and leaves the state
    as it is, whatever fix was just read; the step then only records the
    new fix as the stored one.  This holds with any library whose [atof]
    reads a string of zero digits as zero. *)
Theorem sentinel_never_alerts {fp : libm} (gpsdataavailable : nat)
    (w : world) :
  (forall a, zero_digits a -> d_neqb (atof a) d_zero = false) ->
  zero_digits (latitudegpsold w) ->
  zero_digits (longtitudegpsold w) ->
  length (latitudegps w) = 20 -> length (longtitudegps w) = 20 ->
  length (latitudegpsold w) = 20 -> length (longtitudegpsold w) = 20 ->
  guard_check gpsdataavailable w = Ret tt w /\
  exists w',
    guard_step gpsdataavailable w = Ret tt w' /\
    trace w' = trace w /\
    continousgps w' = continousgps w /\
    latitudegpsold w' =
      firstn 10 (latitudegps w) ++ NUL :: skipn 11 (latitudegpsold w) /\
    longtitudegpsold w' =
      firstn 11 (longtitudegps w) ++ NUL :: skipn 12 (longtitudegpsold w).
Proof.
  intros Hlib Hla Hlo L1 L2 L3 L4.
  assert (G : guard_check gpsdataavailable w = Ret tt w).
  { apply zero_coordinate_skips_comparison_general. left. now apply Hlib. }
  split; [exact G|].
  eexists. split.
  - unfold guard_step. rewrite (bind_ret _ _ _ _ _ G).
    now apply remember_position_runs.
  - fields. repeat split; reflexivity.
Qed.

Lemma sentinel_never_alerts_witness :
  (forall a, zero_digits a -> @d_neqb binary64 (atof a) d_zero = false) /\
  zero_digits (latitudegpsold first_guard_pass) /\
  zero_digits (longtitudegpsold first_guard_pass) /\
  @guard_check binary64 1 first_guard_pass = Ret tt first_guard_pass /\
  exists w',
    @guard_step binary64 1 first_guard_pass = Ret tt w' /\
    trace w' = trace first_guard_pass /\
    continousgps w' = 255 /\
    cstr (latitudegpsold w') = list_ascii_of_string "52.003000" /\
    cstr (longtitudegpsold w') = list_ascii_of_string "21.000000".
Proof.
  assert (Lib : forall a, zero_digits a ->
                  @d_neqb binary64 (atof a) d_zero = false).
  { intros a H. now apply ieee_reads_zero_digits_as_zero. }
  assert (Z : zero_digits seeded) by (repeat constructor).
  split; [exact Lib|]. split; [exact Z|]. split; [exact Z|].
  destruct (@sentinel_never_alerts binary64 1 first_guard_pass Lib Z Z
              eq_refl eq_refl eq_refl eq_refl)
    as (G & w' & S & T & C & La & Lo).
  split; [exact G|].
  exists w'. rewrite La, Lo. repeat split; assumption || reflexivity.
Defined.

(** *** The threshold *)




(** ** What the line reader stores *)

Lemma firstn_upd (r : array) (p : nat) (c : byte) :
  p < length r -> firstn (S p) (upd r p c) = firstn p r ++ [c].
Proof.
  intros H. unfold upd.
  assert (L : length (firstn p r) = p) by (rewrite length_firstn; lia).
  rewrite firstn_app, L. replace (S p - p) with 1 by lia.
  rewrite firstn_all2 by lia. reflexivity.
Qed.

Lemma place_step (r : array) (p : nat) (c : byte) (l : list byte) :
  p < length r -> place (upd r p c) (S p) l = place r p (c :: l).
Proof.
  intros H. unfold place. rewrite firstn_upd by assumption.
  rewrite skipn_upd by lia. rewrite <- app_assoc. cbn [app length].
  replace (S p + S (length l)) with (p + S (S (length l))) by lia.
  reflexivity.
Qed.

Lemma place_nil (r : array) (p : nat) :
  place r p [] = upd r p NUL.
Proof.
  unfold place, upd. cbn [app length].
  replace (p + 1) with (S p) by lia. reflexivity.
Qed.

(** The loop on a line: the bytes of [l], none of them a terminator,
    then a terminator. *)
Lemma readline_loop_line (l : list byte) :
  forall (fuel i : nat) (w : world),
    Forall (fun c => is_eol c = false) l ->
    incoming w l ->
    is_eol (rx w (rx_pos w + length l)) = true ->
    0 < response_pos w + length l ->
    i + length l < 150 -> length l < fuel ->
    response_pos w + length l < length (response w) ->
    response_pos w + length l < 256 ->
    readline_loop fuel i w =
    Ret tt
      (set_response (place (response w) (response_pos w) l)
         (set_response_pos 0 (set_rx_pos (rx_pos w + S (length l)) w))).
Proof.
  induction l as [|c l IH]; intros fuel i w Hl Hin Heol Hpos Hi Hf Hr H8;
    (destruct fuel as [|fuel]; [cbn in Hf; lia|]);
    unfold incoming in *; cbn [length] in *; cbn [readline_loop]; run.
  - rewrite Nat.add_0_r in Heol. rewrite Heol. cbn [negb andb]. run. fields.
    assert (E : (0 <? response_pos w) = true) by (apply Nat.ltb_lt; lia).
    rewrite E. run. fields. rewrite store_some by lia.
    rewrite place_nil. cbn [Nat.eqb andb].
    replace (rx_pos w + 1) with (S (rx_pos w)) by lia. reflexivity.
  - assert (Hc : is_eol (rx w (rx_pos w)) = false).
    { specialize (Hin 0 ltac:(lia)). rewrite Nat.add_0_r in Hin.
      cbn [nth] in Hin. rewrite Hin. now inversion Hl. }
    rewrite Hc. cbn [negb andb].
    assert (E : (i <? 150) = true) by (apply Nat.ltb_lt; lia).
    rewrite E. run. fields. rewrite store_some by lia. run. fields.
    cbn [Nat.eqb andb]. rewrite !u8_small by lia.
    assert (E2 : (i + 1 <? 150) = true) by (apply Nat.ltb_lt; lia).
    rewrite E2.
    replace (response_pos w + 1) with (S (response_pos w)) by lia.
    assert (Hc0 : rx w (rx_pos w) = c).
    { specialize (Hin 0 ltac:(lia)). rewrite Nat.add_0_r in Hin.
      exact Hin. }
    rewrite Hc0.
    rewrite IH; fields; try (rewrite length_upd by lia); try lia.
    + rewrite place_step by lia.
      replace (S (rx_pos w) + S (length l))
        with (rx_pos w + S (S (length l))) by lia.
      reflexivity.
    + now inversion Hl.
    + intros k Hk. specialize (Hin (S k) ltac:(lia)). cbn [nth] in Hin.
      rewrite <- Hin. f_equal. lia.
    + rewrite <- Heol. f_equal. f_equal. lia.
Qed.

(** [readline] on a line of at most 149 bytes that starts at once. *)
Lemma readline_line (l : list byte) (w : world) :
  Forall (fun c => is_eol c = false) l ->
  incoming w l ->
  is_eol (rx w (rx_pos w + length l)) = true ->
  0 < length l < 150 ->
  length l < length (response w) ->
  readline w =
  Ret 1
    (set_response (l ++ NUL :: skipn (S (length l)) (response w))
       (set_response_pos 0 (set_rx_pos (rx_pos w + S (length l)) w))).
Proof.
  intros Hl Hin Heol Hn Hr. unfold readline. run.
  rewrite (readline_loop_line l); fields; try lia; try assumption.
  reflexivity.
Qed.

(** ** The probe loop and the echo *)

Lemma checkat_loop_pass (fuel : nat) (w : world) :
  checkat_loop (S fuel) w =
  match probe_once w with
  | Ret initialized2 w' =>
      if initialized2 =? 0 then checkat_loop fuel w' else Ret tt w'
  | OutOfBounds arr i => OutOfBounds arr i
  | NoFuel => NoFuel
  end.
Proof.
  cbn [checkat_loop]. unfold probe_once. run.
  destruct (readline _) as [r w1| |]; try reflexivity.
  destruct (0 <? r); run;
    (destruct (load_token _ w1) as [[] w2| |]; try reflexivity; run;
     unfold found_in; run; destruct (flag _ =? 0); reflexivity).
Qed.

Lemma echo_only_at (m k : nat) :
  k < 3 -> echo_only (3 * m + k) = nth k ["A"%char; "T"%char; CR] NUL.
Proof.
  intros H. unfold echo_only.
  rewrite (Nat.mul_comm 3 m), Nat.add_comm, Nat.Div0.mod_add.
  now rewrite Nat.mod_small.
Qed.

(** One probe of the echoing modem: the echo is read, OK is looked for
    and not found. *)
Lemma echoed_probe_fails (m : nat) (t : list event) (r b : array) :
  r = digits170 \/ r = echo_line ->
  b = fill 40 NUL \/ b = ok_token ->
  probe_once (probing m t r b) =
  Ret 0
    (probing (S m) ((t ++ [Tx (cstr AT)]) ++ [Delay 1]) echo_line ok_token).
Proof.
  intros Hr Hb. unfold probe_once.
  rewrite (bind_ret _ _ _
             (set_trace (t ++ [Tx (cstr AT)]) (probing m t r b)) tt)
    by reflexivity.
  rewrite (bind_ret _ _ _
     (set_response echo_line
        (set_rx_pos (3 * m + 3)
           (set_trace (t ++ [Tx (cstr AT)]) (probing m t r b)))) 1).
  - unfold probing. replace (3 * S m) with (3 * m + 3) by lia.
    destruct Hb as [-> | ->]; vm_compute; reflexivity.
  - rewrite (readline_line ["A"%char; "T"%char]).
    + destruct Hr as [-> | ->]; vm_compute; reflexivity.
    + repeat constructor.
    + intros k Hk. unfold probing. fields.
      change (rx (boot echo_only)) with echo_only.
      cbn [length] in Hk. rewrite echo_only_at by lia.
      destruct k as [|[|k]]; [reflexivity | reflexivity | lia].
    + unfold probing. fields.
      change (rx (boot echo_only)) with echo_only.
      now rewrite echo_only_at by (cbn; lia).
    + cbn. lia.
    + unfold probing. fields. destruct Hr as [-> | ->]; cbn; lia.
Qed.

Lemma echoed_probes_never_end (fuel m : nat) (t : list event)
    (r b : array) :
  r = digits170 \/ r = echo_line ->
  b = fill 40 NUL \/ b = ok_token ->
  checkat_loop fuel (probing m t r b) = NoFuel.
Proof.
  revert m t r b. induction fuel as [|fuel IH]; intros m t r b Hr Hb.
  - reflexivity.
  - rewrite checkat_loop_pass, echoed_probe_fails by assumption.
    apply IH; now right.
Qed.

(** C9.  A modem that only echoes the probe never lets [checkat]
    return.  Every reply line is AT, the echo token is in it, but the
    echo is only looked for when [readline] returns 0, which it never
    does; OK is not in the line, so the loop goes on for ever: whatever
    the number of probes followed, the routine is still probing. *)
Theorem checkat_ignores_echo :
  (forall m,
     echo_only (3 * m) = "A"%char /\ echo_only (3 * m + 1) = "T"%char /\
     echo_only (3 * m + 2) = CR) /\
  (exists w',
     readline (boot echo_only) = Ret 1 w' /\ response w' = echo_line) /\
  cstr echo_line = list_ascii_of_string "AT" /\
  is_in_rx_buffer echo_line ISATECHO BUFFER_SIZE = 1 /\
  (forall fuel, checkat fuel (boot echo_only) = NoFuel).
Proof.
  split; [|split; [|split; [|split]]].
  - intros m. rewrite <- (Nat.add_0_r (3 * m)) at 1.
    rewrite !echo_only_at by lia. repeat split.
  - eexists. split; vm_compute; reflexivity.
  - reflexivity.
  - reflexivity.
  - intros fuel. unfold checkat.
    change (boot echo_only) with (probing 0 [] digits170 (fill 40 NUL)).
    unfold bind at 1.
    rewrite echoed_probes_never_end; [reflexivity | now left | now left].
Qed.

(** ** The dispatcher and the matcher *)

(** C8.  The body SINGLE GUARD contains both keywords, but only the
    SINGLE branch runs: looking for GUARD, the matcher meets the G of
    SINGLE first and then misses the keyword itself (the defect shown in
    [is_in_rx_buffer_misses_token]).  One acknowledgment is sent and the
    mode is left at 1.  With the keywords the other way round both
    branches run and the later one, GUARD, sets the mode. *)
Theorem single_guard_runs_one_branch :
  occurs (cstr ISSINGLE) (list_ascii_of_string "SINGLE GUARD") /\
  occurs (cstr ISGUARD) (list_ascii_of_string "SINGLE GUARD") /\
  (exists w',
     on_line 1 (Flags 1 0) (sms_arrives "+48123456789" "SINGLE GUARD")
       = Ret (Flags 1 1) w' /\
     continousgps w' = 1 /\
     sent COMMANDSINGLEACK (trace w') = true /\
     sent GUARD (trace w') = false /\
     times_sent SMS2 (trace w') = 1) /\
  (exists w',
     on_line 1 (Flags 1 0) (sms_arrives "+48123456789" "GUARD SINGLE")
       = Ret (Flags 1 1) w' /\
     continousgps w' = 255 /\
     sent COMMANDSINGLEACK (trace w') = true /\
     sent GUARD (trace w') = true /\
     times_sent SMS2 (trace w') = 2).
Proof.
  split; [|split; [|split]].
  - exists [], (list_ascii_of_string " GUARD"). reflexivity.
  - exists (list_ascii_of_string "SINGLE "), []. reflexivity.
  - eexists. split; [vm_compute; reflexivity|].
    repeat split; vm_compute; reflexivity.
  - eexists. split; [vm_compute; reflexivity|].
    repeat split; vm_compute; reflexivity.
Qed.

(** ** Only the C string in the token buffer matters *)

(** [buf] is 40 cells long and a token fills only its beginning; what
    follows the terminator of the token plays no part in the search. *)

Lemma scan_tail (t rest l : list byte) (j : nat) :
  scan l (t ++ NUL :: rest) j = scan l (t ++ [NUL]) j.
Proof.
  revert l j. induction t as [|d t IH]; intros l j.
  - destruct l as [|c l]; [reflexivity|]. cbn [app scan].
    change (is_nul NUL) with true. now rewrite orb_true_r.
  - destruct l as [|c l]; [reflexivity|]. cbn [app scan].
    destruct (is_nul c || is_nul d); [reflexivity|].
    destruct (Ascii.eqb c d); [apply IH | reflexivity].
Qed.

Lemma cstr_token (t rest : list byte) :
  nul_free t = true -> cstr (t ++ NUL :: rest) = t.
Proof.
  unfold nul_free. induction t as [|d t IH]; intros H.
  - reflexivity.
  - cbn [forallb] in H. apply andb_true_iff in H. destruct H as [Hd Ht].
    cbn [app cstr]. apply negb_true_iff in Hd. rewrite Hd.
    now rewrite IH.
Qed.

Lemma load_tail (t rest : list byte) (j : nat) :
  j <= length t -> load (t ++ NUL :: rest) j = load (t ++ [NUL]) j.
Proof.
  intros H. unfold load.
  destruct (Nat.eq_dec j (length t)) as [-> | Hj].
  - rewrite !nth_middle. reflexivity.
  - rewrite !app_nth1 by lia. reflexivity.
Qed.

Lemma search_tail (t rest str : list byte) (n i j : nat) :
  nul_free t = true -> j <= length t ->
  search n i j str (t ++ NUL :: rest) = search n i j str (t ++ [NUL]).
Proof.
  intros Ht. revert i j. induction n as [|n IH]; intros i j Hj.
  - reflexivity.
  - cbn [search]. rewrite load_tail by assumption.
    rewrite scan_tail. unfold strlen. rewrite !cstr_token by assumption.
    destruct (Ascii.eqb _ _); [|now apply IH].
    destruct (_ =? _); [reflexivity|].
    apply IH.
    destruct (scan_agrees (skipn i str) (t ++ [NUL]) 0) as (m & -> & Hm & _).
    unfold strlen in Hm. rewrite cstr_token in Hm by assumption. lia.
Qed.

(** Copying a token into [buf] and searching a global array for it. *)
Lemma token_search (t : list byte) (g : world -> array) (w : world) :
  nul_free t = true -> S (length t) <= length (buf w) ->
  bind (load_token (t ++ [NUL])) (fun _ => found_in g) w =
  Ret (finds (t ++ [NUL]) (g (set_buf (t ++ NUL :: skipn (S (length t)) (buf w)) w)))
      (set_buf (t ++ NUL :: skipn (S (length t)) (buf w)) w).
Proof.
  intros Ht Hl. unfold load_token, memcpy, bind.
  rewrite length_app. cbn [length]. rewrite Nat.add_1_r.
  apply Nat.leb_le in Hl. rewrite Hl.
  rewrite map_load_firstn by (rewrite length_app; cbn; lia).
  rewrite firstn_all2 by (rewrite length_app; cbn; lia).
  rewrite <- app_assoc. cbn [app].
  unfold found_in, finds, is_in_rx_buffer. fields.
  rewrite search_tail by (assumption || lia). reflexivity.
Qed.

(** ** The keyword tests are independent *)

Lemma toupper_keeps_nul (c : byte) : is_nul (toupper c) = is_nul c.
Proof.
  destruct c as [[] [] [] [] [] [] [] []]; reflexivity.
Qed.

Lemma toupper_idem (c : byte) : toupper (toupper c) = toupper c.
Proof.
  destruct c as [[] [] [] [] [] [] [] []]; reflexivity.
Qed.

(** [strupr] on a string that is already in upper case changes nothing. *)
Lemma strupr_cells_idem (a u : array) :
  strupr_cells a = Some u -> strupr_cells u = Some u.
Proof.
  revert u. induction a as [|c a IH]; intros u; cbn [strupr_cells].
  - discriminate.
  - destruct (is_nul c) eqn:Ec.
    + intros [= <-]. cbn [strupr_cells]. now rewrite Ec.
    + destruct (strupr_cells a) as [u'|]; [|discriminate].
      intros [= <-]. cbn [strupr_cells].
      rewrite toupper_keeps_nul, Ec, toupper_idem.
      now rewrite (IH u' eq_refl).
Qed.

(** The effect of each branch. *)
Lemma multi_branch_runs (w : world) :
  multi_branch w =
  Ret (Flags 1 1)
    (set_continousgps 5
       (set_trace (trace w ++ multi_events w) w)).
Proof.
  destruct w. unfold multi_branch, wake_modem, sms_open, sms_close,
    multi_events, opening, closing. crunch.
  do 2 f_equal. repeat rewrite <- app_assoc. reflexivity.
Qed.

Lemma single_branch_runs (w : world) :
  single_branch w =
  Ret (Flags 1 1)
    (set_continousgps 1
       (set_trace (trace w ++ single_events w) w)).
Proof.
  destruct w. unfold single_branch, wake_modem, sms_open, sms_close,
    single_events, opening, closing. crunch.
  do 2 f_equal. repeat rewrite <- app_assoc. reflexivity.
Qed.

Lemma guard_branch_runs (w : world) :
  guard_branch w =
  Ret (Flags 1 1)
    (set_continousgps 255
       (set_trace (trace w ++ guard_events w) w)).
Proof.
  destruct w. unfold guard_branch, wake_modem, sms_open, sms_close,
    guard_events, opening, closing. crunch.
  do 2 f_equal. repeat rewrite <- app_assoc. reflexivity.
Qed.

Lemma activate_branch_runs (w : world) :
  activate_branch w =
  Ret (Flags 0 1)
    (set_continousgps 0
       (set_eeprom (map (load (phonenumber w)) (seq 0 20))
          (set_trace (trace w ++ activate_events w) w))).
Proof.
  destruct w. unfold activate_branch, wake_modem, sms_open, sms_close,
    activate_events, opening, closing. crunch.
  do 2 f_equal. repeat rewrite <- app_assoc. reflexivity.
Qed.

(** One keyword test on a body whose upper-case form is [u]. *)
Lemma on_keyword_runs (t : list byte) (br : M flags) (f : flags)
    (w : world) (u : array) :
  nul_free t = true -> S (length t) <= length (buf w) ->
  strupr_cells (smstext w) = Some u ->
  on_keyword (t ++ [NUL]) br f w =
  (if finds (t ++ [NUL]) u then br else ret f)
    (set_smstext u
       (set_buf (t ++ NUL :: skipn (S (length t)) (buf w)) w)).
Proof.
  intros Ht Hl Hu. unfold on_keyword, load_token, memcpy, bind.
  rewrite length_app. cbn [length]. rewrite Nat.add_1_r.
  apply Nat.leb_le in Hl. rewrite Hl.
  rewrite map_load_firstn by (rewrite length_app; cbn; lia).
  rewrite firstn_all2 by (rewrite length_app; cbn; lia).
  rewrite <- app_assoc. cbn [app].
  unfold found_in_upper_smstext. fields. rewrite Hu.
  unfold found_in, finds, is_in_rx_buffer. fields.
  rewrite search_tail by (assumption || lia).
  destruct (search _ _ _ _ _ =? 1); reflexivity.
Qed.

Lemma length_token_in_buf (t : list byte) (b : array) :
  length t < length b ->
  length (t ++ NUL :: skipn (S (length t)) b) = length b.
Proof.
  intros H. rewrite length_app. cbn [length]. rewrite length_skipn. lia.
Qed.

(** One test and its branch: the branch runs exactly when the keyword is
    found, and the next test finds the state ready again. *)
Lemma keyword_stage (kw t : list byte) (br : M flags) (fl f : flags)
    (c : nat) (ev : world -> list event) (u : array) (w : world) :
  kw = t ++ [NUL] -> nul_free t = true -> length t < 40 ->
  (forall w0, exists e,
     br w0 = Ret fl (set_continousgps c
                       (set_eeprom e
                          (set_trace (trace w0 ++ ev w0) w0)))) ->
  (forall w0 w1, phonenumber w0 = phonenumber w1 -> ev w0 = ev w1) ->
  ready u w ->
  exists w',
    on_keyword kw br f w = Ret (if finds kw u then fl else f) w' /\
    ready u w' /\
    trace w' = trace w ++ if_found (finds kw u) (ev w) /\
    continousgps w' = (if finds kw u then c else continousgps w) /\
    phonenumber w' = phonenumber w.
Proof.
  intros -> Ht Hl Hbr Hev [Hu Hb].
  rewrite (on_keyword_runs t br f w u Ht) by (assumption || lia).
  assert (Hu' : strupr_cells u = Some u) by (eapply strupr_cells_idem; eauto).
  destruct (finds (t ++ [NUL]) u); cbn [if_found].
  - match goal with |- exists w', br ?w0 = _ /\ _ =>
      destruct (Hbr w0) as [e ->] end.
    eexists. split; [reflexivity|]. unfold ready. fields.
    rewrite length_token_in_buf by lia. repeat split; try assumption.
    f_equal. apply Hev. reflexivity.
  - eexists. split; [reflexivity|]. unfold ready. fields.
    rewrite length_token_in_buf by lia. rewrite app_nil_r.
    repeat split; assumption.
Qed.

(** Supporting C8.  Each of the four keywords is looked for in the same
    upper-cased body [u], whatever the other tests found: the trace is
    the concatenation, in the order MULTI, SINGLE, ACTIVATE, GUARD, of
    the messages of the keywords the matcher finds, and the mode and the
    flags are those of the last keyword found. *)
Lemma keyword_tests_are_independent (u : array) (w : world) :
  ready u w ->
  exists w',
    dispatch w = Ret (flags_after u) w' /\
    continousgps w' = mode_after (continousgps w) u /\
    trace w' =
      trace w
        ++ if_found (finds ISMULTI u) (multi_events w)
        ++ if_found (finds ISSINGLE u) (single_events w)
        ++ if_found (finds ISACTIVATE u) (activate_events w)
        ++ if_found (finds ISGUARD u) (guard_events w).
Proof.
  intros R0. unfold dispatch.
  assert (Ev : forall (ev : world -> list event),
            (ev = multi_events \/ ev = single_events \/
             ev = activate_events \/ ev = guard_events) ->
            forall w0 w1, phonenumber w0 = phonenumber w1 -> ev w0 = ev w1).
  { intros ev [-> | [-> | [-> | ->]]] w0 w1 E;
      unfold multi_events, single_events, activate_events, guard_events,
        opening; now rewrite E. }
  destruct (keyword_stage ISMULTI (list_ascii_of_string "MULTI")
              multi_branch
              (Flags 1 1) (Flags 0 0) 5 multi_events u w)
    as (w1 & E1 & R1 & T1 & C1 & P1);
    [reflexivity | reflexivity | cbn; lia | | apply Ev; now left | exact R0 |].
  { intros w0. exists (eeprom w0). rewrite multi_branch_runs.
    destruct w0; reflexivity. }
  destruct (keyword_stage ISSINGLE (list_ascii_of_string "SINGLE")
              single_branch
              (Flags 1 1)
              (if finds ISMULTI u then Flags 1 1 else Flags 0 0)
              1 single_events u w1)
    as (w2 & E2 & R2 & T2 & C2 & P2);
    [reflexivity | reflexivity | cbn; lia | | apply Ev; right; now left | exact R1 |].
  { intros w0. exists (eeprom w0). rewrite single_branch_runs.
    destruct w0; reflexivity. }
  destruct (keyword_stage ISACTIVATE (list_ascii_of_string "ACTIVATE")
              activate_branch
              (Flags 0 1)
              (if finds ISSINGLE u then Flags 1 1
               else if finds ISMULTI u then Flags 1 1 else Flags 0 0)
              0 activate_events u w2)
    as (w3 & E3 & R3 & T3 & C3 & P3);
    [reflexivity | reflexivity | cbn; lia | | apply Ev; right; right; now left | exact R2 |].
  { intros w0. eexists. rewrite activate_branch_runs. reflexivity. }
  destruct (keyword_stage ISGUARD (list_ascii_of_string "GUARD")
              guard_branch
              (Flags 1 1)
              (if finds ISACTIVATE u then Flags 0 1
               else if finds ISSINGLE u then Flags 1 1
               else if finds ISMULTI u then Flags 1 1 else Flags 0 0)
              255 guard_events u w3)
    as (w4 & E4 & R4 & T4 & C4 & P4);
    [reflexivity | reflexivity | cbn; lia | | apply Ev; right; right; now right | exact R3 |].
  { intros w0. exists (eeprom w0). rewrite guard_branch_runs.
    destruct w0; reflexivity. }
  exists w4. split; [|split].
  - rewrite (bind_ret _ _ _ _ _ E1). cbv beta.
    rewrite (bind_ret _ _ _ _ _ E2). cbv beta.
    rewrite (bind_ret _ _ _ _ _ E3). cbv beta.
    rewrite E4. unfold flags_after. reflexivity.
  - rewrite C4, C3, C2, C1. unfold mode_after. reflexivity.
  - rewrite T4, T3, T2, T1.
    rewrite (Ev guard_events ltac:(right; right; now right) w3 w) by congruence.
    rewrite (Ev activate_events ltac:(right; right; now left) w2 w) by congruence.
    rewrite (Ev single_events ltac:(right; now left) w1 w) by congruence.
    repeat rewrite <- app_assoc. reflexivity.
Qed.

(** The same for [sms_command] as a whole: [w1] is the state after the
    body and the sender were read and the mode cleared. *)
Lemma sms_command_runs_every_match (u : array) (w w1 : world) :
  bind readsmstxt
    (fun _ => bind readsmsphonenumber
       (fun _ => put set_continousgps 0)) w = Ret tt w1 ->
  ready u w1 ->
  exists w',
    sms_command w = Ret (flags_after u) w' /\
    continousgps w' = mode_after 0 u /\
    trace w' =
      trace w1
        ++ if_found (finds ISMULTI u) (multi_events w1)
        ++ if_found (finds ISSINGLE u) (single_events w1)
        ++ if_found (finds ISACTIVATE u) (activate_events w1)
        ++ if_found (finds ISGUARD u) (guard_events w1).
Proof.
  intros H R.
  destruct (keyword_tests_are_independent u w1 R) as (w' & D & C & T).
  exists w'. split; [|split; [|exact T]].
  - unfold sms_command.
    change (sms_command) with sms_command.
    unfold bind in H |- *.
    destruct (readsmstxt w) as [r1 wa| |]; try discriminate.
    destruct (readsmsphonenumber wa) as [r2 wb| |]; try discriminate.
    unfold put in H |- *. injection H as <-. exact D.
  - rewrite C. f_equal.
    unfold bind, put in H.
    destruct (readsmstxt w) as [r1 wa| |]; try discriminate.
    destruct (readsmsphonenumber wa) as [r2 wb| |]; try discriminate.
    injection H as <-. reflexivity.
Qed.

(** ** The registration state machine *)

Lemma checkregistration_unfold (w : world) :
  checkregistration w =
  match first_query w with
  | Ret true w1 => Ret 1 w1
  | Ret false w1 => bind radio_on (fun _ => checkregistration_loop 24 0) w1
  | OutOfBounds arr i => OutOfBounds arr i
  | NoFuel => NoFuel
  end.
Proof.
  unfold checkregistration, first_query, radio_on. run.
  destruct (readline _) as [r w1| |]; try reflexivity.
  destruct (0 <? r); run.
  - destruct (registered_already w1) as [[] w2| |]; reflexivity.
  - reflexivity.
Qed.

Lemma checkregistration_loop_pass (fuel a : nat) (w : world) :
  checkregistration_loop (S fuel) a w =
  match cycle w with
  | Ret true w1 => Ret 1 w1
  | Ret false w1 =>
      if u8 (a + 1) <? 24 then checkregistration_loop fuel (u8 (a + 1)) w1
      else Ret 0 w1
  | OutOfBounds arr i => OutOfBounds arr i
  | NoFuel => NoFuel
  end.
Proof.
  cbn [checkregistration_loop]. unfold cycle. run.
  destruct (readline _) as [r w1| |]; try reflexivity.
  destruct (0 <? r); run.
  - destruct (registered w1) as [[] w2| |]; try reflexivity; run.
    cbn [negb]. destruct (backoff w2) as [[] w3| |]; try reflexivity.
    cbn [flag Nat.eqb andb]. destruct (u8 (a + 1) <? 24); reflexivity.
  - cbn [Nat.eqb andb]. destruct (u8 (a + 1) <? 24); reflexivity.
Qed.

Lemma retry_loop_after_failures (k : nat) (w w' : world) :
  failed_cycles k w w' ->
  forall fuel a, a + k <= 24 ->
    (a + k = 24 -> 1 <= k <= fuel ->
     checkregistration_loop fuel a w = Ret 0 w') /\
    (forall w'', a + k < 24 -> k < fuel -> cycle w' = Ret true w'' ->
     checkregistration_loop fuel a w = Ret 1 w'').
Proof.
  induction 1 as [w|n w w1 w2 H Hrest IH]; intros fuel a Ha.
  - split; [lia|]. intros w'' Hk Hf Hc.
    destruct fuel as [|fuel]; [lia|].
    now rewrite checkregistration_loop_pass, Hc.
  - destruct fuel as [|fuel]; [split; intros; lia|].
    rewrite checkregistration_loop_pass, H, u8_small by lia.
    destruct (IH fuel (a + 1) ltac:(lia)) as [IH0 IH1].
    split.
    + intros E Hk. destruct n as [|n].
      * inversion Hrest; subst.
        assert (E2 : (a + 1 <? 24) = false) by (apply Nat.ltb_ge; lia).
        now rewrite E2.
      * assert (E2 : (a + 1 <? 24) = true) by (apply Nat.ltb_lt; lia).
        rewrite E2. apply IH0; lia.
    + intros w'' Hk Hf Hc.
      assert (E2 : (a + 1 <? 24) = true) by (apply Nat.ltb_lt; lia).
      rewrite E2. apply IH1; [lia | lia | exact Hc].
Qed.

Lemma found_in_frame (g : world -> array) (w w' : world) (b : bool) :
  found_in g w = Ret b w' -> w' = w.
Proof. unfold found_in. now intros [= _ <-]. Qed.

(** Looking for the codes changes nothing but [buf]. *)
Lemma registered_already_frame (w w' : world) (b : bool) :
  registered_already w = Ret b w' -> w' = set_buf (buf w') w.
Proof.
  unfold registered_already. intros H.
  apply bind_ret_inv in H as ([] & wb & T1 & H).
  apply load_token_frame in T1.
  apply bind_ret_inv in H as (b1 & wb' & V1 & H).
  apply found_in_frame in V1. subst wb'.
  destruct b1.
  - injection H as _ <-. exact T1.
  - apply bind_ret_inv in H as ([] & wc & T2 & H).
    apply load_token_frame in T2.
    apply found_in_frame in H. subst w'.
    rewrite T2 at 1. rewrite T1 at 1. reflexivity.
Qed.

Lemma first_query_trace (w w1 : world) (b : bool) :
  first_query w = Ret b w1 ->
  trace w1 = trace w ++ [Delay 1; Tx (cstr SHOW_REGISTRATION)].
Proof.
  unfold first_query. intros H.
  apply bind_ret_inv in H as ([] & wa & D & H). injection D as <-.
  apply bind_ret_inv in H as ([] & wb & S & H). injection S as <-.
  apply bind_ret_inv in H as (r & wc & R & H).
  apply readline_frame in R. destruct R as [-> F].
  change (0 <? 1) with true in H. cbv iota in H.
  apply registered_already_frame in H.
  apply (f_equal trace) in F. unfold but_line in F.
  rewrite H.
  cbn [trace set_response set_response_pos set_rx_pos set_trace set_buf]
    in F |- *.
  rewrite F. now rewrite <- app_assoc.
Qed.

(** Supporting C7.  In terms of what each query observes,
    [checkregistration] is the state machine of the claim: success at
    once, with nothing sent but the query, when the first query finds a
    code; success as soon as a cycle finds one; and 0 after 24 cycles
    that find none. *)
Lemma registration_state_machine (w w1 : world) :
  (first_query w = Ret true w1 ->
   checkregistration w = Ret 1 w1 /\
   trace w1 = trace w ++ [Delay 1; Tx (cstr SHOW_REGISTRATION)]) /\
  (first_query w = Ret false w1 ->
   forall k w2 w3,
     radio_on w1 = Ret tt w2 -> failed_cycles k w2 w3 ->
     (k = 24 -> checkregistration w = Ret 0 w3) /\
     (forall w4, k < 24 -> cycle w3 = Ret true w4 ->
        checkregistration w = Ret 1 w4)).
Proof.
  split.
  - intros H. split; [now rewrite checkregistration_unfold, H|].
    now apply first_query_trace in H.
  - intros H k w2 w3 Hr Hf.
    rewrite checkregistration_unfold, H, (bind_ret _ _ _ _ _ Hr).
    cbv beta.
    destruct (le_lt_dec k 24) as [Hk24 | Hk24]; [|split; intros; lia].
    destruct (retry_loop_after_failures k w2 w3 Hf 24 0 Hk24) as [A B].
    split.
    + intros ->. apply A; lia.
    + intros w4 Hk Hc. apply B; [lia | lia | exact Hc].
Qed.

(** ** The probe loop ends at the first OK *)

(** Supporting C9.  When the probe after [k] failed ones finds OK, the
    loop ends there and [checkat] returns 1 after switching the echo
    off, for every step budget above [k]. *)
Lemma checkat_returns_at_first_ok (k : nat) (w w1 w2 : world) :
  failed_probes k w w1 ->
  probe_once w1 = Ret 1 w2 ->
  forall fuel, k < fuel ->
    checkat fuel w =
    Ret 1 (emits [Delay 1; Tx (cstr ECHO_OFF); Delay 1] w2).
Proof.
  intros Hf Hok fuel Hk.
  assert (L : checkat_loop fuel w = Ret tt w2).
  { revert fuel Hk. induction Hf as [w|n w wa wb H _ IH]; intros fuel Hk;
      (destruct fuel as [|fuel]; [lia|]); rewrite checkat_loop_pass.
    - now rewrite Hok.
    - rewrite H. cbn [Nat.eqb]. apply IH; [exact Hok | lia]. }
  unfold checkat. rewrite (bind_ret _ _ _ _ _ L). reflexivity.
Qed.

(** ** Runs *)

(** The theorem on [readgpsinfo] at a GPS without a fix: one query in
    guard mode, twenty in single mode. *)
Lemma readgpsinfo_gives_up_after_patience_witness :
  (exists w', readgpsinfo (no_fix_yet 255) = Ret 0 w' /\
              probes (trace w') = 1) /\
  (exists w', readgpsinfo (no_fix_yet 1) = Ret 0 w' /\
              probes (trace w') = 20).
Proof.
  split.
  - destruct (readgpsinfo_gives_up_after_patience (no_fix_yet 255))
      as (_ & _ & [F _] & P).
    destruct F as [w' H].
    { eexists. change (patience (continousgps (no_fix_yet 255))) with 1.
      eapply failed_next; [vm_compute; reflexivity | apply failed_none]. }
    exists w'. split; [exact H | exact (P w' H)].
  - destruct (readgpsinfo_gives_up_after_patience (no_fix_yet 1))
      as (_ & _ & [F _] & P).
    destruct F as [w' H].
    { eexists. change (patience (continousgps (no_fix_yet 1))) with 20.
      repeat (eapply failed_next; [vm_compute; reflexivity|]).
      apply failed_none. }
    exists w'. split; [exact H | exact (P w' H)].
Defined.

(** Registration found at the fourth query, the third cycle: success,
    four queries, and a back-off after each of the two failed cycles. *)
Lemma registration_on_fourth_query :
  exists w',
    checkregistration found_at_fourth = Ret 1 w' /\
    times_sent SHOW_REGISTRATION (trace w') = 4 /\
    times_sent SLEEPON (trace w') = 2.
Proof.
  eexists. split; [vm_compute; reflexivity|].
  split; vm_compute; reflexivity.
Qed.

(** ** Parsing the sender number *)

(** The scanning loops on a buffer in which the byte looked for is [n]
    cells ahead. *)
Lemma skip_response_finds (stop : byte) (n : nat) :
  forall (fuel i : nat) (w : world),
    (forall j, j < n ->
       Ascii.eqb (load (response w) (response_pos w + j)) stop = false) ->
    Ascii.eqb (load (response w) (response_pos w + n)) stop = true ->
    i + n < 150 -> n < fuel -> response_pos w + n < 255 ->
    skip_response fuel stop i w =
    Ret (i + S n) (set_response_pos (response_pos w + S n) w).
Proof.
  induction n as [|n IH]; intros fuel i w Hpre Hstop Hi Hf Hp;
    (destruct fuel as [|fuel]; [lia|]); cbn [skip_response]; run; fields.
  - rewrite Nat.add_0_r in Hstop. rewrite Hstop. cbn [negb andb].
    rewrite !u8_small by lia. rewrite !Nat.add_1_r. reflexivity.
  - assert (H0 := Hpre 0 ltac:(lia)). rewrite Nat.add_0_r in H0.
    rewrite H0. cbn [negb andb].
    rewrite !u8_small by lia.
    assert (E : (i + 1 <? 150) = true) by (apply Nat.ltb_lt; lia).
    rewrite E. rewrite IH; fields; try lia.
    + replace (response_pos w + 1 + S n)
        with (response_pos w + S (S n)) by lia.
      replace (i + 1 + S n) with (i + S (S n)) by lia.
      reflexivity.
    + intros j Hj. replace (response_pos w + 1 + j)
        with (response_pos w + S j) by lia. apply Hpre. lia.
    + replace (response_pos w + 1 + n)
        with (response_pos w + S n) by lia. exact Hstop.
Qed.

Lemma cells_S (a : array) (p n : nat) :
  cells a p (S n) = load a p :: cells a (S p) n.
Proof.
  unfold cells. cbn [seq map]. rewrite Nat.add_0_r. f_equal.
  rewrite <- seq_shift, map_map. apply map_ext. intros j. f_equal. lia.
Qed.

(** The copying loop when the number and its closing quote fit. *)
Lemma copy_number_copies (n : nat) :
  forall (fuel i : nat) (w : world),
    (forall j, j < n ->
       Ascii.eqb (load (response w) (response_pos w + j)) DQ = false) ->
    Ascii.eqb (load (response w) (response_pos w + n)) DQ = true ->
    i + n < 150 -> n < fuel -> response_pos w + n < 255 ->
    phonenumber_pos w + n < length (phonenumber w) ->
    phonenumber_pos w + n < 255 ->
    copy_number fuel i w =
    Ret (i + S n)
      (set_phonenumber
         (firstn (phonenumber_pos w) (phonenumber w)
            ++ cells (response w) (response_pos w) n
            ++ DQ :: skipn (phonenumber_pos w + S n) (phonenumber w))
         (set_phonenumber_pos (phonenumber_pos w + S n)
            (set_response_pos (response_pos w + S n) w))).
Proof.
  induction n as [|n IH]; intros fuel i w Hpre Hstop Hi Hf Hp Hq Hq8;
    (destruct fuel as [|fuel]; [lia|]); cbn [copy_number]; run; fields.
  - rewrite Nat.add_0_r in Hstop.
    rewrite store_some by lia. run. fields.
    rewrite Hstop. cbn [negb andb]. rewrite !u8_small by lia.
    apply Ascii.eqb_eq in Hstop. rewrite Hstop.
    rewrite !Nat.add_1_r. unfold upd, cells. cbn [seq map app].
    reflexivity.
  - rewrite store_some by lia. run. fields.
    assert (H0 := Hpre 0 ltac:(lia)). rewrite Nat.add_0_r in H0.
    rewrite H0. cbn [negb andb].
    rewrite !u8_small by lia.
    assert (E : (i + 1 <? 150) = true) by (apply Nat.ltb_lt; lia).
    rewrite E. rewrite IH; fields; try (rewrite length_upd by lia);
      try lia.
    + rewrite cells_S. rewrite !Nat.add_1_r.
      rewrite firstn_upd by lia. rewrite skipn_upd by lia.
      rewrite <- app_assoc. cbn [app].
      replace (S (phonenumber_pos w) + S n)
        with (phonenumber_pos w + S (S n)) by lia.
      replace (S (response_pos w) + S n)
        with (response_pos w + S (S n)) by lia.
      replace (S i + S n) with (i + S (S n)) by lia.
      reflexivity.
    + intros j Hj. replace (response_pos w + 1 + j)
        with (response_pos w + S j) by lia. apply Hpre. lia.
    + replace (response_pos w + 1 + n)
        with (response_pos w + S n) by lia. exact Hstop.
Qed.

(** The copying loop when the number alone fills the array: the next
    store, of a digit or of the closing quote, falls outside it. *)
Lemma copy_number_overruns (n : nat) :
  forall (fuel i : nat) (w : world),
    (forall j, j < n ->
       Ascii.eqb (load (response w) (response_pos w + j)) DQ = false) ->
    i + n < 150 -> n < fuel -> response_pos w + n < 255 ->
    phonenumber_pos w + n = length (phonenumber w) ->
    phonenumber_pos w + n < 255 ->
    copy_number fuel i w =
    OutOfBounds "phonenumber" (length (phonenumber w)).
Proof.
  induction n as [|n IH]; intros fuel i w Hpre Hi Hf Hp Hq Hq8;
    (destruct fuel as [|fuel]; [lia|]); cbn [copy_number]; run; fields.
  - unfold store. rewrite Nat.add_0_r in Hq.
    assert (E : (phonenumber_pos w <? length (phonenumber w)) = false)
      by (apply Nat.ltb_ge; lia).
    rewrite E, Hq. reflexivity.
  - rewrite store_some by lia. run. fields.
    assert (H0 := Hpre 0 ltac:(lia)). rewrite Nat.add_0_r in H0.
    rewrite H0. cbn [negb andb].
    rewrite !u8_small by lia.
    assert (E : (i + 1 <? 150) = true) by (apply Nat.ltb_lt; lia).
    rewrite E. rewrite IH; fields; try (rewrite length_upd by lia);
      try lia.
    + reflexivity.
    + intros j Hj. replace (response_pos w + 1 + j)
        with (response_pos w + S j) by lia. apply Hpre. lia.
Qed.

(** Supporting C2.  On a notification line laid out as the parser
    expects, a sender number of at most 19 characters, closed by its
    quote, ends up in [phonenumber] followed by a terminator; twenty
    characters without a closing quote among them are enough for a store
    at [phonenumber[20]]. *)
Lemma sender_number_fits_or_overruns (w : world) (a b n : nat) :
  envelope (response w) a b n ->
  length (phonenumber w) = 20 ->
  a + b + n + 2 < 150 ->
  (n <= 19 ->
   Ascii.eqb (load (response w) (S (S a) + b + n)) DQ = true ->
   readsmsphonenumber w =
   Ret 1
     (set_phonenumber
        (cells (response w) (S (S a) + b) n
           ++ NUL :: skipn (S n) (phonenumber w))
        (set_phonenumber_pos 0 (set_response_pos 0 w)))) /\
  (n = 20 ->
   readsmsphonenumber w = OutOfBounds "phonenumber" 20).
Proof.
  intros (Ha & Hca & Hb & Hcb & Hn) Hl Hi.
  assert (S1 : skip_response 150 ":"%char 0
                 (set_response_pos 0 (set_phonenumber_pos 0 w)) =
               Ret (S a)
                 (set_response_pos (S a) (set_phonenumber_pos 0 w))).
  { rewrite (skip_response_finds ":"%char a); fields; try lia;
      try assumption. reflexivity. }
  assert (S2 : skip_response 150 DQ (S a)
                 (set_response_pos (S a) (set_phonenumber_pos 0 w)) =
               Ret (S (S a) + b)
                 (set_response_pos (S (S a) + b)
                    (set_phonenumber_pos 0 w))).
  { rewrite (skip_response_finds DQ b); fields; try lia; try assumption.
    replace (S a + S b) with (S (S a) + b) by lia. reflexivity. }
  split.
  - intros Hn19 Hq.
    unfold readsmsphonenumber. run.
    rewrite S1. cbv beta iota. rewrite S2. cbv beta iota.
    rewrite (copy_number_copies n); fields; try lia; try assumption.
    cbv beta iota. fields.
    rewrite Nat.add_0_l, Nat.sub_succ, Nat.sub_0_r.
    rewrite store_some.
    + assert (Lc : length (cells (response w) (S (S a) + b) n) = n)
        by (unfold cells; now rewrite length_map, length_seq).
      unfold upd. cbn [firstn app].
      rewrite firstn_app, Lc, Nat.sub_diag, firstn_all2 by lia.
      cbn [firstn]. rewrite app_nil_r.
      rewrite skipn_app, Lc, skipn_all2 by lia.
      replace (S n - n) with 1 by lia. cbn [skipn app].
      destruct w; reflexivity.
    + cbn [firstn app]. rewrite length_app. unfold cells.
      rewrite length_map, length_seq. cbn [length].
      rewrite length_skipn. lia.
  - intros ->.
    unfold readsmsphonenumber. run.
    rewrite S1. cbv beta iota. rewrite S2. cbv beta iota.
    rewrite (copy_number_overruns 20); fields; try lia; try assumption.
    now rewrite Hl.
Qed.

(** The announcements of a sender number of 19 and of 20 characters have
    this layout once [readline] has put them in the buffer. *)
Lemma notification_envelope :
  (exists w1,
     readline (sms_arrives "+481234567890123456" "ACTIVATE") = Ret 1 w1 /\
     envelope (response w1) 4 1 19) /\
  (exists w1,
     readline (sms_arrives "+4812345678901234567" "ACTIVATE") = Ret 1 w1 /\
     envelope (response w1) 4 1 20).
Proof.
  assert (E : forall r a b n,
    forallb (fun j => negb (Ascii.eqb (load r j) ":"%char)) (seq 0 a)
    && Ascii.eqb (load r a) ":"%char
    && forallb (fun j => negb (Ascii.eqb (load r (S a + j)) DQ)) (seq 0 b)
    && Ascii.eqb (load r (S a + b)) DQ
    && forallb (fun j => negb (Ascii.eqb (load r (S (S a) + b + j)) DQ))
         (seq 0 n) = true ->
    envelope r a b n).
  { intros r a b n H.
    repeat (apply andb_true_iff in H; destruct H as [H ?]).
    repeat split; try assumption;
      intros j Hj;
      match goal with
      | F : forallb _ (seq 0 ?m) = true |- _ =>
          match type of Hj with _ < m =>
            rewrite forallb_forall in F;
            specialize (F j ltac:(apply in_seq; lia));
            now apply negb_true_iff in F
          end
      end. }
  split.
  - eexists. split; [vm_compute; reflexivity|].
    apply E. vm_compute. reflexivity.
  - eexists. split; [vm_compute; reflexivity|].
    apply E. vm_compute. reflexivity.
Qed.

(** * Further properties *)

(** ** The matcher on a token that stands behind a clean prefix *)

Lemma scan_token (t rest junk : list byte) (j : nat) :
  nul_free t = true ->
  scan (t ++ rest) (t ++ NUL :: junk) j = j + length t.
Proof.
  unfold nul_free. revert j. induction t as [|d t IH]; intros j H.
  - cbn [app length]. rewrite Nat.add_0_r.
    destruct rest as [|c rest]; [reflexivity|]. cbn [scan].
    change (is_nul NUL) with true. now rewrite orb_true_r.
  - cbn [forallb] in H. apply andb_true_iff in H. destruct H as [Hd Ht].
    apply negb_true_iff in Hd.
    cbn [app scan length]. rewrite Hd. cbn [orb].
    rewrite Ascii.eqb_refl, IH by assumption. lia.
Qed.

(** While no cell equals the first byte of the token, [j] stays 0 and
    the search moves on. *)
Lemma search_skips (str sub : array) (m : nat) :
  forall n i,
    (forall k, k < m -> load str (i + k) <> load sub 0) ->
    search (m + n) i 0 str sub = search n (i + m) 0 str sub.
Proof.
  induction m as [|m IH]; intros n i H.
  - now rewrite Nat.add_0_r.
  - cbn [Nat.add search].
    assert (H0 := H 0 ltac:(lia)). rewrite Nat.add_0_r in H0.
    apply Ascii.eqb_neq in H0. rewrite H0.
    rewrite IH.
    + f_equal. lia.
    + intros k Hk. replace (S i + k) with (i + S k) by lia. apply H. lia.
Qed.

(** X1.  The matcher never reports
    a token that is not there.  Its result is 0 or 1, and when it is 1
    the bytes of the token (the C string in [sub]) stand in [str] from
    some index below [buffersize] on. *)
Theorem matcher_reports_only_tokens_present (str sub : array)
    (buffersize : nat) :
  (is_in_rx_buffer str sub buffersize = 0 \/
   is_in_rx_buffer str sub buffersize = 1) /\
  (is_in_rx_buffer str sub buffersize = 1 ->
   exists i, i < buffersize /\
     firstn (strlen sub) (skipn i str) = cstr sub /\
     occurs (cstr sub) str).
Proof.
  split.
  - apply search_01.
  - apply is_in_rx_buffer_sound.
Qed.

Lemma search_after_clean_prefix (pre t rest junk : list byte)
    (buffersize : nat) :
  t <> [] -> nul_free t = true ->
  Forall (fun c => c <> hd NUL t) pre ->
  length pre < buffersize ->
  is_in_rx_buffer (pre ++ t ++ rest) (t ++ NUL :: junk) buffersize = 1.
Proof.
  intros Hne Ht Hpre Hn. unfold is_in_rx_buffer.
  replace buffersize with (length pre + S (buffersize - S (length pre)))
    by lia.
  rewrite search_skips.
  - cbn [Nat.add search].
    rewrite skipn_app, Nat.sub_diag, skipn_all. cbn [skipn app].
    rewrite scan_token by assumption. unfold strlen.
    rewrite cstr_token by assumption. cbn [Nat.add].
    rewrite Nat.eqb_refl.
    destruct t as [|d t]; [congruence|].
    unfold load. rewrite app_nth2, Nat.sub_diag by lia. cbn [app nth].
    now rewrite Ascii.eqb_refl.
  - intros k Hk. cbn [Nat.add]. unfold load.
    rewrite app_nth1 by assumption.
    destruct t as [|d t]; [congruence|]. cbn [app nth hd] in *.
    rewrite Forall_forall in Hpre. apply Hpre. now apply nth_In.
Qed.

(** X2.  A token is found
    whenever no byte before its first occurrence equals its first byte.
    Terminators among those bytes do not stop the search: all
    [buffersize] cells are looked at, also the ones behind the end of
    the string in [str]. *)
Theorem matcher_finds_token_after_clean_prefix
    (pre t rest junk : list byte) (buffersize : nat) :
  t <> [] -> nul_free t = true ->
  Forall (fun c => c <> hd NUL t) pre ->
  length pre < buffersize ->
  is_in_rx_buffer (pre ++ t ++ rest) (t ++ NUL :: junk) buffersize = 1.
Proof. exact (search_after_clean_prefix pre t rest junk buffersize). Qed.

(** The token OK behind the terminated line AT and two more bytes. *)
Lemma matcher_finds_token_after_clean_prefix_witness :
  is_in_rx_buffer
    (lit "AT" ++ list_ascii_of_string "12"
       ++ list_ascii_of_string "OK" ++ [NUL])
    (list_ascii_of_string "OK" ++ NUL :: fill 37 NUL) BUFFER_SIZE = 1.
Proof.
  refine (matcher_finds_token_after_clean_prefix
            (lit "AT" ++ list_ascii_of_string "12")
            (list_ascii_of_string "OK") [NUL] (fill 37 NUL) BUFFER_SIZE
            _ _ _ _).
  - discriminate.
  - reflexivity.
  - repeat constructor; discriminate.
  - unfold BUFFER_SIZE. cbn. lia.
Defined.

(** ** The line reader: blank bytes, whole lines and lines that never end *)

Lemma set_rx_pos_same (w : world) : set_rx_pos (rx_pos w) w = w.
Proof. now destruct w. Qed.

(** Line-end bytes before the line are counted and dropped. *)
Lemma readline_loop_blank (e : nat) :
  forall (fuel i : nat) (w : world),
    response_pos w = 0 ->
    (forall k, k < e -> is_eol (rx w (rx_pos w + k)) = true) ->
    i + e < 150 -> e <= fuel ->
    readline_loop fuel i w =
    readline_loop (fuel - e) (i + e) (set_rx_pos (rx_pos w + e) w).
Proof.
  induction e as [|e IH]; intros fuel i w Hp He Hi Hf.
  - now rewrite !Nat.add_0_r, Nat.sub_0_r, set_rx_pos_same.
  - destruct fuel as [|fuel]; [lia|]. cbn [readline_loop Nat.sub]. run.
    assert (H0 := He 0 ltac:(lia)). rewrite Nat.add_0_r in H0.
    rewrite H0. cbn [negb andb]. run. fields. rewrite Hp.
    change (0 <? 0) with false. run. cbn [Nat.eqb andb].
    rewrite u8_small by lia.
    assert (E : (i + 1 <? 150) = true) by (apply Nat.ltb_lt; lia).
    rewrite E. rewrite IH; fields; try assumption; try lia.
    + replace (i + 1 + e) with (i + S e) by lia.
      replace (S (rx_pos w) + e) with (rx_pos w + S e) by lia.
      reflexivity.
    + intros k Hk. replace (S (rx_pos w) + k) with (rx_pos w + S k) by lia.
      apply He. lia.
Qed.

(** Nothing but line-end bytes until the counter reaches 150. *)
Lemma readline_loop_silence (e : nat) :
  forall (fuel i : nat) (w : world),
    response_pos w = 0 ->
    (forall k, k < S e -> is_eol (rx w (rx_pos w + k)) = true) ->
    i + S e = 150 -> e < fuel ->
    readline_loop fuel i w =
    Ret tt (set_rx_pos (rx_pos w + S e) w).
Proof.
  induction e as [|e IH]; intros fuel i w Hp He Hi Hf;
    (destruct fuel as [|fuel]; [lia|]);
    cbn [readline_loop]; run;
    assert (H0 := He 0 ltac:(lia)); rewrite Nat.add_0_r in H0;
    rewrite H0; cbn [negb andb]; run; fields; rewrite Hp;
    change (0 <? 0) with false; run; cbn [Nat.eqb andb];
    rewrite u8_small by lia.
  - assert (E : (i + 1 <? 150) = false) by (apply Nat.ltb_ge; lia).
    rewrite E. rewrite Nat.add_1_r. reflexivity.
  - assert (E : (i + 1 <? 150) = true) by (apply Nat.ltb_lt; lia).
    rewrite E.
    rewrite IH; fields; try assumption; try lia.
    + replace (S (rx_pos w) + S e) with (rx_pos w + S (S e)) by lia.
      reflexivity.
    + intros k Hk. replace (S (rx_pos w) + k) with (rx_pos w + S k) by lia.
      apply He. lia.
Qed.

(** Bytes of a line that is still open when the counter reaches 150. *)
Lemma readline_loop_fill (l : list byte) :
  forall (c : byte) (fuel i : nat) (w : world),
    Forall (fun c => is_eol c = false) (c :: l) ->
    incoming w (c :: l) ->
    i + S (length l) = 150 ->
    response_pos w + S (length l) <= length (response w) ->
    response_pos w + S (length l) < 256 ->
    length l < fuel ->
    readline_loop fuel i w =
    Ret tt
      (set_response
         (firstn (response_pos w) (response w) ++ c :: l
            ++ skipn (response_pos w + S (length l)) (response w))
         (set_response_pos (response_pos w + S (length l))
            (set_rx_pos (rx_pos w + S (length l)) w))).
Proof.
  induction l as [|d l IH]; intros c fuel i w Hl Hin Hi Hr H8 Hf;
    unfold incoming in *; cbn [length] in *;
    (destruct fuel as [|fuel]; [lia|]);
    cbn [readline_loop]; run;
    assert (Hc0 : rx w (rx_pos w) = c)
      by (specialize (Hin 0 ltac:(lia)); rewrite Nat.add_0_r in Hin;
          exact Hin);
    assert (Hc : is_eol c = false) by (now inversion Hl);
    rewrite Hc0, Hc; cbn [negb andb];
    assert (E : (i <? 150) = true) by (apply Nat.ltb_lt; lia);
    rewrite E; run; fields; rewrite store_some by lia; run; fields;
    cbn [Nat.eqb andb]; rewrite !u8_small by lia.
  - assert (E2 : (i + 1 <? 150) = false) by (apply Nat.ltb_ge; lia).
    rewrite E2. rewrite !Nat.add_1_r. unfold upd. cbn [app].
    reflexivity.
  - assert (E2 : (i + 1 <? 150) = true) by (apply Nat.ltb_lt; lia).
    rewrite E2.
    rewrite (IH d); fields; try (rewrite length_upd by lia); try lia.
    + rewrite !Nat.add_1_r. rewrite firstn_upd by lia.
      rewrite skipn_upd by lia. rewrite <- app_assoc. cbn [app].
      replace (S (response_pos w) + S (length l))
        with (response_pos w + S (S (length l))) by lia.
      replace (S (rx_pos w) + S (length l))
        with (rx_pos w + S (S (length l))) by lia.
      reflexivity.
    + now inversion Hl.
    + intros k Hk. specialize (Hin (S k) ltac:(lia)).
      change (nth (S k) (c :: d :: l) NUL) with (nth k (d :: l) NUL) in Hin.
      rewrite <- Hin. f_equal. lia.
Qed.

Lemma incoming_app (w : world) (a b : list byte) :
  incoming w (a ++ b) ->
  incoming w a /\
  incoming (set_rx_pos (rx_pos w + length a) w) b.
Proof.
  unfold incoming. intros H. split.
  - intros k Hk. rewrite H by (rewrite length_app; lia).
    now rewrite app_nth1.
  - intros k Hk. fields. rewrite <- Nat.add_assoc.
    rewrite H by (rewrite length_app; lia).
    rewrite app_nth2 by lia. f_equal. lia.
Qed.

Lemma incoming_eol (w : world) (blank : list byte) :
  Forall (fun c => is_eol c = true) blank ->
  incoming w blank ->
  forall k, k < length blank -> is_eol (rx w (rx_pos w + k)) = true.
Proof.
  intros Hb Hin k Hk. rewrite Hin by assumption.
  rewrite Forall_forall in Hb. apply Hb. now apply nth_In.
Qed.

(** X3.  [readline] drops the line-end bytes
    that precede a line, stores the bytes of the line from [response[0]]
    on, puts a terminator behind them and leaves what follows in the
    buffer as it was.  It takes the bytes up to and including the first
    line-end byte after the line and returns 1 with [response_pos] back
    at 0. *)
Theorem readline_stores_the_line (blank l : list byte) (c : byte)
    (w : world) :
  Forall (fun c => is_eol c = true) blank ->
  Forall (fun c => is_eol c = false) l ->
  is_eol c = true ->
  incoming w (blank ++ l ++ [c]) ->
  0 < length l -> length blank + length l < 150 ->
  length l < length (response w) ->
  readline w =
  Ret 1
    (set_response (l ++ NUL :: skipn (S (length l)) (response w))
       (set_response_pos 0
          (set_rx_pos (rx_pos w + length (blank ++ l ++ [c])) w))).
Proof.
  intros Hb Hl Hc Hin Hn Hlen Hr.
  apply incoming_app in Hin. destruct Hin as [Hin1 Hin2].
  apply incoming_app in Hin2. destruct Hin2 as [Hin2 Hin3].
  unfold readline. run.
  rewrite (readline_loop_blank (length blank)); fields; try lia.
  - rewrite (readline_loop_line l); fields; try lia; try assumption.
    + unfold place. cbn [firstn app Nat.add].
      rewrite !length_app. cbn [length].
      replace (rx_pos w + length blank + S (length l))
        with (rx_pos w + (length blank + (length l + 1))) by lia.
      reflexivity.
    + specialize (Hin3 0 ltac:(cbn; lia)). fields.
      rewrite Nat.add_0_r in Hin3. cbn [nth] in Hin3.
      rewrite Hin3. exact Hc.
  - apply incoming_eol; assumption.
Qed.

(** The reply OK as the modem sends it, between two CR LF pairs. *)
Lemma readline_stores_the_line_witness :
  readline (boot (feed (CR :: LF :: line "OK") idle)) =
  Ret 1
    (set_response (holding "OK" digits170)
       (set_response_pos 0
          (set_rx_pos 5 (boot (feed (CR :: LF :: line "OK") idle))))).
Proof.
  refine (readline_stores_the_line [CR; LF] (list_ascii_of_string "OK") CR
            (boot (feed (CR :: LF :: line "OK") idle)) _ _ _ _ _ _ _).
  - repeat constructor.
  - repeat constructor.
  - reflexivity.
  - intros k Hk. cbn in Hk.
    do 5 (destruct k as [|k]; [reflexivity|]). lia.
  - cbn. lia.
  - cbn. lia.
  - cbn. lia.
Defined.

(** X4.  When 150 bytes have been
    taken and no line is complete, [readline] returns 1 all the same.
    The bytes of the unfinished line are in the buffer without a
    terminator and [response_pos] stays behind them; when only line-end
    bytes arrived, the buffer still holds what it held before the call. *)
Theorem readline_gives_up_after_150_bytes (blank l : list byte)
    (w : world) :
  Forall (fun c => is_eol c = true) blank ->
  Forall (fun c => is_eol c = false) l ->
  incoming w (blank ++ l) ->
  length blank + length l = 150 ->
  length l <= length (response w) ->
  readline w =
  Ret 1
    (set_response (l ++ skipn (length l) (response w))
       (set_response_pos (length l) (set_rx_pos (rx_pos w + 150) w))).
Proof.
  intros Hb Hl Hin Hlen Hr.
  apply incoming_app in Hin. destruct Hin as [Hin1 Hin2].
  unfold readline. run.
  destruct l as [|c l].
  - cbn [length] in *. rewrite Nat.add_0_r in Hlen.
    destruct blank as [|b blank]; [discriminate|]. cbn [length] in *.
    rewrite (readline_loop_silence (length blank)); fields; try lia.
    + rewrite Hlen. cbn [app skipn].
      destruct w; reflexivity.
    + apply (incoming_eol _ (b :: blank)); assumption.
  - cbn [length] in *.
    rewrite (readline_loop_blank (length blank)); fields; try lia.
    + rewrite (readline_loop_fill l c); fields; try lia; try assumption.
      cbn [firstn app Nat.add].
      replace (rx_pos w + length blank + S (length l))
        with (rx_pos w + 150) by lia.
      reflexivity.
    + apply incoming_eol; assumption.
Qed.

(** Silence after the reply OK was read: the second call returns 1 and
    the buffer still says OK. *)
Lemma readline_gives_up_after_150_bytes_witness :
  readline
    (set_response (holding "OK" digits170) (boot (fun _ => CR))) =
  Ret 1
    (set_response (holding "OK" digits170)
       (set_response_pos 0
          (set_rx_pos 150
             (set_response (holding "OK" digits170)
                (boot (fun _ => CR)))))).
Proof.
  refine (readline_gives_up_after_150_bytes (repeat CR 150) []
            (set_response (holding "OK" digits170) (boot (fun _ => CR)))
            _ _ _ _ _).
  - apply Forall_forall. intros x Hx. apply repeat_spec in Hx. now subst.
  - constructor.
  - intros k Hk. rewrite app_nil_r in *. rewrite repeat_length in Hk.
    rewrite nth_repeat_lt by assumption. reflexivity.
  - rewrite repeat_length. reflexivity.
  - cbn. lia.
Defined.

(** ** The SMS body reader *)

(** The loop on a line: the bytes of [l], none of them a terminator,
    then a terminator. *)
Lemma readsmstxt_loop_line (l : list byte) :
  forall (fuel i : nat) (w : world),
    Forall (fun c => is_eol c = false) l ->
    incoming w l ->
    is_eol (rx w (rx_pos w + length l)) = true ->
    0 < smstext_pos w + length l ->
    i + length l < 150 -> length l < fuel ->
    smstext_pos w + length l < length (smstext w) ->
    smstext_pos w + length l < 256 ->
    readsmstxt_loop fuel i w =
    Ret tt
      (set_smstext (place (smstext w) (smstext_pos w) l)
         (set_smstext_pos 0 (set_rx_pos (rx_pos w + S (length l)) w))).
Proof.
  induction l as [|c l IH]; intros fuel i w Hl Hin Heol Hpos Hi Hf Hr H8;
    (destruct fuel as [|fuel]; [cbn in Hf; lia|]);
    unfold incoming in *; cbn [length] in *; cbn [readsmstxt_loop]; run.
  - rewrite Nat.add_0_r in Heol. rewrite Heol. cbn [negb andb]. run. fields.
    assert (E : (0 <? smstext_pos w) = true) by (apply Nat.ltb_lt; lia).
    rewrite E. run. fields. rewrite store_some by lia.
    rewrite place_nil. cbn [Nat.eqb andb].
    replace (rx_pos w + 1) with (S (rx_pos w)) by lia. reflexivity.
  - assert (Hc : is_eol (rx w (rx_pos w)) = false).
    { specialize (Hin 0 ltac:(lia)). rewrite Nat.add_0_r in Hin.
      cbn [nth] in Hin. rewrite Hin. now inversion Hl. }
    rewrite Hc. cbn [negb andb].
    assert (E : (i <? 150) = true) by (apply Nat.ltb_lt; lia).
    rewrite E. run. fields. rewrite store_some by lia. run. fields.
    cbn [Nat.eqb andb]. rewrite !u8_small by lia.
    assert (E2 : (i + 1 <? 150) = true) by (apply Nat.ltb_lt; lia).
    rewrite E2.
    replace (smstext_pos w + 1) with (S (smstext_pos w)) by lia.
    assert (Hc0 : rx w (rx_pos w) = c).
    { specialize (Hin 0 ltac:(lia)). rewrite Nat.add_0_r in Hin.
      exact Hin. }
    rewrite Hc0.
    rewrite IH; fields; try (rewrite length_upd by lia); try lia.
    + rewrite place_step by lia.
      replace (S (rx_pos w) + S (length l))
        with (rx_pos w + S (S (length l))) by lia.
      reflexivity.
    + now inversion Hl.
    + intros k Hk. specialize (Hin (S k) ltac:(lia)). cbn [nth] in Hin.
      rewrite <- Hin. f_equal. lia.
    + rewrite <- Heol. f_equal. f_equal. lia.
Qed.

(** Line-end bytes before the line are counted and dropped. *)
Lemma readsmstxt_loop_blank (e : nat) :
  forall (fuel i : nat) (w : world),
    smstext_pos w = 0 ->
    (forall k, k < e -> is_eol (rx w (rx_pos w + k)) = true) ->
    i + e < 150 -> e <= fuel ->
    readsmstxt_loop fuel i w =
    readsmstxt_loop (fuel - e) (i + e) (set_rx_pos (rx_pos w + e) w).
Proof.
  induction e as [|e IH]; intros fuel i w Hp He Hi Hf.
  - now rewrite !Nat.add_0_r, Nat.sub_0_r, set_rx_pos_same.
  - destruct fuel as [|fuel]; [lia|]. cbn [readsmstxt_loop Nat.sub]. run.
    assert (H0 := He 0 ltac:(lia)). rewrite Nat.add_0_r in H0.
    rewrite H0. cbn [negb andb]. run. fields. rewrite Hp.
    change (0 <? 0) with false. run. cbn [Nat.eqb andb].
    rewrite u8_small by lia.
    assert (E : (i + 1 <? 150) = true) by (apply Nat.ltb_lt; lia).
    rewrite E. rewrite IH; fields; try assumption; try lia.
    + replace (i + 1 + e) with (i + S e) by lia.
      replace (S (rx_pos w) + e) with (rx_pos w + S e) by lia.
      reflexivity.
    + intros k Hk. replace (S (rx_pos w) + k) with (rx_pos w + S k) by lia.
      apply He. lia.
Qed.

(** X5.  [readsmstxt] does for the SMS body
    what [readline] does for a reply: the line-end bytes before the body
    are dropped, the body is stored from [smstext[0]] on with a
    terminator behind it, the rest of the buffer keeps its contents, and
    the bytes up to and including the first line-end byte after the body
    are taken. *)
Theorem readsmstxt_stores_the_body (blank l : list byte) (c : byte)
    (w : world) :
  Forall (fun c => is_eol c = true) blank ->
  Forall (fun c => is_eol c = false) l ->
  is_eol c = true ->
  incoming w (blank ++ l ++ [c]) ->
  0 < length l -> length blank + length l < 150 ->
  length l < length (smstext w) ->
  readsmstxt w =
  Ret 1
    (set_smstext (l ++ NUL :: skipn (S (length l)) (smstext w))
       (set_smstext_pos 0
          (set_rx_pos (rx_pos w + length (blank ++ l ++ [c])) w))).
Proof.
  intros Hb Hl Hc Hin Hn Hlen Hr.
  apply incoming_app in Hin. destruct Hin as [Hin1 Hin2].
  apply incoming_app in Hin2. destruct Hin2 as [Hin2 Hin3].
  unfold readsmstxt. run.
  rewrite (readsmstxt_loop_blank (length blank)); fields; try lia.
  - rewrite (readsmstxt_loop_line l); fields; try lia; try assumption.
    + unfold place. cbn [firstn app Nat.add].
      rewrite !length_app. cbn [length].
      replace (rx_pos w + length blank + S (length l))
        with (rx_pos w + (length blank + (length l + 1))) by lia.
      reflexivity.
    + specialize (Hin3 0 ltac:(cbn; lia)). fields.
      rewrite Nat.add_0_r in Hin3. cbn [nth] in Hin3.
      rewrite Hin3. exact Hc.
  - apply incoming_eol; assumption.
Qed.

(** The body Single after the line feed that ends the notification. *)
Lemma readsmstxt_stores_the_body_witness :
  readsmstxt (boot (feed (LF :: line "Single") idle)) =
  Ret 1
    (set_smstext (holding "Single" digits170)
       (set_smstext_pos 0
          (set_rx_pos 8 (boot (feed (LF :: line "Single") idle))))).
Proof.
  refine (readsmstxt_stores_the_body [LF] (list_ascii_of_string "Single")
            CR (boot (feed (LF :: line "Single") idle)) _ _ _ _ _ _ _).
  - repeat constructor.
  - repeat constructor.
  - reflexivity.
  - intros k Hk. cbn in Hk.
    do 8 (destruct k as [|k]; [reflexivity|]). lia.
  - cbn. lia.
  - cbn. lia.
  - cbn. lia.
Defined.

(** ** The sender number: extraction and the line without a colon *)

Lemma load_app_l (a b : list byte) (j : nat) :
  j < length a -> load (a ++ b) j = load a j.
Proof. intros H. unfold load. now rewrite app_nth1. Qed.

Lemma load_app_r (a b : list byte) (j : nat) :
  load (a ++ b) (length a + j) = load b j.
Proof.
  unfold load. rewrite app_nth2 by lia. f_equal. lia.
Qed.

Lemma load_in (a : list byte) (j : nat) :
  j < length a -> In (load a j) a.
Proof. intros H. unfold load. now apply nth_In. Qed.

Lemma cells_app (a b c : list byte) :
  cells (a ++ b ++ c) (length a) (length b) = b.
Proof.
  unfold cells. apply nth_ext with (d := NUL) (d' := NUL).
  - now rewrite length_map, length_seq.
  - intros k Hk. rewrite length_map, length_seq in Hk.
    rewrite (nth_indep _ NUL (load (a ++ b ++ c) (length a + 0)))
      by (now rewrite length_map, length_seq).
    rewrite (map_nth (fun j => load (a ++ b ++ c) (length a + j))).
    rewrite seq_nth by assumption. cbn [Nat.add].
    rewrite load_app_r, load_app_l by assumption. reflexivity.
Qed.

(** A buffer written as its parts has the layout the parser relies on. *)
Lemma envelope_of_parts (pre mid num rest : list byte) :
  Forall (fun c => c <> ":"%char) pre ->
  Forall (fun c => c <> DQ) mid ->
  Forall (fun c => c <> DQ) num ->
  envelope (pre ++ ":"%char :: mid ++ DQ :: num ++ rest)
    (length pre) (length mid) (length num).
Proof.
  intros Hpre Hmid Hnum. rewrite Forall_forall in Hpre, Hmid, Hnum.
  unfold envelope. repeat split.
  - intros j Hj. rewrite load_app_l by assumption.
    apply Ascii.eqb_neq, Hpre, load_in, Hj.
  - rewrite <- (Nat.add_0_r (length pre)), load_app_r. reflexivity.
  - intros j Hj.
    replace (S (length pre) + j) with (length pre + S j) by lia.
    rewrite load_app_r. unfold load at 1. cbn [nth].
    fold (load (mid ++ DQ :: num ++ rest) j).
    rewrite load_app_l by assumption.
    apply Ascii.eqb_neq, Hmid, load_in, Hj.
  - replace (S (length pre) + length mid)
      with (length pre + S (length mid + 0)) by lia.
    rewrite load_app_r. unfold load at 1. cbn [nth].
    fold (load (mid ++ DQ :: num ++ rest) (length mid + 0)).
    rewrite load_app_r. reflexivity.
  - intros j Hj.
    replace (S (S (length pre)) + length mid + j)
      with (length pre + S (length mid + S j)) by lia.
    rewrite load_app_r. unfold load at 1. cbn [nth].
    fold (load (mid ++ DQ :: num ++ rest) (length mid + S j)).
    rewrite load_app_r. unfold load at 1. cbn [nth].
    fold (load (num ++ rest) j).
    rewrite load_app_l by assumption.
    apply Ascii.eqb_neq, Hnum, load_in, Hj.
Qed.

(** X6.  [readsmsphonenumber] on a buffer that
    reads [pre : mid "num" rest], with no colon in [pre] and no quote in
    [mid] and [num]: a number of at most 19 characters is copied to
    [phonenumber] and terminated there, the cells behind the terminator
    keep their contents, both cursors are back at 0, and the result is
    1.  Nothing is taken from the UART and the buffer is not changed. *)
Theorem sender_number_is_extracted (pre mid num rest : list byte)
    (w : world) :
  response w = pre ++ ":"%char :: mid ++ DQ :: num ++ DQ :: rest ->
  Forall (fun c => c <> ":"%char) pre ->
  Forall (fun c => c <> DQ) mid ->
  Forall (fun c => c <> DQ) num ->
  length num <= 19 ->
  length pre + length mid + length num + 2 < 150 ->
  length (phonenumber w) = 20 ->
  readsmsphonenumber w =
  Ret 1
    (set_phonenumber (num ++ NUL :: skipn (S (length num)) (phonenumber w))
       (set_phonenumber_pos 0 (set_response_pos 0 w))).
Proof.
  intros Hr Hpre Hmid Hnum Hn Hlen Hp.
  assert (E := envelope_of_parts pre mid num (DQ :: rest) Hpre Hmid Hnum).
  rewrite <- Hr in E.
  destruct (sender_number_fits_or_overruns w _ _ _ E Hp Hlen) as [F _].
  rewrite F; try assumption.
  - do 3 f_equal. rewrite Hr.
    replace (pre ++ ":"%char :: mid ++ DQ :: num ++ DQ :: rest)
      with ((pre ++ ":"%char :: mid ++ [DQ]) ++ num ++ DQ :: rest)
      by (rewrite <- !app_assoc; cbn [app]; rewrite <- !app_assoc;
          reflexivity).
    replace (S (S (length pre)) + length mid)
      with (length (pre ++ ":"%char :: mid ++ [DQ]))
      by (rewrite !length_app; cbn [length]; rewrite length_app;
          cbn [length]; lia).
    apply cells_app.
  - rewrite Hr.
    replace (S (S (length pre)) + length mid + length num)
      with (length pre + S (length mid + S (length num + 0))) by lia.
    rewrite load_app_r. unfold load at 1. cbn [nth].
    fold (load (mid ++ DQ :: num ++ DQ :: rest)
            (length mid + S (length num + 0))).
    rewrite load_app_r. unfold load at 1. cbn [nth].
    fold (load (num ++ DQ :: rest) (length num + 0)).
    rewrite load_app_r. reflexivity.
Qed.

(** The notification of a message from +48123456789. *)
Lemma sender_number_is_extracted_witness :
  let w :=
    set_response
      (list_ascii_of_string "+CMT" ++ ":"%char :: [" "%char] ++ DQ
         :: list_ascii_of_string "+48123456789" ++ DQ
         :: list_ascii_of_string ",,24/01/01,12:00:00+04" ++ [NUL])
      (boot idle) in
  readsmsphonenumber w =
  Ret 1
    (set_phonenumber (holding "+48123456789" (digits10 ++ digits10))
       (set_phonenumber_pos 0 (set_response_pos 0 w))).
Proof.
  refine (sender_number_is_extracted
            (list_ascii_of_string "+CMT") [" "%char]
            (list_ascii_of_string "+48123456789")
            (list_ascii_of_string ",,24/01/01,12:00:00+04" ++ [NUL])
            _ _ _ _ _ _ _ _).
  - reflexivity.
  - repeat constructor; discriminate.
  - repeat constructor; discriminate.
  - repeat constructor; discriminate.
  - cbn. lia.
  - cbn. lia.
  - reflexivity.
Defined.

(** The first loop when the byte it looks for is not among the cells it
    may read: it stops at [i = 150]. *)
Lemma skip_response_exhausts (stop : byte) (m : nat) :
  forall (fuel i : nat) (w : world),
    (forall j, j <= m ->
       Ascii.eqb (load (response w) (response_pos w + j)) stop = false) ->
    i + S m = 150 -> m < fuel -> response_pos w + S m < 256 ->
    skip_response fuel stop i w =
    Ret 150 (set_response_pos (response_pos w + S m) w).
Proof.
  induction m as [|m IH]; intros fuel i w Hpre Hi Hf Hp;
    (destruct fuel as [|fuel]; [lia|]); cbn [skip_response]; run; fields;
    assert (H0 := Hpre 0 ltac:(lia)); rewrite Nat.add_0_r in H0;
    rewrite H0; cbn [negb andb]; rewrite !u8_small by lia.
  - assert (E : (i + 1 <? 150) = false) by (apply Nat.ltb_ge; lia).
    rewrite E. replace (i + 1) with 150 by lia. reflexivity.
  - assert (E : (i + 1 <? 150) = true) by (apply Nat.ltb_lt; lia).
    rewrite E. rewrite IH; fields; try lia.
    + replace (response_pos w + 1 + S m)
        with (response_pos w + S (S m)) by lia.
      reflexivity.
    + intros j Hj. replace (response_pos w + 1 + j)
        with (response_pos w + S j) by lia. apply Hpre. lia.
Qed.

(** X7.  When the first 150 cells of the
    buffer hold no colon, [readsmsphonenumber] still returns 1: each of
    the two loops that follow runs once, one byte is copied to
    [phonenumber[0]] and overwritten by the terminator, and the sender
    number is the empty string. *)
Theorem sender_is_empty_without_colon (w : world) :
  (forall j, j < 150 -> load (response w) j <> ":"%char) ->
  0 < length (phonenumber w) ->
  readsmsphonenumber w =
  Ret 1
    (set_phonenumber (NUL :: skipn 1 (phonenumber w))
       (set_phonenumber_pos 0 (set_response_pos 0 w))) /\
  cstr (NUL :: skipn 1 (phonenumber w)) = [].
Proof.
  intros Hc Hp. split; [|reflexivity].
  unfold readsmsphonenumber. run.
  rewrite (skip_response_exhausts ":"%char 149); fields; try lia.
  - cbv beta iota. cbn [skip_response]. run. fields.
    rewrite andb_false_r.
    cbn [copy_number]. run. fields.
    rewrite store_some by lia. run. fields.
    rewrite andb_false_r. run. fields.
    change (u8 (0 + 1) - 1) with 0.
    rewrite store_some by (rewrite length_upd; lia).
    unfold upd. cbn [firstn app skipn].
    destruct (phonenumber w) as [|p0 p]; [cbn in Hp; lia|].
    reflexivity.
  - intros j Hj. apply Ascii.eqb_neq, Hc. lia.
Qed.

(** A buffer that holds the line OK and, behind it, the digits it was
    initialised with. *)
Lemma sender_is_empty_without_colon_witness :
  let w := set_response (holding "OK" digits170) (boot idle) in
  readsmsphonenumber w =
  Ret 1
    (set_phonenumber (NUL :: skipn 1 (phonenumber w))
       (set_phonenumber_pos 0 (set_response_pos 0 w))) /\
  cstr (NUL :: skipn 1 (phonenumber w)) = [].
Proof.
  refine (sender_is_empty_without_colon
            (set_response (holding "OK" digits170) (boot idle)) _ _).
  - intros j Hj.
    do 150 (destruct j as [|j]; [discriminate|]). lia.
  - cbn. lia.
Defined.

(** ** Fields read from the UART *)

(** The skipping loop finds the byte it looks for [n] bytes ahead. *)
Lemma skip_uart_finds (stop : byte) (lim n : nat) :
  forall (fuel i : nat) (w : world),
    (forall k, k < n -> rx w (rx_pos w + k) <> stop) ->
    rx w (rx_pos w + n) = stop ->
    i + n < lim -> lim <= 255 -> n < fuel ->
    skip_uart fuel stop lim i w =
    Ret (i + S n) (set_rx_pos (rx_pos w + S n) w).
Proof.
  induction n as [|n IH]; intros fuel i w Hpre Hstop Hi Hl Hf;
    (destruct fuel as [|fuel]; [lia|]); cbn [skip_uart]; run; fields.
  - rewrite Nat.add_0_r in Hstop. rewrite Hstop, Ascii.eqb_refl.
    cbn [negb andb]. rewrite u8_small by lia. rewrite !Nat.add_1_r.
    reflexivity.
  - assert (H0 := Hpre 0 ltac:(lia)). rewrite Nat.add_0_r in H0.
    apply Ascii.eqb_neq in H0. rewrite H0. cbn [negb andb].
    rewrite u8_small by lia.
    assert (E : (i + 1 <? lim) = true) by (apply Nat.ltb_lt; lia).
    rewrite E. rewrite IH; fields; try lia.
    + replace (S (rx_pos w) + S n) with (rx_pos w + S (S n)) by lia.
      replace (i + 1 + S n) with (i + S (S n)) by lia.
      reflexivity.
    + intros k Hk. replace (S (rx_pos w) + k) with (rx_pos w + S k) by lia.
      apply Hpre. lia.
    + replace (S (rx_pos w) + n) with (rx_pos w + S n) by lia.
      exact Hstop.
Qed.

(** It gives up when the counter reaches the limit, whatever the byte
    read last. *)
Lemma skip_uart_exhausts (stop : byte) (lim m : nat) :
  forall (fuel i : nat) (w : world),
    (forall k, k < m -> rx w (rx_pos w + k) <> stop) ->
    i + S m = lim -> lim <= 255 -> m < fuel ->
    skip_uart fuel stop lim i w =
    Ret lim (set_rx_pos (rx_pos w + S m) w).
Proof.
  induction m as [|m IH]; intros fuel i w Hpre Hi Hl Hf;
    (destruct fuel as [|fuel]; [lia|]); cbn [skip_uart]; run; fields;
    rewrite u8_small by lia.
  - assert (E : (i + 1 <? lim) = false) by (apply Nat.ltb_ge; lia).
    rewrite E, andb_false_r. rewrite !Nat.add_1_r.
    replace (S i) with lim by lia. reflexivity.
  - assert (H0 := Hpre 0 ltac:(lia)). rewrite Nat.add_0_r in H0.
    apply Ascii.eqb_neq in H0. rewrite H0. cbn [negb andb].
    assert (E : (i + 1 <? lim) = true) by (apply Nat.ltb_lt; lia).
    rewrite E. rewrite IH; fields; try lia.
    + replace (S (rx_pos w) + S m) with (rx_pos w + S (S m)) by lia.
      reflexivity.
    + intros k Hk. replace (S (rx_pos w) + k) with (rx_pos w + S k) by lia.
      apply Hpre. lia.
Qed.

(** The copying loop, for any global array and its cursor. *)
Section FieldReader.

Variable name : string.
Variable g : world -> array.
Variable set : array -> world -> world.
Variable gpos : world -> nat.
Variable setpos : nat -> world -> world.

Hypothesis g_rx : forall s w, g (set_rx_pos s w) = g w.
Hypothesis gpos_rx : forall s w, gpos (set_rx_pos s w) = gpos w.
Hypothesis g_upd :
  forall p a s w, g (setpos p (set a (set_rx_pos s w))) = a.
Hypothesis gpos_upd :
  forall p a s w, gpos (setpos p (set a (set_rx_pos s w))) = p.
Hypothesis rx_pos_upd :
  forall p a s w, rx_pos (setpos p (set a (set_rx_pos s w))) = s.
Hypothesis rx_upd :
  forall p a s w, rx (setpos p (set a (set_rx_pos s w))) = rx w.
Hypothesis upd_upd :
  forall p a s p' a' s' w,
    setpos p (set a (set_rx_pos s (setpos p' (set a' (set_rx_pos s' w)))))
    = setpos p (set a (set_rx_pos s w)).

(** The bytes of [l], none of which ends the field, and the byte [c]
    that ends it are all stored. *)
Lemma copy_uart_copies (stops : list byte) (lim : nat) (l : list byte) :
  forall (c : byte) (fuel i : nat) (w : world),
    Forall (fun x => existsb (Ascii.eqb x) stops = false) l ->
    existsb (Ascii.eqb c) stops = true ->
    incoming w (l ++ [c]) ->
    i + length l < lim -> lim <= 255 -> length l < fuel ->
    gpos w + length l < length (g w) ->
    gpos w + length l < 255 ->
    copy_uart fuel name g set gpos setpos stops lim i w =
    Ret (i + S (length l))
      (setpos (gpos w + S (length l))
         (set (firstn (gpos w) (g w) ++ l
                 ++ c :: skipn (gpos w + S (length l)) (g w))
            (set_rx_pos (rx_pos w + S (length l)) w))).
Proof.
  induction l as [|d l IH]; intros c fuel i w Hl Hc Hin Hi Hlim Hf Hg H8;
    unfold incoming in *; cbn [length app] in *;
    (destruct fuel as [|fuel]; [lia|]); cbn [copy_uart]; run;
    rewrite gpos_rx, g_rx;
    assert (H0 := Hin 0 ltac:(lia)); rewrite Nat.add_0_r in H0;
    cbn [nth] in H0; rewrite H0;
    rewrite store_some by lia; rewrite !u8_small by lia.
  - rewrite Hc. cbn [negb andb]. rewrite !Nat.add_1_r. reflexivity.
  - assert (Hd : existsb (Ascii.eqb d) stops = false)
      by (now inversion Hl).
    rewrite Hd. cbn [negb andb].
    assert (E : (i + 1 <? lim) = true) by (apply Nat.ltb_lt; lia).
    rewrite E.
    rewrite (IH c); rewrite ?g_upd, ?gpos_upd, ?rx_pos_upd, ?rx_upd;
      try (rewrite length_upd by lia); try lia; try assumption.
    + rewrite upd_upd. rewrite !Nat.add_1_r.
      rewrite firstn_upd by lia. rewrite skipn_upd by lia.
      rewrite <- app_assoc. cbn [app].
      replace (S (gpos w) + S (length l))
        with (gpos w + S (S (length l))) by lia.
      replace (S (rx_pos w) + S (length l))
        with (rx_pos w + S (S (length l))) by lia.
      replace (S i + S (length l)) with (i + S (S (length l))) by lia.
      reflexivity.
    + now inversion Hl.
    + intros k Hk. rewrite ?rx_pos_upd, ?rx_upd.
      specialize (Hin (S k) ltac:(rewrite length_app in *; cbn in *; lia)).
      change (nth (S k) (d :: l ++ [c]) NUL) with (nth k (l ++ [c]) NUL)
        in Hin.
      rewrite <- Hin. f_equal. lia.
Qed.

(** When the bytes of the field alone fill the array to its end, the
    store of the next byte, whatever it is, falls outside. *)
Lemma copy_uart_overruns (stops : list byte) (lim : nat) (l : list byte) :
  forall (fuel i : nat) (w : world),
    Forall (fun x => existsb (Ascii.eqb x) stops = false) l ->
    incoming w l ->
    i + length l < lim -> lim <= 255 -> length l < fuel ->
    gpos w + length l = length (g w) ->
    gpos w + length l < 255 ->
    copy_uart fuel name g set gpos setpos stops lim i w =
    OutOfBounds name (length (g w)).
Proof.
  induction l as [|d l IH]; intros fuel i w Hl Hin Hi Hlim Hf Hg H8;
    unfold incoming in *; cbn [length app] in *;
    (destruct fuel as [|fuel]; [lia|]); cbn [copy_uart]; run;
    rewrite gpos_rx, g_rx.
  - unfold store. rewrite Nat.add_0_r in Hg.
    assert (E : (gpos w <? length (g w)) = false)
      by (apply Nat.ltb_ge; lia).
    rewrite E, Hg. reflexivity.
  - assert (H0 := Hin 0 ltac:(lia)); rewrite Nat.add_0_r in H0;
    cbn [nth] in H0; rewrite H0;
    rewrite store_some by lia; rewrite !u8_small by lia.
    assert (Hd : existsb (Ascii.eqb d) stops = false)
      by (now inversion Hl).
    rewrite Hd. cbn [negb andb].
    assert (E : (i + 1 <? lim) = true) by (apply Nat.ltb_lt; lia).
    rewrite E.
    rewrite IH; rewrite ?g_upd, ?gpos_upd, ?rx_pos_upd, ?rx_upd;
      try (rewrite length_upd by lia); try lia; try assumption.
    + reflexivity.
    + now inversion Hl.
    + intros k Hk. rewrite ?rx_pos_upd, ?rx_upd.
      specialize (Hin (S k) ltac:(lia)).
      change (nth (S k) (d :: l) NUL) with (nth k l NUL) in Hin.
      rewrite <- Hin. f_equal. lia.
Qed.

(** The same on a segment that ends with the only byte that ends the
    field; what follows the segment is what arrives next. *)
Lemma copy_uart_segment (stop : ascii) (lim : nat) (l rest : list byte)
    (fuel i : nat) (w : world) :
  Forall (fun x => x <> stop) l ->
  incoming w (l ++ stop :: rest) ->
  i + length l < lim -> lim <= 255 -> length l < fuel ->
  gpos w + length l < length (g w) ->
  gpos w + length l < 255 ->
  let w' :=
    setpos (gpos w + S (length l))
      (set (firstn (gpos w) (g w) ++ l
              ++ stop :: skipn (gpos w + S (length l)) (g w))
         (set_rx_pos (rx_pos w + S (length l)) w)) in
  copy_uart fuel name g set gpos setpos [stop] lim i w =
  Ret (i + S (length l)) w' /\
  incoming w' rest.
Proof.
  intros Hl Hin Hi Hlim Hf Hg H8 w'. subst w'.
  replace (l ++ stop :: rest) with ((l ++ [stop]) ++ rest) in Hin
    by (now rewrite <- app_assoc).
  apply incoming_app in Hin. destruct Hin as [Hin1 Hin2]. split.
  - apply copy_uart_copies; try assumption.
    + revert Hl. apply Forall_impl. intros x Hx. cbn [existsb].
      rewrite orb_false_r. now apply Ascii.eqb_neq.
    + cbn [existsb]. now rewrite Ascii.eqb_refl.
  - unfold incoming in *. intros k Hk.
    rewrite rx_pos_upd, rx_upd. rewrite <- Hin2 by assumption.
    fields. rewrite length_app. cbn [length]. f_equal. lia.
Qed.

End FieldReader.

(** ** The battery voltage *)

Lemma incoming_cons (w : world) (c : byte) (l : list byte) :
  incoming w (c :: l) ->
  rx w (rx_pos w) = c /\ incoming (set_rx_pos (S (rx_pos w)) w) l.
Proof.
  unfold incoming. intros H. split.
  - specialize (H 0 ltac:(cbn; lia)). now rewrite Nat.add_0_r in H.
  - intros k Hk. fields. specialize (H (S k) ltac:(cbn; lia)).
    cbn [nth] in H. rewrite <- H. f_equal. lia.
Qed.

Lemma incoming_same (w w' : world) (l : list byte) :
  rx w' = rx w -> rx_pos w' = rx_pos w -> incoming w l -> incoming w' l.
Proof. unfold incoming. intros -> ->. auto. Qed.

(** The skipping loop on a segment that ends with the byte looked for. *)
Lemma skip_uart_segment (stop : byte) (lim : nat) (pre rest : list byte)
    (fuel i : nat) (w : world) :
  Forall (fun x => x <> stop) pre ->
  incoming w (pre ++ stop :: rest) ->
  i + length pre < lim -> lim <= 255 -> length pre < fuel ->
  skip_uart fuel stop lim i w =
  Ret (i + S (length pre)) (set_rx_pos (rx_pos w + S (length pre)) w) /\
  incoming (set_rx_pos (rx_pos w + S (length pre)) w) rest.
Proof.
  intros Hpre Hin Hi Hl Hf.
  apply incoming_app in Hin. destruct Hin as [Hin1 Hin2].
  apply incoming_cons in Hin2. destruct Hin2 as [Hc Hin2]. fields.
  split.
  - apply skip_uart_finds; try assumption.
    intros k Hk. rewrite Hin1 by assumption.
    rewrite Forall_forall in Hpre. apply Hpre. now apply nth_In.
  - eapply incoming_same; [| |exact Hin2]; fields; [reflexivity|lia].
Qed.

Lemma stops_eol (x : byte) : existsb (Ascii.eqb x) [LF; CR] = is_eol x.
Proof. unfold is_eol. cbn [existsb]. now rewrite orb_false_r. Qed.

Lemma Forall_stops_eol (l : list byte) :
  Forall (fun x => is_eol x = false) l ->
  Forall (fun x => existsb (Ascii.eqb x) [LF; CR] = false) l.
Proof.
  apply Forall_impl. intros x H. now rewrite stops_eol.
Qed.

(** X8.  [readbattery] on a reply that
    reads [pre , mid , field] and a line-end byte, with no comma in
    [pre] and [mid] and fewer than 70 bytes up to the line end: the
    third field is copied to [battery] and terminated there, what
    follows the terminator keeps its contents, the bytes of the reply
    are taken up to and including the line-end byte, and the result is
    1.  The field has to leave room for the byte that ends it. *)
Theorem readbattery_extracts_the_voltage (pre mid field : list byte)
    (c : byte) (w : world) :
  Forall (fun x => x <> ","%char) pre ->
  Forall (fun x => x <> ","%char) mid ->
  Forall (fun x => is_eol x = false) field ->
  is_eol c = true ->
  incoming w (pre ++ ","%char :: mid ++ ","%char :: field ++ [c]) ->
  length pre + length mid + length field + 2 < 70 ->
  length field < length (battery w) ->
  readbattery w =
  Ret 1
    (set_battery (field ++ NUL :: skipn (S (length field)) (battery w))
       (set_battery_pos 0
          (set_rx_pos
             (rx_pos w
              + length (pre ++ ","%char :: mid ++ ","%char :: field ++ [c]))
             w))).
Proof.
  intros Hpre Hmid Hfield Hc Hin Hlen Hb.
  unfold readbattery. run.
  destruct (skip_uart_segment ","%char 70 pre
              (mid ++ ","%char :: field ++ [c]) 70 0
              (set_battery_pos 0 w) Hpre) as [E1 In1]; try lia.
  { eapply incoming_same; [| |exact Hin]; fields; reflexivity. }
  rewrite E1. cbv beta iota. fields.
  assert (N : (0 + S (length pre) =? 70) = false)
    by (apply Nat.eqb_neq; lia).
  rewrite N.
  destruct (skip_uart_segment ","%char 70 mid _ 70 (0 + S (length pre))
              _ Hmid In1) as [E2 In2]; try lia.
  rewrite E2. cbv beta iota. fields.
  rewrite (copy_uart_copies "battery" battery set_battery battery_pos
             set_battery_pos ltac:(reflexivity) ltac:(reflexivity)
             ltac:(reflexivity) ltac:(reflexivity) ltac:(reflexivity)
             ltac:(reflexivity) ltac:(reflexivity) [LF; CR] 70 field c);
    fields; try lia; try assumption.
  - cbv beta iota. fields.
    rewrite Nat.add_0_l, Nat.sub_succ, Nat.sub_0_r.
    rewrite store_some.
    + assert (Lf : length field <= length field) by lia.
      unfold upd. cbn [firstn app].
      rewrite firstn_app, Nat.sub_diag, firstn_all. cbn [firstn].
      rewrite app_nil_r.
      rewrite skipn_app, skipn_all2 by lia.
      replace (S (length field) - length field) with 1 by lia.
      cbn [skipn app].
      repeat (rewrite length_app; cbn [length]).
      replace (rx_pos w + S (length pre) + S (length mid)
               + S (length field))
        with (rx_pos w
              + (length pre + S (length mid + S (length field + 1))))
        by lia.
      reflexivity.
    + cbn [firstn app]. rewrite length_app. cbn [length].
      rewrite length_skipn. lia.
  - now apply Forall_stops_eol.
  - now rewrite stops_eol.
Qed.

(** The reply to [AT+CBC] of a battery at 3950 mV. *)
Lemma readbattery_extracts_the_voltage_witness :
  let w := boot (feed (CR :: LF :: line "+CBC: 0,85,3950") idle) in
  readbattery w =
  Ret 1
    (set_battery (holding "3950" (fill 10 "0"%char))
       (set_battery_pos 0 (set_rx_pos 18 w))).
Proof.
  refine (readbattery_extracts_the_voltage
            (CR :: LF :: list_ascii_of_string "+CBC: 0")
            (list_ascii_of_string "85") (list_ascii_of_string "3950") CR
            (boot (feed (CR :: LF :: line "+CBC: 0,85,3950") idle))
            _ _ _ _ _ _ _).
  - repeat constructor; discriminate.
  - repeat constructor; discriminate.
  - repeat constructor.
  - reflexivity.
  - intros k Hk. cbn in Hk.
    do 18 (destruct k as [|k]; [reflexivity|]). lia.
  - cbn. lia.
  - cbn. lia.
Defined.

(** X9.  Unless a comma is among
    the first 69 bytes that arrive, [readbattery] returns 0 after taking
    exactly 70 bytes, and [battery] is left as it was. *)
Theorem readbattery_gives_up_without_comma (w : world) :
  (forall k, k < 69 -> rx w (rx_pos w + k) <> ","%char) ->
  readbattery w =
  Ret 0 (set_rx_pos (rx_pos w + 70) (set_battery_pos 0 w)).
Proof.
  intros H. unfold readbattery. run.
  rewrite (skip_uart_exhausts ","%char 70 69); fields; try lia;
    try assumption.
  reflexivity.
Qed.

(** A modem that answers with carriage returns only. *)
Lemma readbattery_gives_up_without_comma_witness :
  readbattery (boot idle) =
  Ret 0 (set_rx_pos 70 (set_battery_pos 0 (boot idle))).
Proof.
  refine (readbattery_gives_up_without_comma (boot idle) _).
  intros k Hk. discriminate.
Defined.

(** X10.  Nothing bounds the length of the
    field: when ten bytes arrive behind the second comma and none of
    them ends the line, the eleventh store is at [battery[10]], outside
    the array. *)
Theorem readbattery_overruns_battery (pre mid field : list byte)
    (w : world) :
  Forall (fun x => x <> ","%char) pre ->
  Forall (fun x => x <> ","%char) mid ->
  Forall (fun x => is_eol x = false) field ->
  incoming w (pre ++ ","%char :: mid ++ ","%char :: field) ->
  length pre + length mid + length field + 2 < 70 ->
  length field = length (battery w) ->
  readbattery w = OutOfBounds "battery" (length (battery w)).
Proof.
  intros Hpre Hmid Hfield Hin Hlen Hb.
  unfold readbattery. run.
  destruct (skip_uart_segment ","%char 70 pre
              (mid ++ ","%char :: field) 70 0
              (set_battery_pos 0 w) Hpre) as [E1 In1]; try lia.
  { eapply incoming_same; [| |exact Hin]; fields; reflexivity. }
  rewrite E1. cbv beta iota. fields.
  assert (N : (0 + S (length pre) =? 70) = false)
    by (apply Nat.eqb_neq; lia).
  rewrite N.
  destruct (skip_uart_segment ","%char 70 mid _ 70 (0 + S (length pre))
              _ Hmid In1) as [E2 In2]; try lia.
  rewrite E2. cbv beta iota. fields.
  rewrite (copy_uart_overruns "battery" battery set_battery battery_pos
             set_battery_pos ltac:(reflexivity) ltac:(reflexivity)
             ltac:(reflexivity) ltac:(reflexivity) ltac:(reflexivity)
             ltac:(reflexivity) [LF; CR] 70 field);
    fields; try lia; try assumption.
  - reflexivity.
  - now apply Forall_stops_eol.
Qed.

(** A reply whose third field has ten digits. *)
Lemma readbattery_overruns_battery_witness :
  readbattery (boot (feed (line "+CBC: 0,85,3950000000") idle)) =
  OutOfBounds "battery" 10.
Proof.
  refine (readbattery_overruns_battery
            (list_ascii_of_string "+CBC: 0")
            (list_ascii_of_string "85")
            (list_ascii_of_string "3950000000")
            (boot (feed (line "+CBC: 0,85,3950000000") idle))
            _ _ _ _ _ _).
  - repeat constructor; discriminate.
  - repeat constructor; discriminate.
  - repeat constructor.
  - intros k Hk. cbn in Hk.
    do 21 (destruct k as [|k]; [reflexivity|]). lia.
  - cbn. lia.
  - reflexivity.
Defined.

(** ** The position reply *)

Lemma upd_field (l : list byte) (c d : byte) (t : list byte) :
  upd (l ++ c :: t) (length l) d = l ++ d :: t.
Proof.
  unfold upd. rewrite firstn_app, Nat.sub_diag, firstn_all.
  cbn [firstn]. rewrite app_nil_r.
  rewrite skipn_app, skipn_all2 by lia.
  replace (S (length l) - length l) with 1 by lia. reflexivity.
Qed.

(** One skipping loop of a reader, on the segment [l] that arrives next:
    the call is replaced by its result and [Hin] becomes the statement
    about what arrives after the segment. *)
Ltac skip_segment l Hl Hin :=
  let E := fresh "E" in
  let Hin' := fresh "Hin" in
  match goal with
  | |- context [skip_uart ?fuel ?stop ?lim ?i ?w0] =>
      destruct (skip_uart_segment stop lim l _ fuel i w0 Hl
                  ltac:(eapply incoming_same; [| |exact Hin]; fields; reflexivity))
        as [E Hin']; [lia | lia | lia |];
      rewrite E; clear E Hin; rename Hin' into Hin; cbv beta iota
  end.

(** X11.  [readSIM7000gps] sends the
    position query and, on a reply [pre : f1 , f2 , f3 , lat , lon , alt ,]
    whose colon is among the first 19 bytes and which has at most 150
    bytes, copies the fourth field to [latitude] and the fifth to
    [longtitude], each with a terminator behind it, keeps the cells
    behind the terminators, takes the bytes of the reply up to the comma
    that ends the sixth field, and returns 1. *)
Theorem readSIM7000gps_extracts_position
    (pre f1 f2 f3 lat lon alt : list byte) (w : world) :
  Forall (fun x => x <> ":"%char) pre ->
  Forall (fun x => x <> ","%char) f1 ->
  Forall (fun x => x <> ","%char) f2 ->
  Forall (fun x => x <> ","%char) f3 ->
  Forall (fun x => x <> ","%char) lat ->
  Forall (fun x => x <> ","%char) lon ->
  Forall (fun x => x <> ","%char) alt ->
  incoming w
    (pre ++ ":"%char :: f1 ++ ","%char :: f2 ++ ","%char :: f3
       ++ ","%char :: lat ++ ","%char :: lon ++ ","%char :: alt
       ++ [","%char]) ->
  length pre < 19 ->
  length pre + length f1 + length f2 + length f3 + length lat
    + length lon + length alt + 7 <= 150 ->
  length lat < length (latitude w) ->
  length lon < length (longtitude w) ->
  readSIM7000gps w =
  Ret 1
    (set_longtitude (lon ++ NUL :: skipn (S (length lon)) (longtitude w))
       (set_latitude (lat ++ NUL :: skipn (S (length lat)) (latitude w))
          (set_rx_pos
             (rx_pos w + (length pre + length f1 + length f2 + length f3
                          + length lat + length lon + length alt + 7))
             (set_trace (trace w ++ [Tx (cstr GPSINFO)])
                (set_latitude_pos 0 (set_longtitude_pos 0 w)))))).
Proof.
  intros Hpre Hf1 Hf2 Hf3 Hlat Hlon Halt Hin Hp Hlen Hla Hlo.
  unfold readSIM7000gps. run.
  skip_segment pre Hpre Hin. fields.
  assert (N : (0 + S (length pre) =? 20) = false)
    by (apply Nat.eqb_neq; lia).
  rewrite N.
  skip_segment f1 Hf1 Hin. fields.
  skip_segment f2 Hf2 Hin. fields.
  skip_segment f3 Hf3 Hin. fields.
  match goal with
  | |- context [copy_uart 150 "latitude" _ _ _ _ _ 150 ?i ?w0] =>
      destruct (copy_uart_segment "latitude" latitude set_latitude
                  latitude_pos set_latitude_pos ltac:(reflexivity)
                  ltac:(reflexivity) ltac:(reflexivity) ltac:(reflexivity)
                  ltac:(reflexivity) ltac:(reflexivity) ltac:(reflexivity)
                  ","%char 150 lat _ 150 i w0 Hlat Hin) as [E In4];
        try (fields; lia)
  end.
  rewrite E. clear E Hin. cbv beta iota. fields.
  rewrite Nat.add_0_l, Nat.sub_succ, Nat.sub_0_r.
  cbn [firstn app]. rewrite store_some
    by (rewrite length_app; cbn [length]; rewrite length_skipn; lia).
  rewrite upd_field. fields.
  match goal with
  | |- context [copy_uart 150 "longtitude" _ _ _ _ _ 150 ?i ?w0] =>
      destruct (copy_uart_segment "longtitude" longtitude set_longtitude
                  longtitude_pos set_longtitude_pos ltac:(reflexivity)
                  ltac:(reflexivity) ltac:(reflexivity) ltac:(reflexivity)
                  ltac:(reflexivity) ltac:(reflexivity) ltac:(reflexivity)
                  ","%char 150 lon (alt ++ [","%char]) 150 i w0 Hlon)
        as [E In5]; try (fields; lia)
  end.
  { eapply incoming_same; [| |exact In4]; fields; reflexivity. }
  rewrite E. clear E In4. cbv beta iota. fields.
  rewrite Nat.add_0_l, Nat.sub_succ, Nat.sub_0_r.
  cbn [firstn app]. rewrite store_some
    by (rewrite length_app; cbn [length]; rewrite length_skipn; lia).
  rewrite upd_field. fields.
  match goal with
  | |- context [skip_uart 150 _ 150 ?i ?w0] =>
      destruct (skip_uart_segment ","%char 150 alt [] 150 i w0 Halt)
        as [E _]; try (fields; lia)
  end.
  { eapply incoming_same; [| |exact In5]; fields; reflexivity. }
  rewrite E. cbv beta iota. fields.
  replace (rx_pos w + S (length pre) + S (length f1) + S (length f2)
           + S (length f3) + S (length lat) + S (length lon)
           + S (length alt))
    with (rx_pos w + (length pre + length f1 + length f2 + length f3
                      + length lat + length lon + length alt + 7))
    by lia.
  reflexivity.
Qed.

(** A reply with a fix at 52.229676 N 21.012229 E. *)
Lemma readSIM7000gps_extracts_position_witness :
  let reply :=
    CR :: LF ::
      line "+CGNSINF: 1,1,20240101120000.000,52.229676,21.012229,113.5,0.0"
  in
  let w := boot (feed reply idle) in
  readSIM7000gps w =
  Ret 1
    (set_longtitude (coordinate "21.012229")
       (set_latitude (coordinate "52.229676")
          (set_rx_pos 61
             (set_trace [Tx (cstr GPSINFO)]
                (set_latitude_pos 0 (set_longtitude_pos 0 w)))))).
Proof.
  intros reply w.
  assert (H := readSIM7000gps_extracts_position
                 (CR :: LF :: list_ascii_of_string "+CGNSINF")
                 (list_ascii_of_string " 1") (list_ascii_of_string "1")
                 (list_ascii_of_string "20240101120000.000")
                 (list_ascii_of_string "52.229676")
                 (list_ascii_of_string "21.012229")
                 (list_ascii_of_string "113.5") w).
  repeat match type of H with
         | Forall _ _ -> _ =>
             specialize (H ltac:(repeat constructor; discriminate))
         end.
  specialize (H ltac:(intros k Hk; cbn in Hk;
                      do 61 (destruct k as [|k]; [reflexivity|]); lia)).
  repeat match type of H with
         | _ -> _ => specialize (H ltac:(cbn; lia))
         end.
  vm_compute in H. vm_compute. exact H.
Defined.

(** X12.  Unless a colon is among
    the first 19 bytes that arrive after the query, [readSIM7000gps]
    returns 0 after taking exactly 20 bytes; [latitude] and
    [longtitude] are left as they were. *)
Theorem readSIM7000gps_gives_up_without_colon (w : world) :
  (forall k, k < 19 -> rx w (rx_pos w + k) <> ":"%char) ->
  readSIM7000gps w =
  Ret 0
    (set_rx_pos (rx_pos w + 20)
       (set_trace (trace w ++ [Tx (cstr GPSINFO)])
          (set_latitude_pos 0 (set_longtitude_pos 0 w)))).
Proof.
  intros H. unfold readSIM7000gps. run.
  rewrite (skip_uart_exhausts ":"%char 20 19); fields; try lia;
    try assumption.
  reflexivity.
Qed.

(** The colon of the reply arrives as the twentieth byte: too late. *)
Lemma readSIM7000gps_gives_up_without_colon_witness :
  let w :=
    boot (feed (list_ascii_of_string "OK" ++ CR :: LF :: CR :: LF :: CR
                  :: LF :: CR :: LF :: CR
                  :: line "+CGNSINF: 1,1,,52.229676,21.012229,113.5,")
            idle) in
  readSIM7000gps w =
  Ret 0
    (set_rx_pos 20
       (set_trace [Tx (cstr GPSINFO)]
          (set_latitude_pos 0 (set_longtitude_pos 0 w)))).
Proof.
  refine (readSIM7000gps_gives_up_without_colon _ _).
  intros k Hk. do 19 (destruct k as [|k]; [discriminate|]). lia.
Defined.

(** X13.  Nothing bounds the length of
    the latitude field by the size of [latitude]: when the fourth field
    of the reply has as many bytes as the array has cells and no comma
    among them, the next store is one cell past its end. *)
Theorem readSIM7000gps_overruns_latitude (pre f1 f2 f3 lat : list byte)
    (w : world) :
  Forall (fun x => x <> ":"%char) pre ->
  Forall (fun x => x <> ","%char) f1 ->
  Forall (fun x => x <> ","%char) f2 ->
  Forall (fun x => x <> ","%char) f3 ->
  Forall (fun x => x <> ","%char) lat ->
  incoming w
    (pre ++ ":"%char :: f1 ++ ","%char :: f2 ++ ","%char :: f3
       ++ ","%char :: lat) ->
  length pre < 19 ->
  length pre + length f1 + length f2 + length f3 + length lat + 4 < 150 ->
  length lat = length (latitude w) ->
  readSIM7000gps w = OutOfBounds "latitude" (length (latitude w)).
Proof.
  intros Hpre Hf1 Hf2 Hf3 Hlat Hin Hp Hlen Hla.
  unfold readSIM7000gps. run.
  skip_segment pre Hpre Hin. fields.
  assert (N : (0 + S (length pre) =? 20) = false)
    by (apply Nat.eqb_neq; lia).
  rewrite N.
  skip_segment f1 Hf1 Hin. fields.
  skip_segment f2 Hf2 Hin. fields.
  skip_segment f3 Hf3 Hin. fields.
  rewrite (copy_uart_overruns "latitude" latitude set_latitude latitude_pos
             set_latitude_pos ltac:(reflexivity) ltac:(reflexivity)
             ltac:(reflexivity) ltac:(reflexivity) ltac:(reflexivity)
             ltac:(reflexivity) [","%char] 150 lat);
    fields; try lia; try assumption.
  - reflexivity.
  - revert Hlat. apply Forall_impl. intros x Hx. cbn [existsb].
    rewrite orb_false_r. now apply Ascii.eqb_neq.
Qed.

(** A reply whose latitude field has twenty characters. *)
Lemma readSIM7000gps_overruns_latitude_witness :
  readSIM7000gps
    (boot (feed (line "+CGNSINF: 1,1,,52.22967600000000000,21.0,") idle))
  = OutOfBounds "latitude" 20.
Proof.
  refine (readSIM7000gps_overruns_latitude
            (list_ascii_of_string "+CGNSINF")
            (list_ascii_of_string " 1") (list_ascii_of_string "1") []
            (list_ascii_of_string "52.22967600000000000")
            (boot (feed (line "+CGNSINF: 1,1,,52.22967600000000000,21.0,")
                     idle))
            _ _ _ _ _ _ _ _ _).
  - repeat constructor; discriminate.
  - repeat constructor; discriminate.
  - repeat constructor; discriminate.
  - constructor.
  - repeat constructor; discriminate.
  - intros k Hk. cbn in Hk.
    do 35 (destruct k as [|k]; [reflexivity|]). lia.
  - cbn. lia.
  - cbn. lia.
  - reflexivity.
Defined.

(** ** The copies of [INITLOC] *)

Lemma take_fix_overruns (w : world) :
  length (latitudegps w) < length INITLOC ->
  take_fix w = OutOfBounds "latitudegps" (length (latitudegps w)).
Proof.
  intros H. unfold take_fix, memcpy, bind.
  apply Nat.leb_gt in H. now rewrite H.
Qed.

(** A check leaves the position buffers alone. *)
Lemma fix_check_keeps_latitudegps (w w1 : world) (b : bool) :
  fix_check w = Ret b w1 -> latitudegps w1 = latitudegps w.
Proof.
  unfold fix_check. run. fields.
  destruct (continousgps w =? 255); cbn [negb]; run; fields;
    (destruct (readline _) as [r w2| |] eqn:R; try discriminate;
     apply readline_frame in R; destruct R as [-> F];
     destruct (load_token _ w2) as [[] w3| |] eqn:T; try discriminate;
     apply load_token_frame in T; unfold found_in; intros [= <- <-];
     rewrite T; fields;
     apply (f_equal latitudegps) in F; unfold but_line in F; fields;
     exact F).
Qed.

Lemma failed_checks_keep_latitudegps (n : nat) (w w' : world) :
  failed_checks n w w' -> latitudegps w' = latitudegps w.
Proof.
  induction 1 as [w|n w w1 w2 H _ IH]; [reflexivity|].
  rewrite IH. now apply fix_check_keeps_latitudegps in H.
Qed.

Lemma powered_keeps_latitudegps (w : world) :
  latitudegps (powered w) = latitudegps w.
Proof.
  unfold powered.
  destruct ((continousgps w =? 1) || (continousgps w =? 5)); reflexivity.
Qed.

(** The polling loop cannot end with a fix: the pass that finds one
    does not come back from the first copy. *)
Lemma polling_loop_never_returns_1 (fuel : nat) :
  forall (a : nat) (w w' : world) (r : nat + unit),
    length (latitudegps w) < length INITLOC ->
    readgpsinfo_loop fuel a w = Ret r w' -> r <> inl 1.
Proof.
  induction fuel as [|fuel IH]; intros a w w' r Hl H.
  - discriminate.
  - rewrite readgpsinfo_loop_pass in H.
    destruct (fix_check w) as [b w1| |] eqn:F; try discriminate.
    apply fix_check_keeps_latitudegps in F.
    destruct b; cbn [negb andb] in H.
    + unfold bind in H. rewrite take_fix_overruns in H by congruence.
      discriminate.
    + destruct (continousgps w1 =? 255).
      * injection H as <- _. discriminate.
      * destruct (u8 (a + 1) <? 20).
        -- eapply IH; [|exact H]. congruence.
        -- injection H as <- _. discriminate.
Qed.

(** The pass that finds a fix, after [k] passes that found none. *)
Lemma polling_loop_at_first_fix (k : nat) (w w1 : world) :
  failed_checks k w w1 ->
  forall (w2 : world) (fuel a : nat),
    fix_check w1 = Ret true w2 ->
    k < patience (continousgps w) -> a + k < 20 -> k < fuel ->
    readgpsinfo_loop fuel a w = bind take_fix (fun v => ret (inl v)) w2.
Proof.
  induction 1 as [w|n w wa wb H Hrest IH]; intros w2 fuel a Hfix Hp Ha Hf;
    (destruct fuel as [|fuel]; [lia|]); rewrite readgpsinfo_loop_pass.
  - now rewrite Hfix.
  - rewrite H. destruct (fix_check_frame _ _ _ H) as [Hc _].
    unfold patience in Hp.
    destruct (continousgps w =? 255) eqn:E; [lia|].
    rewrite Hc, E. cbn [negb andb]. rewrite u8_small by lia.
    assert (E2 : (a + 1 <? 20) = true) by (apply Nat.ltb_lt; lia).
    rewrite E2. apply IH; try assumption; try lia.
    unfold patience. rewrite Hc, E. lia.
Qed.

(** X14.  [INITLOC] has 21 bytes and every
    copy of it is made with [sizeof(INITLOC)] into an array of 20 cells.
    The first statement of [main] that touches the globals therefore
    stores past the end of [latitudegpsold]; and [readgpsinfo] stores
    past the end of [latitudegps] at the first status check that
    reports a fix, so that no call of it returns 1. *)
Theorem initloc_is_one_byte_too_long (w : world) :
  length (latitudegpsold w) = 20 ->
  length (latitudegps w) = 20 ->
  length INITLOC = 21 /\
  seed_positions w = OutOfBounds "latitudegpsold" 20 /\
  (forall k w1 w2,
     failed_checks k (powered w) w1 ->
     k < patience (continousgps w) ->
     fix_check w1 = Ret true w2 ->
     readgpsinfo w = OutOfBounds "latitudegps" 20) /\
  (forall v w', readgpsinfo w = Ret v w' -> v = 0).
Proof.
  intros Ho Hg. split; [reflexivity|]. split; [|split].
  - unfold seed_positions, memcpy, bind. rewrite Ho. reflexivity.
  - intros k w1 w2 Hf Hk Hfix.
    rewrite readgpsinfo_unfold.
    destruct (powered_frame w) as [Pc _].
    assert (K : k < 20).
    { unfold patience in Hk. destruct (continousgps w =? 255); lia. }
    rewrite (polling_loop_at_first_fix k _ _ Hf w2 20 0 Hfix);
      try lia; [|now rewrite Pc].
    assert (L : latitudegps w2 = latitudegps w).
    { apply fix_check_keeps_latitudegps in Hfix.
      apply failed_checks_keep_latitudegps in Hf.
      now rewrite Hfix, Hf, powered_keeps_latitudegps. }
    unfold bind. rewrite take_fix_overruns.
    + now rewrite L, Hg.
    + rewrite L, Hg. cbn. lia.
  - intros v w' H. rewrite readgpsinfo_unfold in H.
    destruct (readgpsinfo_loop 20 0 (powered w)) as [[x|[]] w1| |] eqn:L;
      try discriminate.
    + injection H as <- _.
      assert (N := polling_loop_never_returns_1 20 0 (powered w) w1 (inl x)).
      rewrite powered_keeps_latitudegps, Hg in N.
      specialize (N ltac:(cbn; lia) L).
      apply polling_loop_ends in L; [|lia].
      destruct L as [E | [(E & _) | (E & _)]]; congruence.
    + now injection H as <- _.
Qed.

(** The initial state, a GPS that reports a fix at the third check, in
    single mode. *)
Lemma initloc_is_one_byte_too_long_witness :
  let w :=
    set_continousgps 1
      (boot (feed (line "+CGNSINF: 1,0,,,,," ++ line "+CGNSINF: 1,0,,,,,"
                     ++ line "+CGNSINF: 1,1,,52.229676,21.012229,")
               idle)) in
  length INITLOC = 21 /\
  seed_positions w = OutOfBounds "latitudegpsold" 20 /\
  readgpsinfo w = OutOfBounds "latitudegps" 20 /\
  (forall v w', readgpsinfo w = Ret v w' -> v = 0).
Proof.
  intros w.
  destruct (initloc_is_one_byte_too_long w eq_refl eq_refl)
    as (A & B & C & D).
  split; [exact A|]. split; [exact B|]. split; [|exact D].
  eapply (C 2).
  - eapply failed_next; [vm_compute; reflexivity|].
    eapply failed_next; [vm_compute; reflexivity|].
    apply failed_none.
  - cbn. lia.
  - vm_compute. reflexivity.
Defined.

(** ** The PIN loop *)

Lemma checkpin_loop_pass (fuel : nat) (w : world) :
  checkpin_loop (S fuel) w =
  match pin_pass w with
  | Ret initialized2 w' =>
      if initialized2 =? 0 then checkpin_loop fuel w' else Ret tt w'
  | OutOfBounds arr i => OutOfBounds arr i
  | NoFuel => NoFuel
  end.
Proof.
  cbn [checkpin_loop]. unfold pin_pass. run. fields.
  destruct (readline _) as [r w1| |]; try reflexivity.
  destruct (0 <? r); [|reflexivity].
  destruct (load_token _ w1) as [[] w2| |]; try reflexivity.
  unfold found_in. run.
  destruct (load_token _ w2) as [[] w3| |]; try reflexivity.
  repeat match goal with
         | |- context [is_in_rx_buffer ?a ?b ?c =? 1] =>
             destruct (is_in_rx_buffer a b c =? 1)
         end;
    reflexivity.
Qed.

(** Copying a token into [buf]. *)
Lemma load_token_runs (tok t : list byte) (w : world) :
  tok = t ++ [NUL] ->
  S (length t) <= length (buf w) ->
  load_token tok w = Ret tt (set_buf (token_in tok (buf w)) w).
Proof.
  intros -> Hl. unfold load_token, memcpy, token_in.
  rewrite length_app. cbn [length]. rewrite Nat.add_1_r.
  apply Nat.leb_le in Hl. rewrite Hl.
  rewrite map_load_firstn by (rewrite length_app; cbn; lia).
  rewrite firstn_all2 by (rewrite length_app; cbn; lia).
  reflexivity.
Qed.

Lemma length_token_in (tok t : list byte) (b : array) :
  tok = t ++ [NUL] ->
  S (length t) <= length b ->
  length (token_in tok b) = length b.
Proof.
  intros -> H. unfold token_in.
  rewrite ?length_app, length_skipn, ?length_app. cbn [length]. lia.
Qed.

Lemma finds_token_in (tok t : list byte) (b a : array) :
  tok = t ++ [NUL] ->
  nul_free t = true ->
  (is_in_rx_buffer a (token_in tok b) BUFFER_SIZE =? 1) = finds tok a.
Proof.
  intros -> Ht. unfold finds, is_in_rx_buffer, token_in.
  rewrite <- app_assoc. cbn [app].
  now rewrite search_tail by (assumption || lia).
Qed.

(** X15.  One pass of [checkpin] waits two
    seconds, asks for the PIN state and reads a line.  Its verdict is 1
    exactly when the matcher finds [+CPIN: READY] in the line, and
    whether or not that is so, it sends the PIN 1111 when the matcher
    finds [+CPIN: SIM PIN]. *)
Theorem pin_pass_judges_the_reply (w w1 : world) :
  readline (emits [Delay 2; Tx (cstr SHOW_PIN)] w) = Ret 1 w1 ->
  length (buf w1) = 40 ->
  pin_pass w =
  Ret (flag (finds PIN_IS_READY (response w1)))
    (emits
       (if finds PIN_MUST_BE_ENTERED (response w1)
        then [Delay 1; Tx (cstr ENTER_PIN); Delay 1] else [])
       (set_buf (token_in PIN_MUST_BE_ENTERED
                   (token_in PIN_IS_READY (buf w1))) w1)).
Proof.
  intros R Hb. unfold pin_pass. run. cbn [emits fold_left] in R. fields.
  rewrite R. change (0 <? 1) with true. cbv beta iota.
  rewrite (load_token_runs PIN_IS_READY
             (list_ascii_of_string "+CPIN: READY") w1 eq_refl)
    by (rewrite Hb; cbn; lia).
  unfold found_in. cbv beta iota. fields.
  rewrite (finds_token_in PIN_IS_READY
             (list_ascii_of_string "+CPIN: READY") _ _ eq_refl eq_refl).
  rewrite (load_token_runs PIN_MUST_BE_ENTERED
             (list_ascii_of_string "+CPIN: SIM PIN") _ eq_refl)
    by (fields;
        rewrite (length_token_in _ (list_ascii_of_string "+CPIN: READY")
                   _ eq_refl);
        rewrite Hb; cbn; lia).
  cbv beta iota. fields.
  rewrite (finds_token_in PIN_MUST_BE_ENTERED
             (list_ascii_of_string "+CPIN: SIM PIN") _ _ eq_refl eq_refl).
  destruct (finds PIN_MUST_BE_ENTERED (response w1)); reflexivity.
Qed.

(** The first reply of a SIM that asks for its PIN. *)
Lemma pin_pass_judges_the_reply_witness :
  let w := boot pin_then_ready in
  let w1 :=
    set_response (holding "+CPIN: SIM PIN" digits170)
      (set_response_pos 0
         (set_rx_pos 15 (emits [Delay 2; Tx (cstr SHOW_PIN)] w))) in
  pin_pass w =
  Ret (flag (finds PIN_IS_READY (response w1)))
    (emits
       (if finds PIN_MUST_BE_ENTERED (response w1)
        then [Delay 1; Tx (cstr ENTER_PIN); Delay 1] else [])
       (set_buf (token_in PIN_MUST_BE_ENTERED
                   (token_in PIN_IS_READY (buf w1))) w1)).
Proof.
  intros w w1.
  apply (pin_pass_judges_the_reply w w1);
    [vm_compute; reflexivity | reflexivity].
Defined.

(** X16.  [checkpin] has no bound of its own:
    as long as the passes do not see the SIM ready it makes another
    one, and it returns 1 from the first pass that does, with nothing
    done after it. *)
Theorem checkpin_waits_for_ready (k : nat) (w w1 : world) :
  failed_pin_passes k w w1 ->
  (forall fuel, fuel <= k -> checkpin fuel w = NoFuel) /\
  (forall w2 fuel,
     pin_pass w1 = Ret 1 w2 -> k < fuel -> checkpin fuel w = Ret 1 w2).
Proof.
  intros Hf. split.
  - induction Hf as [w|n w wa wb H _ IH]; intros fuel Hk.
    + now replace fuel with 0 by lia.
    + destruct fuel as [|fuel]; [reflexivity|].
      unfold checkpin, bind in IH |- *.
      rewrite checkpin_loop_pass, H. cbn [Nat.eqb].
      apply IH. lia.
  - intros w2 fuel Hok Hk.
    assert (L : checkpin_loop fuel w = Ret tt w2).
    { revert fuel Hk.
      induction Hf as [w|n w wa wb H _ IH]; intros fuel Hk;
        (destruct fuel as [|fuel]; [lia|]); rewrite checkpin_loop_pass.
      - now rewrite Hok.
      - rewrite H. cbn [Nat.eqb]. apply IH; [exact Hok | lia]. }
    unfold checkpin. now rewrite (bind_ret _ _ _ _ _ L).
Qed.

(** The SIM that asks for its PIN once: one pass is not enough, two
    are, and the PIN was sent once. *)
Lemma checkpin_waits_for_ready_witness :
  checkpin 1 (boot pin_then_ready) = NoFuel /\
  exists w2,
    checkpin 2 (boot pin_then_ready) = Ret 1 w2 /\
    times_sent ENTER_PIN (trace w2) = 1 /\
    times_sent SHOW_PIN (trace w2) = 2.
Proof.
  eassert (Hf : failed_pin_passes 1 (boot pin_then_ready) _).
  { eapply pin_next; [vm_compute; reflexivity | apply pin_none]. }
  destruct (checkpin_waits_for_ready 1 _ _ Hf) as [A B].
  split; [exact (A 1 (le_n 1))|].
  eexists. split.
  - eapply B; [vm_compute; reflexivity | exact (le_n 2)].
  - split; vm_compute; reflexivity.
Defined.

(** ** What the other readers leave alone *)

Lemma readsmstxt_loop_frame (fuel i : nat) (w w' : world) :
  readsmstxt_loop fuel i w = Ret tt w' -> but_smstext w' = but_smstext w.
Proof.
  revert i w. induction fuel as [|fuel IH]; intros i w H.
  - discriminate.
  - cbn [readsmstxt_loop] in H. run.
    destruct (is_eol (rx w (rx_pos w))); cbn [negb andb] in H.
    + run. fields.
      destruct (0 <? smstext_pos w); run; fields.
      * destruct (store _ _ _); [|discriminate].
        cbn [Nat.eqb andb] in H. injection H as <-. reflexivity.
      * cbn [Nat.eqb andb] in H.
        destruct (u8 (i + 1) <? 150).
        -- apply IH in H. exact H.
        -- injection H as <-. reflexivity.
    + destruct (i <? 150); run; fields.
      * destruct (store _ _ _); [|discriminate].
        cbn [Nat.eqb andb] in H.
        destruct (u8 (i + 1) <? 150).
        -- apply IH in H. exact H.
        -- injection H as <-. reflexivity.
      * cbn [Nat.eqb andb] in H.
        destruct (u8 (i + 1) <? 150).
        -- apply IH in H. exact H.
        -- injection H as <-. reflexivity.
Qed.

(** [readsmstxt] has one return value, and changes nothing but its buffer,
    its cursor and the read position. *)
Lemma readsmstxt_frame (w w' : world) (r : nat) :
  readsmstxt w = Ret r w' -> r = 1 /\ but_smstext w' = but_smstext w.
Proof.
  unfold readsmstxt. run.
  destruct (readsmstxt_loop 150 0 (set_smstext_pos 0 w)) as [[] w1| |] eqn:E;
    try discriminate.
  intros [= <- <-]. split; [reflexivity|].
  apply readsmstxt_loop_frame in E. exact E.
Qed.

Lemma skip_response_frame (fuel : nat) (stop : byte) :
  forall (i i' : nat) (w w' : world),
    skip_response fuel stop i w = Ret i' w' ->
    but_sender w' = but_sender w /\ response w' = response w /\
    phonenumber w' = phonenumber w.
Proof.
  induction fuel as [|fuel IH]; intros i i' w w' H.
  - discriminate.
  - cbn [skip_response] in H. run. fields.
    destruct (negb _ && _).
    + apply IH in H. destruct H as (H1 & H2 & H3). fields.
      now repeat split.
    + injection H as _ <-. now repeat split.
Qed.

Lemma copy_number_frame (fuel : nat) :
  forall (i i' : nat) (w w' : world),
    copy_number fuel i w = Ret i' w' ->
    but_sender w' = but_sender w /\ response w' = response w /\
    length (phonenumber w') = length (phonenumber w).
Proof.
  induction fuel as [|fuel IH]; intros i i' w w' H.
  - discriminate.
  - cbn [copy_number] in H. run. fields.
    destruct (store _ _ _) as [a|] eqn:S; [|discriminate].
    apply store_inv in S. destruct S as [Hl ->]. run. fields.
    destruct (negb _ && _).
    + apply IH in H. destruct H as (H1 & H2 & H3). fields.
      rewrite length_upd in H3 by assumption. now repeat split.
    + injection H as _ <-. fields. rewrite length_upd by assumption.
      now repeat split.
Qed.

(** X17.  Whenever
    [readsmsphonenumber] returns, it returns 1 with both cursors at 0,
    and it has changed nothing but the contents of [phonenumber], which
    keeps its size: the response buffer is only read, no byte is taken
    from the UART and nothing is sent. *)
Theorem readsmsphonenumber_touches_only_the_number (w w' : world)
    (r : nat) :
  readsmsphonenumber w = Ret r w' ->
  r = 1 /\
  but_sender w' = but_sender w /\
  response w' = response w /\
  response_pos w' = 0 /\ phonenumber_pos w' = 0 /\
  length (phonenumber w') = length (phonenumber w).
Proof.
  unfold readsmsphonenumber. run. intros H.
  destruct (skip_response 150 ":"%char 0 _) as [i1 w1| |] eqn:S1;
    try discriminate.
  destruct (skip_response 150 DQ i1 w1) as [i2 w2| |] eqn:S2;
    try discriminate.
  destruct (copy_number 150 i2 w2) as [i3 w3| |] eqn:S3; try discriminate.
  destruct (store _ _ _) as [a|] eqn:S; [|discriminate].
  apply store_inv in S. destruct S as [Hl ->].
  injection H as <- <-.
  apply skip_response_frame in S1. destruct S1 as (F1 & R1 & P1).
  apply skip_response_frame in S2. destruct S2 as (F2 & R2 & P2).
  apply copy_number_frame in S3. destruct S3 as (F3 & R3 & L3).
  split; [reflexivity|]. split; [|split; [|split; [|split]]].
  - transitivity (but_sender w3); [reflexivity|].
    rewrite F3, F2, F1. reflexivity.
  - transitivity (response w3); [reflexivity|].
    rewrite R3, R2, R1. reflexivity.
  - reflexivity.
  - reflexivity.
  - transitivity (length (upd (phonenumber w3) (phonenumber_pos w3 - 1) NUL));
      [reflexivity|].
    rewrite length_upd by assumption.
    rewrite L3, P2, P1. reflexivity.
Qed.

(** The notification of a message from +48123456789 in the buffer. *)
Lemma readsmsphonenumber_touches_only_the_number_witness :
  let w :=
    set_response
      (list_ascii_of_string "+CMT" ++ ":"%char :: [" "%char] ++ DQ
         :: list_ascii_of_string "+48123456789" ++ DQ
         :: list_ascii_of_string ",,24/01/01,12:00:00+04" ++ [NUL])
      (boot idle) in
  let w' :=
    set_phonenumber (holding "+48123456789" (digits10 ++ digits10)) w in
  1 = 1 /\
  but_sender w' = but_sender w /\
  response w' = response w /\
  response_pos w' = 0 /\ phonenumber_pos w' = 0 /\
  length (phonenumber w') = length (phonenumber w).
Proof.
  intros w w'.
  apply (readsmsphonenumber_touches_only_the_number w w' 1).
  vm_compute. reflexivity.
Defined.

(** ** Guard mode: the line received while listening *)

Lemma stop_branch_runs (w : world) :
  stop_branch w =
  Ret tt
    (set_continousgps 0
       (set_trace (trace w ++ stop_events (phonenumber w)) w)).
Proof.
  destruct w. unfold stop_branch, sms_open, sms_close, stop_events. crunch.
  do 2 f_equal. repeat rewrite <- app_assoc. reflexivity.
Qed.

(** X18.  A line received while guard mode
    listens has an effect only when it announces an SMS and the matcher
    finds STOP in the upper-cased text: then the acknowledgment goes to
    the sender, the GPS is switched off and the mode becomes 0.  In
    every other case nothing is sent and the mode stays as it is, also
    when the text holds MULTI, SINGLE, ACTIVATE or GUARD. *)
Theorem guard_window_obeys_stop_only (w w1 : world) :
  length (buf w) = 40 ->
  readline w = Ret 1 w1 ->
  (finds ISSMS (response w1) = false ->
   exists w',
     on_guard_line w = Ret tt w' /\
     continousgps w' = continousgps w /\ trace w' = trace w) /\
  (forall w2 u,
     finds ISSMS (response w1) = true ->
     bind readsmstxt (fun _ => readsmsphonenumber)
       (set_buf (token_in ISSMS (buf w1)) w1) = Ret 1 w2 ->
     strupr_cells (smstext w2) = Some u ->
     exists w',
       on_guard_line w = Ret tt w' /\
       continousgps w' = (if finds ISSTOP u then 0 else continousgps w) /\
       trace w' =
         trace w
           ++ (if finds ISSTOP u then stop_events (phonenumber w2) else [])).
Proof.
  intros Hb R.
  assert (F := R). apply readline_frame in F. destruct F as [_ F].
  assert (Fb : buf w1 = buf w)
    by (apply (f_equal buf) in F; exact F).
  assert (Fc : continousgps w1 = continousgps w)
    by (apply (f_equal continousgps) in F; exact F).
  assert (Ft : trace w1 = trace w)
    by (apply (f_equal trace) in F; exact F).
  assert (T : load_token ISSMS w1 =
              Ret tt (set_buf (token_in ISSMS (buf w1)) w1)).
  { apply (load_token_runs ISSMS (list_ascii_of_string "CMT:"));
      [reflexivity | rewrite Fb, Hb; cbn; lia]. }
  assert (V : forall w0,
    found_in response (set_buf (token_in ISSMS (buf w1)) w0) =
    Ret (finds ISSMS (response w0))
      (set_buf (token_in ISSMS (buf w1)) w0)).
  { intros w0. unfold found_in. fields.
    now rewrite (finds_token_in ISSMS (list_ascii_of_string "CMT:")). }
  split.
  - intros Hs. unfold on_guard_line.
    rewrite (bind_ret _ _ _ _ _ R). change (0 <? 1) with true. cbv iota.
    rewrite (bind_ret _ _ _ _ _ T). cbv beta.
    rewrite (bind_ret _ _ _ _ _ (V w1)). cbv beta. rewrite Hs.
    eexists. split; [reflexivity|]. fields. now split.
  - intros w2 u Hs Hread Hu. unfold on_guard_line.
    rewrite (bind_ret _ _ _ _ _ R). change (0 <? 1) with true. cbv iota.
    rewrite (bind_ret _ _ _ _ _ T). cbv beta.
    rewrite (bind_ret _ _ _ _ _ (V w1)). cbv beta. rewrite Hs.
    unfold bind in Hread |- *.
    destruct (readsmstxt _) as [r1 wa| |] eqn:Ra; try discriminate.
    destruct (readsmsphonenumber wa) as [r2 wb| |] eqn:Rb;
      try discriminate.
    injection Hread as -> ->.
    apply readsmstxt_frame in Ra. destruct Ra as [_ Fa].
    apply readsmsphonenumber_touches_only_the_number in Rb.
    destruct Rb as (_ & Fs & _).
    assert (Bw : buf w2 = token_in ISSMS (buf w1)).
    { apply (f_equal buf) in Fs. apply (f_equal buf) in Fa.
      unfold but_sender, but_smstext in *. fields. congruence. }
    assert (Cw : continousgps w2 = continousgps w).
    { apply (f_equal continousgps) in Fs.
      apply (f_equal continousgps) in Fa.
      unfold but_sender, but_smstext in *. fields. congruence. }
    assert (Tw : trace w2 = trace w).
    { apply (f_equal trace) in Fs. apply (f_equal trace) in Fa.
      unfold but_sender, but_smstext in *. fields. congruence. }
    rewrite (load_token_runs ISSTOP (list_ascii_of_string "STOP") w2 eq_refl)
      by (rewrite Bw, (length_token_in ISSMS (list_ascii_of_string "CMT:")
                         _ eq_refl); rewrite Fb, Hb; cbn; lia).
    unfold found_in_upper_smstext. fields. rewrite Hu.
    unfold found_in. fields.
    rewrite (finds_token_in ISSTOP (list_ascii_of_string "STOP")
               _ _ eq_refl eq_refl).
    destruct (finds ISSTOP u); unfold when.
    + rewrite stop_branch_runs. eexists. split; [reflexivity|].
      fields. rewrite Tw. now split.
    + eexists. split; [reflexivity|]. fields.
      rewrite app_nil_r. now split.
Qed.

(** In guard mode, a message with the text stop and a message with the
    text multi guard. *)
Lemma guard_window_obeys_stop_only_witness :
  (exists w',
     on_guard_line (guarded_sms "stop") = Ret tt w' /\
     continousgps w' = 0 /\
     sent STOP (trace w') = true) /\
  (exists w',
     on_guard_line (guarded_sms "multi guard") = Ret tt w' /\
     continousgps w' = 255 /\ trace w' = []).
Proof.
  split.
  - eassert (R : readline (guarded_sms "stop") = Ret 1 _)
      by (vm_compute; reflexivity).
    destruct (guard_window_obeys_stop_only (guarded_sms "stop") _
                (eq_refl 40) R) as [_ B].
    edestruct B as (w' & H & C & T);
      [vm_compute; reflexivity | vm_compute; reflexivity
       | vm_compute; reflexivity |].
    exists w'. split; [exact H|]. split.
    + rewrite C. vm_compute. reflexivity.
    + rewrite T. vm_compute. reflexivity.
  - eassert (R : readline (guarded_sms "multi guard") = Ret 1 _)
      by (vm_compute; reflexivity).
    destruct (guard_window_obeys_stop_only (guarded_sms "multi guard") _
                (eq_refl 40) R) as [_ B].
    edestruct B as (w' & H & C & T);
      [vm_compute; reflexivity | vm_compute; reflexivity
       | vm_compute; reflexivity |].
    exists w'. split; [exact H|]. split.
    + rewrite C. vm_compute. reflexivity.
    + rewrite T. vm_compute. reflexivity.
Defined.

(** ** A pass of the polling loop without a fix *)

Lemma emits_app (a b : list event) (w : world) :
  emits (a ++ b) w = emits b (emits a w).
Proof. unfold emits. apply fold_left_app. Qed.

Lemma trace_emits (es : list event) (w : world) :
  trace (emits es w) = trace w ++ es.
Proof.
  revert w. induction es as [|e es IH]; intros w; cbn [emits fold_left].
  - now rewrite app_nil_r.
  - change (fold_left _ es ?x) with (emits es x). rewrite IH. fields.
    now rewrite <- app_assoc.
Qed.

Lemma emits_keeps (es : list event) (w : world) :
  set_trace [] (emits es w) = set_trace [] w.
Proof.
  revert w. induction es as [|e es IH]; intros w; cbn [emits fold_left].
  - reflexivity.
  - change (fold_left _ es ?x) with (emits es x). now rewrite IH.
Qed.

Lemma but_check_emits (es : list event) (w : world) :
  but_check (emits es w) = but_check w.
Proof.
  transitivity (set_buf [] (but_line (set_trace [] (emits es w))));
    [reflexivity|].
  now rewrite emits_keeps.
Qed.

(** A check changes the line buffer, the token buffer, the read
    position and the trace, and the trace by the query only. *)
Lemma fix_check_keeps (w w1 : world) (b : bool) :
  fix_check w = Ret b w1 ->
  but_check w1 = but_check w /\
  trace w1 = trace w ++ check_events (continousgps w).
Proof.
  unfold fix_check, check_events. run. fields.
  destruct (continousgps w =? 255); cbn [negb]; run; fields;
    (destruct (readline _) as [r w2| |] eqn:R; try discriminate;
     apply readline_frame in R; destruct R as [-> F];
     destruct (load_token _ w2) as [[] w3| |] eqn:T; try discriminate;
     apply load_token_frame in T; unfold found_in; intros [= <- <-];
     rewrite T; unfold but_check, but_line in *; fields; split;
     [ apply (f_equal (fun x => set_buf [] (set_trace [] x))) in F;
       exact F
     | apply (f_equal trace) in F; fields; rewrite F;
       now rewrite <- ?app_assoc ]).
Qed.

Lemma failed_checks_keep (n : nat) (w w' : world) :
  failed_checks n w w' ->
  but_check w' = but_check w /\
  trace w' =
  trace w ++ concat (repeat (check_events (continousgps w)) n).
Proof.
  induction 1 as [w|n w w1 w2 H _ [IHf IHt]].
  - split; [reflexivity | now rewrite app_nil_r].
  - destruct (fix_check_frame _ _ _ H) as [Hc _].
    apply fix_check_keeps in H. destruct H as [Hf Ht].
    split; [congruence|].
    rewrite IHt, Ht, Hc. cbn [repeat concat]. now rewrite <- app_assoc.
Qed.

Lemma powered_runs (w : world) :
  powered w = emits (power_events (continousgps w)) w.
Proof.
  unfold powered, power_events.
  destruct ((continousgps w =? 1) || (continousgps w =? 5)); reflexivity.
Qed.

(** [readgpsinfo] when the checks it has patience for all fail. *)
Lemma readgpsinfo_gives_up (w wn : world) :
  failed_checks (patience (continousgps w)) (powered w) wn ->
  readgpsinfo w = Ret 0 (emits (give_up_events (continousgps w)) wn).
Proof.
  intros Hf. destruct (powered_frame w) as [Pc _].
  rewrite readgpsinfo_unfold. unfold give_up_events, patience in *.
  destruct (continousgps w =? 255) eqn:C.
  - inversion Hf as [|n w0 w1 w2 F R]; subst. inversion R; subst.
    rewrite readgpsinfo_loop_pass, F.
    destruct (fix_check_frame _ _ _ F) as [Hc1 _].
    rewrite Hc1, Pc, C. reflexivity.
  - apply Nat.eqb_neq in C.
    assert (E : readgpsinfo_loop 20 0 (powered w) = Ret (inr tt) wn)
      by (apply (retry_loop_exhausts 20 _ _ Hf); [congruence | lia | lia]).
    rewrite E.
    apply failed_checks_frame in Hf. destruct Hf as [Hc _].
    rewrite Hc, Pc. destruct (continousgps w =? 1); reflexivity.
Qed.

Lemma guard_check_without_data {fp : libm} (w : world) :
  guard_check 0 w = Ret tt w.
Proof. unfold guard_check. run. reflexivity. Qed.

(** X19.  A pass of the polling loop in which no
    status check reports a fix (one check in guard mode, twenty
    otherwise) sends no SMS: the trace grows by the GPS commands, the
    status queries and the delays only.  Outside guard mode the counter
    goes down by one, in guard mode it stays at 255.  In both cases the
    current position buffers are copied to the stored ones, cut to ten
    and eleven characters. *)
Theorem gps_pass_without_fix {fp : libm} (w wn : world) :
  0 < continousgps w <= 255 ->
  length (latitudegps w) = 20 -> length (longtitudegps w) = 20 ->
  length (latitudegpsold w) = 20 -> length (longtitudegpsold w) = 20 ->
  failed_checks (patience (continousgps w)) (powered w) wn ->
  exists w',
    gps_pass w = Ret tt w' /\
    continousgps w' =
      (if continousgps w =? 255 then 255 else continousgps w - 1) /\
    trace w' = trace w ++ no_fix_events (continousgps w) /\
    latitudegpsold w' =
      firstn 10 (latitudegps w) ++ NUL :: skipn 11 (latitudegpsold w) /\
    longtitudegpsold w' =
      firstn 11 (longtitudegps w) ++ NUL :: skipn 12 (longtitudegpsold w).
Proof.
  intros Hc L1 L2 L3 L4 Hf.
  assert (R := readgpsinfo_gives_up w wn Hf).
  destruct (powered_frame w) as [Pc _].
  assert (K := Hf). apply failed_checks_keep in K. destruct K as [Kf Kt].
  assert (Kc := Hf). apply failed_checks_frame in Kc.
  destruct Kc as [Kc _]. rewrite Pc in Kc, Kt.
  rewrite powered_runs, trace_emits in Kt.
  rewrite powered_runs in Kf.
  set (wr := emits (give_up_events (continousgps w)) wn) in *.
  assert (Fr : but_check wr = but_check w).
  { unfold wr. now rewrite but_check_emits, Kf, but_check_emits. }
  assert (Tr : trace wr =
               trace w ++ power_events (continousgps w)
                 ++ concat (repeat (check_events (continousgps w))
                              (patience (continousgps w)))
                 ++ give_up_events (continousgps w)).
  { unfold wr. rewrite trace_emits, Kt. now rewrite <- !app_assoc. }
  assert (Cr : continousgps wr = continousgps w).
  { apply (f_equal continousgps) in Fr. exact Fr. }
  assert (A1 : latitudegps wr = latitudegps w)
    by (apply (f_equal latitudegps) in Fr; exact Fr).
  assert (A2 : longtitudegps wr = longtitudegps w)
    by (apply (f_equal longtitudegps) in Fr; exact Fr).
  assert (A3 : latitudegpsold wr = latitudegpsold w)
    by (apply (f_equal latitudegpsold) in Fr; exact Fr).
  assert (A4 : longtitudegpsold wr = longtitudegpsold w)
    by (apply (f_equal longtitudegpsold) in Fr; exact Fr).
  unfold gps_pass. rewrite (bind_ret _ _ _ _ _ R). cbv beta.
  change (0 =? 1) with false. cbv iota.
  unfold bind at 1. unfold ret at 1.
  unfold bind at 1. unfold get at 1.
  change (0 =? 1) with false. cbn [andb]. unfold when at 1.
  unfold bind at 1. unfold ret at 1.
  unfold guard_step. unfold bind at 1. unfold bind at 1.
  rewrite guard_check_without_data.
  rewrite remember_position_runs by congruence.
  rewrite A1, A2, A3, A4.
  clearbody wr. clear R Hf Kf Kt Kc Fr wn.
  unfold no_fix_events, pause_events.
  run. fields. rewrite Cr.
  destruct (continousgps w =? 255) eqn:C; cbn [negb].
  - apply Nat.eqb_eq in C. fields. rewrite Cr, C.
    cbn [Nat.eqb Nat.ltb Nat.leb andb].
    eexists. split; [reflexivity|]. fields.
    rewrite Cr, Tr, C. now repeat split.
  - apply Nat.eqb_neq in C. fields.
    assert (U : u8 (continousgps w + 255) = continousgps w - 1).
    { unfold u8.
      replace (continousgps w + 255)
        with (continousgps w - 1 + 1 * 256) by lia.
      rewrite Nat.Div0.mod_add. apply Nat.mod_small. lia. }
    rewrite U.
    destruct (continousgps w =? 1) eqn:C1.
    + apply Nat.eqb_eq in C1. rewrite C1 in *.
      cbn [Nat.sub Nat.ltb Nat.leb Nat.eqb andb]. fields.
      eexists. split; [reflexivity|]. fields.
      rewrite Tr, <- ?app_assoc. now repeat split.
    + apply Nat.eqb_neq in C1.
      assert (E1 : (0 <? continousgps w - 1) = true)
        by (apply Nat.ltb_lt; lia).
      assert (E2 : (continousgps w - 1 <? 255) = true)
        by (apply Nat.ltb_lt; lia).
      assert (E3 : (continousgps w - 1 =? 0) = false)
        by (apply Nat.eqb_neq; lia).
      rewrite E1, E2, E3. cbn [andb]. fields.
      eexists. split; [reflexivity|]. fields.
      rewrite Tr, <- ?app_assoc. now repeat split.
Qed.

(** The first pass of a MULTI sequence with a GPS that has no fix:
    twenty queries, no SMS, and four passes left. *)
Lemma gps_pass_without_fix_witness :
  exists w',
    @gps_pass binary64 (no_fix_yet 5) = Ret tt w' /\
    continousgps w' = 4 /\
    trace w' = no_fix_events 5 /\
    sent SMS2 (trace w') = false.
Proof.
  eassert (Hf : failed_checks 20 (powered (no_fix_yet 5)) _).
  { repeat (eapply failed_next; [vm_compute; reflexivity|]).
    apply failed_none. }
  destruct (@gps_pass_without_fix binary64 (no_fix_yet 5) _
              ltac:(cbn; lia) eq_refl eq_refl eq_refl eq_refl Hf)
    as (w' & H & C & T & _).
  exists w'. split; [exact H|]. split; [exact C|]. split; [exact T|].
  rewrite T. vm_compute. reflexivity.
Defined.

(** ** How long [checkregistration] takes to give up *)

Lemma seconds_app (a b : list event) :
  seconds (a ++ b) = seconds a + seconds b.
Proof.
  induction a as [|e a IH]; [reflexivity|].
  destruct e; cbn [app seconds]; rewrite IH; lia.
Qed.

Lemma Ret_inj {A : Type} (a b : A) (w w' : world) :
  Ret a w = Ret b w' -> a = b /\ w = w'.
Proof. now intros [= -> ->]. Qed.

Lemma backoff_runs (w : world) : backoff w = Ret tt (emits backoff_events w).
Proof. destruct w. vm_compute. reflexivity. Qed.

Lemma registered_frame (w w' : world) (b : bool) :
  registered w = Ret b w' -> w' = set_buf (buf w') w.
Proof.
  unfold registered. intros H.
  apply bind_ret_inv in H as ([] & wb & T1 & H).
  apply load_token_frame in T1.
  apply bind_ret_inv in H as (b1 & wb' & V1 & H).
  apply found_in_frame in V1. subst wb'.
  apply bind_ret_inv in H as ([] & wc & T2 & H).
  apply load_token_frame in T2.
  apply bind_ret_inv in H as (b2 & wc' & V2 & H).
  apply found_in_frame in V2. subst wc'.
  injection H as _ <-.
  rewrite T2 at 1. rewrite T1 at 1. reflexivity.
Qed.

(** A cycle in terms of the line it reads and of what the matcher
    finds in it. *)
Lemma cycle_unfold (w : world) :
  cycle w =
  match readline (emits [Delay 120; Tx (cstr SHOW_REGISTRATION)] w) with
  | Ret _ wc =>
      match registered wc with
      | Ret true wd => Ret true wd
      | Ret false wd => Ret false (emits backoff_events wd)
      | OutOfBounds arr i => OutOfBounds arr i
      | NoFuel => NoFuel
      end
  | OutOfBounds arr i => OutOfBounds arr i
  | NoFuel => NoFuel
  end.
Proof.
  unfold cycle. run. cbn [emits fold_left].
  destruct (readline _) as [r wc| |] eqn:R; try reflexivity.
  apply readline_frame in R. destruct R as [-> _].
  change (0 <? 1) with true. cbv beta iota.
  destruct (registered wc) as [[] wd| |];
    [reflexivity | | reflexivity | reflexivity].
  cbn [negb]. cbv beta iota. now rewrite backoff_runs.
Qed.

(** A cycle that does not find the network: two minutes of waiting, one
    query, and the back-off. *)
Lemma failed_cycle_inv (w w1 : world) :
  cycle w = Ret false w1 ->
  exists wc wd,
    readline (emits [Delay 120; Tx (cstr SHOW_REGISTRATION)] w) = Ret 1 wc /\
    registered wc = Ret false wd /\
    w1 = emits backoff_events wd.
Proof.
  rewrite cycle_unfold.
  destruct (readline _) as [r wc| |] eqn:R; try discriminate.
  assert (F := R). apply readline_frame in F. destruct F as [-> _].
  destruct (registered wc) as [[] wd| |] eqn:G; try discriminate.
  intros H. apply Ret_inj in H. destruct H as [_ <-].
  now exists wc, wd.
Qed.

Lemma failed_cycle_trace (w w1 : world) :
  cycle w = Ret false w1 ->
  trace w1 =
  trace w ++ [Delay 120; Tx (cstr SHOW_REGISTRATION)] ++ backoff_events.
Proof.
  intros H. apply failed_cycle_inv in H.
  destruct H as (wc & wd & R & G & ->).
  apply readline_frame in R. destruct R as [_ F].
  apply registered_frame in G.
  rewrite trace_emits, app_assoc. f_equal.
  transitivity (trace wc); [rewrite G; reflexivity|].
  apply (f_equal trace) in F. unfold but_line in F.
  cbn [emits fold_left] in F. fields.
  rewrite F, <- app_assoc. reflexivity.
Qed.

Lemma failed_cycles_trace (k : nat) (w w' : world) :
  failed_cycles k w w' ->
  trace w' =
  trace w
    ++ concat (repeat ([Delay 120; Tx (cstr SHOW_REGISTRATION)]
                         ++ backoff_events) k).
Proof.
  induction 1 as [w|n w w1 w2 H _ IH].
  - now rewrite app_nil_r.
  - apply failed_cycle_trace in H. rewrite IH, H.
    cbn [repeat concat]. now rewrite <- !app_assoc.
Qed.

Lemma seconds_concat_repeat (l : list event) (k : nat) :
  seconds (concat (repeat l k)) = k * seconds l.
Proof.
  induction k as [|k IH]; [reflexivity|].
  cbn [repeat concat]. rewrite seconds_app, IH. lia.
Qed.

(** The messages counted in the closed parts of a trace. *)
Ltac count_sent :=
  repeat match goal with
         | |- context [length (filter ?f ?l)] =>
             lazymatch l with
             | context [trace] => fail
             | _ =>
                 let v := eval vm_compute in (length (filter f l)) in
                 change (length (filter f l)) with v
             end
         end.

(** X20.  When the first query
    and the 24 cycles that follow it find no registration,
    [checkregistration] returns 0, and by then it has asked 25 times
    and spent 46226 seconds in delays, 12 hours 50 minutes: one second
    before the first query and one before the radio is switched on,
    and in every cycle two minutes of searching and a back-off of 30
    minutes and 6 seconds. *)
Theorem registration_gives_up_after_half_a_day (w w1 w2 w3 : world) :
  first_query w = Ret false w1 ->
  radio_on w1 = Ret tt w2 ->
  failed_cycles 24 w2 w3 ->
  checkregistration w = Ret 0 w3 /\
  (Z.of_nat (seconds (trace w3))
   = Z.of_nat (seconds (trace w)) + 46226)%Z /\
  times_sent SHOW_REGISTRATION (trace w3)
  = times_sent SHOW_REGISTRATION (trace w) + 25 /\
  times_sent SLEEPON (trace w3) = times_sent SLEEPON (trace w) + 24.
Proof.
  intros H1 H2 H3.
  assert (R : checkregistration w = Ret 0 w3).
  { rewrite checkregistration_unfold, H1, (bind_ret _ _ _ _ _ H2).
    cbv beta.
    destruct (retry_loop_after_failures 24 w2 w3 H3 24 0 ltac:(lia))
      as [A _].
    apply A; lia. }
  split; [exact R|].
  apply first_query_trace in H1.
  unfold radio_on in H2. cbv beta iota delta [bind delay_sec uart_puts_P
    emit] in H2. apply Ret_inj in H2. destruct H2 as [_ <-].
  apply failed_cycles_trace in H3. fields.
  rewrite H3, H1. clear.
  assert (S1 : seconds ([Delay 120; Tx (cstr SHOW_REGISTRATION)]
                          ++ backoff_events) = 1926)
    by (vm_compute; reflexivity).
  unfold times_sent.
  rewrite !filter_app, !length_app, !seconds_app, seconds_concat_repeat, S1.
  split; [|split].
  - cbn [seconds]. lia.
  - count_sent. lia.
  - count_sent. lia.
Qed.

(** A modem that keeps searching. *)
Lemma registration_gives_up_after_half_a_day_witness :
  exists w3,
    checkregistration (boot searching) = Ret 0 w3 /\
    (Z.of_nat (seconds (trace w3)) = 46226)%Z /\
    times_sent SHOW_REGISTRATION (trace w3) = 25 /\
    times_sent SLEEPON (trace w3) = 24.
Proof.
  eassert (H1 : first_query (boot searching) = Ret false _)
    by (vm_compute; reflexivity).
  match type of H1 with
  | _ = Ret _ ?w1 =>
      eassert (H2 : radio_on w1 = Ret tt _) by (vm_compute; reflexivity)
  end.
  match type of H2 with
  | _ = Ret _ ?w2 => eassert (H3 : failed_cycles 24 w2 _)
  end.
  { repeat (eapply cycles_next; [vm_compute; reflexivity|]).
    apply cycles_none. }
  destruct (registration_gives_up_after_half_a_day _ _ _ _ H1 H2 H3)
    as (A & B & C & D).
  eexists. split; [exact A|]. split; [|split].
  - rewrite B. reflexivity.
  - rewrite C. reflexivity.
  - rewrite D. reflexivity.
Defined.

(** ** The probe loop of [checkat], pass by pass *)

(** X21.  One probe of [checkat] sends AT, reads
    a line and waits a second; its verdict is 1 exactly when the matcher
    finds OK in the line. *)
Theorem probe_judges_the_reply (w w1 : world) :
  readline (emits [Tx (cstr AT)] w) = Ret 1 w1 ->
  length (buf w1) = 40 ->
  probe_once w =
  Ret (flag (finds ISOK (response w1)))
    (emits [Delay 1] (set_buf (token_in ISOK (buf w1)) w1)).
Proof.
  intros R Hb. unfold probe_once. run. cbn [emits fold_left] in R. fields.
  rewrite R. change (0 <? 1) with true. cbv beta iota.
  rewrite (load_token_runs ISOK (list_ascii_of_string "OK") w1 eq_refl)
    by (rewrite Hb; cbn; lia).
  unfold found_in. cbv beta iota. fields.
  rewrite (finds_token_in ISOK (list_ascii_of_string "OK") _ _ eq_refl
             eq_refl).
  reflexivity.
Qed.

(** The echo of the probe is not an answer. *)
Lemma probe_judges_the_reply_witness :
  let w := boot echo_then_ok in
  let w1 :=
    set_response (holding "AT" digits170)
      (set_response_pos 0 (set_rx_pos 3 (emits [Tx (cstr AT)] w))) in
  probe_once w =
  Ret (flag (finds ISOK (response w1)))
    (emits [Delay 1] (set_buf (token_in ISOK (buf w1)) w1)).
Proof.
  intros w w1.
  apply (probe_judges_the_reply w w1);
    [vm_compute; reflexivity | reflexivity].
Defined.

(** X22.  [checkat] has no bound of its own: as
    long as the probes find no OK it makes another one, and after the
    first probe that finds one it waits a second, switches the echo off
    and returns 1. *)
Theorem checkat_waits_for_ok (k : nat) (w w1 : world) :
  failed_probes k w w1 ->
  (forall fuel, fuel <= k -> checkat fuel w = NoFuel) /\
  (forall w2 fuel,
     probe_once w1 = Ret 1 w2 -> k < fuel ->
     checkat fuel w =
     Ret 1 (emits [Delay 1; Tx (cstr ECHO_OFF); Delay 1] w2)).
Proof.
  intros Hf. split.
  - induction Hf as [w|n w wa wb H _ IH]; intros fuel Hk.
    + now replace fuel with 0 by lia.
    + destruct fuel as [|fuel]; [reflexivity|].
      unfold checkat, bind in IH |- *.
      rewrite checkat_loop_pass, H. cbn [Nat.eqb].
      apply IH. lia.
  - intros w2 fuel Hok Hk.
    now apply (checkat_returns_at_first_ok k w w1 w2).
Qed.

(** The modem that first echoes: one probe is not enough, two are. *)
Lemma checkat_waits_for_ok_witness :
  checkat 1 (boot echo_then_ok) = NoFuel /\
  exists w2,
    checkat 2 (boot echo_then_ok) = Ret 1 w2 /\
    times_sent AT (trace w2) = 2 /\
    times_sent ECHO_OFF (trace w2) = 1.
Proof.
  eassert (Hf : failed_probes 1 (boot echo_then_ok) _).
  { eapply probes_next; [vm_compute; reflexivity | apply probes_none]. }
  destruct (checkat_waits_for_ok 1 _ _ Hf) as [A B].
  split; [exact (A 1 (le_n 1))|].
  eexists. split.
  - eapply B; [vm_compute; reflexivity | exact (le_n 2)].
  - split; vm_compute; reflexivity.
Defined.

(** ** Keywords that are not in the message *)

Lemma strupr_cells_short (short stale : list byte) :
  nul_free short = true ->
  strupr_cells (short ++ NUL :: stale)
  = Some (map toupper short ++ NUL :: stale).
Proof.
  unfold nul_free. induction short as [|c short IH]; intros H.
  - reflexivity.
  - cbn [forallb] in H. apply andb_true_iff in H. destruct H as [Hc Hs].
    apply negb_true_iff in Hc.
    cbn [app strupr_cells map]. rewrite Hc, (IH Hs). reflexivity.
Qed.

(** X23.  The body of a message ends at its
    terminator, but the keyword test does not: [strupr] stops there and
    the matcher goes on.  When the cells behind the terminator still
    hold a keyword from an earlier, longer message, and its first byte
    occurs neither in the new body nor before the keyword, the branch
    of that keyword runs although the new message does not contain
    it. *)
Theorem stale_keyword_is_obeyed (short pre t rest : list byte)
    (br : M flags) (f : flags) (w : world) :
  smstext w = short ++ NUL :: pre ++ t ++ rest ->
  nul_free short = true -> t <> [] -> nul_free t = true ->
  Forall (fun c => c <> hd NUL t) (map toupper short) ->
  Forall (fun c => c <> hd NUL t) pre ->
  length short + length pre + 1 < BUFFER_SIZE ->
  S (length t) <= length (buf w) ->
  cstr (smstext w) = short /\
  on_keyword (t ++ [NUL]) br f w =
  br (set_smstext (map toupper short ++ NUL :: pre ++ t ++ rest)
        (set_buf (t ++ NUL :: skipn (S (length t)) (buf w)) w)).
Proof.
  intros Hs Hshort Hne Ht Hup Hpre Hlen Hb. split.
  - rewrite Hs. now apply cstr_token.
  - rewrite (on_keyword_runs t br f w
               (map toupper short ++ NUL :: pre ++ t ++ rest))
      by (assumption || (rewrite Hs; now apply strupr_cells_short)).
    assert (F : finds (t ++ [NUL])
                  (map toupper short ++ NUL :: pre ++ t ++ rest) = true).
    { unfold finds.
      replace (map toupper short ++ NUL :: pre ++ t ++ rest)
        with ((map toupper short ++ NUL :: pre) ++ t ++ rest)
        by (now rewrite <- app_assoc).
      rewrite (search_after_clean_prefix _ t rest []); try assumption.
      - reflexivity.
      - apply Forall_app. split; [assumption|].
        constructor; [|assumption].
        destruct t as [|d t]; [congruence|]. cbn [hd].
        unfold nul_free in Ht. cbn [forallb] in Ht.
        apply andb_true_iff in Ht. destruct Ht as [Hd _].
        apply negb_true_iff in Hd. intros E. subst d. discriminate.
      - rewrite length_app, length_map. cbn [length]. lia. }
    now rewrite F.
Qed.

(** The message hi, in a buffer in which the end of an earlier message
    is still to be read, starts guard mode. *)
Lemma stale_keyword_is_obeyed_witness :
  let w := set_smstext hi_over_guard (boot idle) in
  cstr (smstext w) = list_ascii_of_string "hi" /\
  on_keyword ISGUARD guard_branch (Flags 0 0) w =
  guard_branch
    (set_smstext
       (lit "HI" ++ list_ascii_of_string "l GUARD"
          ++ NUL :: skipn 11 digits170)
       (set_buf (ISGUARD ++ fill 34 NUL) w)).
Proof.
  exact (stale_keyword_is_obeyed
           (list_ascii_of_string "hi") (list_ascii_of_string "l ")
           (list_ascii_of_string "GUARD") (NUL :: skipn 11 digits170)
           guard_branch (Flags 0 0)
           (set_smstext hi_over_guard (boot idle)) eq_refl eq_refl
           ltac:(discriminate) eq_refl
           ltac:(repeat constructor; discriminate)
           ltac:(repeat constructor; discriminate)
           ltac:(unfold BUFFER_SIZE; cbn; lia) ltac:(cbn; lia)).
Defined.

(** ** The dispatcher runs every branch whose keyword is found *)

(** X24.  [sms_command] reads the
    text and the sender, clears the mode and then makes the four keyword
    tests on the same upper-cased text, each whatever the others found:
    the branches of the keywords the matcher finds all run, in the order
    MULTI, SINGLE, ACTIVATE, GUARD, and the mode and the flags are those
    set by the last of them. *)
Theorem sms_command_obeys_every_keyword_found (u : array)
    (w w1 : world) :
  bind readsmstxt
    (fun _ => bind readsmsphonenumber
       (fun _ => put set_continousgps 0)) w = Ret tt w1 ->
  ready u w1 ->
  exists w',
    sms_command w = Ret (flags_after u) w' /\
    continousgps w' = mode_after 0 u /\
    trace w' =
      trace w1
        ++ if_found (finds ISMULTI u) (multi_events w1)
        ++ if_found (finds ISSINGLE u) (single_events w1)
        ++ if_found (finds ISACTIVATE u) (activate_events w1)
        ++ if_found (finds ISGUARD u) (guard_events w1).
Proof. exact (sms_command_runs_every_match u w w1). Qed.

(** The message guard single: both branches run, the acknowledgment of
    SINGLE first, and the mode is the one GUARD sets. *)
Lemma sms_command_obeys_every_keyword_found_witness :
  exists w',
    sms_command (announced "+48123456789" "guard single")
    = Ret (Flags 1 1) w' /\
    continousgps w' = 255 /\
    times_sent COMMANDSINGLEACK (trace w') = 1 /\
    times_sent GUARD (trace w') = 1.
Proof.
  eassert (H1 : bind readsmstxt
                  (fun _ => bind readsmsphonenumber
                     (fun _ => put set_continousgps 0))
                  (announced "+48123456789" "guard single") = Ret tt _)
    by (vm_compute; reflexivity).
  match type of H1 with
  | _ = Ret _ ?w1 =>
      eassert (H2 : ready _ w1)
        by (split; [vm_compute; reflexivity | reflexivity])
  end.
  destruct (sms_command_obeys_every_keyword_found _ _ _ H1 H2)
    as (w' & S & C & T).
  exists w'. split; [|split; [|split]].
  - rewrite S. vm_compute. reflexivity.
  - rewrite C. vm_compute. reflexivity.
  - rewrite T. vm_compute. reflexivity.
  - rewrite T. vm_compute. reflexivity.
Defined.

(** ** A text that does not end within 150 bytes *)

(** Bytes of a line that is still open when the counter reaches 150. *)
Lemma readsmstxt_loop_fill (l : list byte) :
  forall (c : byte) (fuel i : nat) (w : world),
    Forall (fun c => is_eol c = false) (c :: l) ->
    incoming w (c :: l) ->
    i + S (length l) = 150 ->
    smstext_pos w + S (length l) <= length (smstext w) ->
    smstext_pos w + S (length l) < 256 ->
    length l < fuel ->
    readsmstxt_loop fuel i w =
    Ret tt
      (set_smstext
         (firstn (smstext_pos w) (smstext w) ++ c :: l
            ++ skipn (smstext_pos w + S (length l)) (smstext w))
         (set_smstext_pos (smstext_pos w + S (length l))
            (set_rx_pos (rx_pos w + S (length l)) w))).
Proof.
  induction l as [|d l IH]; intros c fuel i w Hl Hin Hi Hr H8 Hf;
    unfold incoming in *; cbn [length] in *;
    (destruct fuel as [|fuel]; [lia|]);
    cbn [readsmstxt_loop]; run;
    assert (Hc0 : rx w (rx_pos w) = c)
      by (specialize (Hin 0 ltac:(lia)); rewrite Nat.add_0_r in Hin;
          exact Hin);
    assert (Hc : is_eol c = false) by (now inversion Hl);
    rewrite Hc0, Hc; cbn [negb andb];
    assert (E : (i <? 150) = true) by (apply Nat.ltb_lt; lia);
    rewrite E; run; fields; rewrite store_some by lia; run; fields;
    cbn [Nat.eqb andb]; rewrite !u8_small by lia.
  - assert (E2 : (i + 1 <? 150) = false) by (apply Nat.ltb_ge; lia).
    rewrite E2. rewrite !Nat.add_1_r. unfold upd. cbn [app].
    reflexivity.
  - assert (E2 : (i + 1 <? 150) = true) by (apply Nat.ltb_lt; lia).
    rewrite E2.
    rewrite (IH d); fields; try (rewrite length_upd by lia); try lia.
    + rewrite !Nat.add_1_r. rewrite firstn_upd by lia.
      rewrite skipn_upd by lia. rewrite <- app_assoc. cbn [app].
      replace (S (smstext_pos w) + S (length l))
        with (smstext_pos w + S (S (length l))) by lia.
      replace (S (rx_pos w) + S (length l))
        with (rx_pos w + S (S (length l))) by lia.
      reflexivity.
    + now inversion Hl.
    + intros k Hk. specialize (Hin (S k) ltac:(lia)).
      change (nth (S k) (c :: d :: l) NUL) with (nth k (d :: l) NUL) in Hin.
      rewrite <- Hin. f_equal. lia.
Qed.

Lemma strupr_cells_unterminated (a : array) :
  nul_free a = true -> strupr_cells a = None.
Proof.
  unfold nul_free. induction a as [|c a IH]; intros H.
  - reflexivity.
  - cbn [forallb] in H. apply andb_true_iff in H. destruct H as [Hc Ha].
    apply negb_true_iff in Hc. cbn [strupr_cells].
    now rewrite Hc, (IH Ha).
Qed.

Lemma bind_overrun {A B : Type} (m : M A) (k : A -> M B) (w : world)
    (a : string) (i : nat) :
  m w = OutOfBounds a i -> bind m k w = OutOfBounds a i.
Proof. unfold bind. now intros ->. Qed.

Lemma readsmsphonenumber_frame (w w' : world) (r : nat) :
  readsmsphonenumber w = Ret r w' -> but_sender w' = but_sender w.
Proof.
  unfold readsmsphonenumber. run. intros H.
  destruct (skip_response 150 ":"%char 0 _) as [i1 w1| |] eqn:S1;
    try discriminate.
  destruct (skip_response 150 DQ i1 w1) as [i2 w2| |] eqn:S2;
    try discriminate.
  destruct (copy_number 150 i2 w2) as [i3 w3| |] eqn:S3; try discriminate.
  destruct (store _ _ _) as [a|] eqn:S; [|discriminate].
  injection H as _ <-.
  apply skip_response_frame in S1. destruct S1 as (F1 & _).
  apply skip_response_frame in S2. destruct S2 as (F2 & _).
  apply copy_number_frame in S3. destruct S3 as (F3 & _).
  transitivity (but_sender w3); [reflexivity|].
  rewrite F3, F2, F1. reflexivity.
Qed.

(** X25.  [readsmstxt] stops after
    150 bytes, the line-end bytes before the text included, and then
    leaves the text without a terminator.  When no cell of [smstext]
    holds one, as is the case until a shorter message has been read,
    the first keyword test lets [strupr] run past the end of the
    array: a text of 150 characters or more stops the dispatcher. *)
Theorem long_text_runs_strupr_off_the_buffer (blank l : list byte)
    (w : world) :
  Forall (fun c => is_eol c = true) blank ->
  Forall (fun c => is_eol c = false) l ->
  incoming w (blank ++ l) ->
  0 < length l -> length blank + length l = 150 ->
  length l <= length (smstext w) ->
  nul_free (l ++ skipn (length l) (smstext w)) = true ->
  length (buf w) = 40 ->
  readsmstxt w =
  Ret 1
    (set_smstext (l ++ skipn (length l) (smstext w))
       (set_smstext_pos (length l) (set_rx_pos (rx_pos w + 150) w))) /\
  (forall r w2,
     readsmsphonenumber
       (set_smstext (l ++ skipn (length l) (smstext w))
          (set_smstext_pos (length l) (set_rx_pos (rx_pos w + 150) w)))
     = Ret r w2 ->
     sms_command w = OutOfBounds "smstext" (length (smstext w))).
Proof.
  intros Hb Hl Hin Hn Hlen Hs Hnul Hbuf.
  assert (R : readsmstxt w =
    Ret 1
      (set_smstext (l ++ skipn (length l) (smstext w))
         (set_smstext_pos (length l) (set_rx_pos (rx_pos w + 150) w)))).
  { apply incoming_app in Hin. destruct Hin as [Hin1 Hin2].
    unfold readsmstxt. run.
    destruct l as [|c l]; [cbn in Hn; lia|]. cbn [length] in *.
    rewrite (readsmstxt_loop_blank (length blank)); fields; try lia.
    - rewrite (readsmstxt_loop_fill l c); fields; try lia;
        try assumption.
      cbn [firstn app Nat.add].
      replace (rx_pos w + length blank + S (length l))
        with (rx_pos w + 150) by lia.
      reflexivity.
    - apply incoming_eol; assumption. }
  split; [exact R|].
  intros r w2 P. unfold sms_command.
  rewrite (bind_ret _ _ _ _ _ R). cbv beta.
  rewrite (bind_ret _ _ _ _ _ P). cbv beta.
  apply readsmsphonenumber_frame in P.
  assert (S2 : smstext w2 = l ++ skipn (length l) (smstext w))
    by (apply (f_equal smstext) in P; exact P).
  assert (B2 : buf w2 = buf w)
    by (apply (f_equal buf) in P; exact P).
  rewrite (bind_ret _ _ _ _ _
             (eq_refl : put set_continousgps 0 w2 = Ret tt _)).
  cbv beta. apply bind_overrun. unfold on_keyword.
  rewrite (bind_ret _ _ _ _ _
             (load_token_runs ISMULTI (list_ascii_of_string "MULTI")
                (set_continousgps 0 w2) eq_refl ltac:(fields; rewrite B2, Hbuf; cbn; lia))).
  cbv beta. apply bind_overrun. unfold found_in_upper_smstext. fields.
  rewrite S2, (strupr_cells_unterminated _ Hnul).
  rewrite length_app, length_skipn.
  replace (length l + (length (smstext w) - length l))
    with (length (smstext w)) by lia.
  reflexivity.
Qed.

(** The longest text a single SMS carries, 160 letters. *)
Lemma long_text_runs_strupr_off_the_buffer_witness :
  sms_command (announced "+48123456789" long_text)
  = OutOfBounds "smstext" 170.
Proof.
  destruct (long_text_runs_strupr_off_the_buffer [LF]
              (repeat "a"%char 149)
              (announced "+48123456789" long_text)) as [_ H].
  - repeat constructor.
  - apply Forall_forall. intros x Hx. apply repeat_spec in Hx.
    now subst.
  - intros k Hk. cbn [app length] in Hk. rewrite repeat_length in Hk.
    do 150 (destruct k as [|k]; [vm_compute; reflexivity|]). lia.
  - rewrite repeat_length. lia.
  - rewrite repeat_length. reflexivity.
  - rewrite repeat_length. vm_compute. lia.
  - vm_compute. reflexivity.
  - reflexivity.
  - eapply H. vm_compute. reflexivity.
Defined.

(** ** The registration state machine, in terms of its queries *)

(** X26.  In terms of what each query
    observes, [checkregistration] returns 1 at once, with nothing sent
    but the query, when the first query finds a registration code;
    otherwise it switches the radio on and returns 1 from the first of
    at most 24 cycles that finds one, and 0 when 24 cycles found
    none. *)
Theorem registration_follows_the_queries (w w1 : world) :
  (first_query w = Ret true w1 ->
   checkregistration w = Ret 1 w1 /\
   trace w1 = trace w ++ [Delay 1; Tx (cstr SHOW_REGISTRATION)]) /\
  (first_query w = Ret false w1 ->
   forall k w2 w3,
     radio_on w1 = Ret tt w2 -> failed_cycles k w2 w3 ->
     (k = 24 -> checkregistration w = Ret 0 w3) /\
     (forall w4, k < 24 -> cycle w3 = Ret true w4 ->
        checkregistration w = Ret 1 w4)).
Proof. exact (registration_state_machine w w1). Qed.

(** ** The number stored by ACTIVATE is never read *)

Lemma forget_same (w1 w2 : world) :
  set_eeprom [] w1 = set_eeprom [] w2 -> w1 = set_eeprom (eeprom w1) w2.
Proof.
  destruct w1, w2. unfold set_eeprom. cbn. intros H.
  injection H; intros; subst; reflexivity.
Qed.

Lemma blind_ret {A : Type} (a : A) : eeprom_blind (ret a).
Proof. intros w e. reflexivity. Qed.

Lemma blind_bind {A B : Type} (m : M A) (k : A -> M B) :
  eeprom_blind m -> (forall a, eeprom_blind (k a)) ->
  eeprom_blind (bind m k).
Proof.
  intros Hm Hk w e. unfold bind. specialize (Hm w e).
  destruct (m (set_eeprom e w)) as [a1 w1| |], (m w) as [a2 w2| |];
    unfold forget_eeprom in Hm; try discriminate;
    try (injection Hm as -> ->); try reflexivity.
  apply Ret_inj in Hm. destruct Hm as [-> Hw].
  apply forget_same in Hw. rewrite Hw. apply Hk.
Qed.

Lemma blind_stuck {A : Type} : eeprom_blind (fun _ => @NoFuel A).
Proof. intros w e. reflexivity. Qed.

Lemma blind_get {A : Type} (f : world -> A) :
  (forall w e, f (set_eeprom e w) = f w) -> eeprom_blind (get f).
Proof.
  intros Hf w e. unfold get. rewrite Hf. reflexivity.
Qed.

Lemma blind_put {A : Type} (set : A -> world -> world) (v : A) :
  (forall w e,
     set_eeprom [] (set v (set_eeprom e w)) = set_eeprom [] (set v w)) ->
  eeprom_blind (put set v).
Proof.
  intros Hs w e. unfold put, forget_eeprom. now rewrite Hs.
Qed.

Lemma blind_poke (name : string) (g : world -> array)
    (set : array -> world -> world) (i : nat) (c : byte) :
  (forall w e, g (set_eeprom e w) = g w) ->
  (forall v w e,
     set_eeprom [] (set v (set_eeprom e w)) = set_eeprom [] (set v w)) ->
  eeprom_blind (poke name g set i c).
Proof.
  intros Hg Hs w e. unfold poke. rewrite Hg.
  destruct (store (g w) i c); [|reflexivity].
  unfold forget_eeprom. now rewrite Hs.
Qed.

Lemma blind_memcpy (name : string) (g : world -> array)
    (set : array -> world -> world) (src : array) (n : nat) :
  (forall w e, g (set_eeprom e w) = g w) ->
  (forall v w e,
     set_eeprom [] (set v (set_eeprom e w)) = set_eeprom [] (set v w)) ->
  eeprom_blind (memcpy name g set src n).
Proof.
  intros Hg Hs w e. unfold memcpy. rewrite Hg.
  destruct (n <=? length (g w)); [|reflexivity].
  unfold forget_eeprom. now rewrite Hs.
Qed.

Lemma blind_emit (ev : event) : eeprom_blind (emit ev).
Proof. intros w e. reflexivity. Qed.

Lemma blind_receive_uart : eeprom_blind receive_uart.
Proof. intros w e. reflexivity. Qed.

Lemma blind_found_in (g : world -> array) :
  (forall w e, g (set_eeprom e w) = g w) -> eeprom_blind (found_in g).
Proof.
  intros Hg w e. unfold found_in. rewrite Hg. reflexivity.
Qed.

Lemma blind_found_in_upper_smstext : eeprom_blind found_in_upper_smstext.
Proof.
  intros w e. unfold found_in_upper_smstext.
  change (smstext (set_eeprom e w)) with (smstext w).
  destruct (strupr_cells (smstext w)); reflexivity.
Qed.

(** One step of the argument: the primitives above, sequencing, and the
    tests on values already read. *)
Ltac blind_step :=
  match goal with
  | H : _ |- _ => exact H
  | |- eeprom_blind (ret _) => apply blind_ret
  | |- eeprom_blind (fun _ => NoFuel) => apply blind_stuck
  | |- eeprom_blind (emit _) => apply blind_emit
  | |- eeprom_blind receive_uart => apply blind_receive_uart
  | |- eeprom_blind found_in_upper_smstext =>
      apply blind_found_in_upper_smstext
  | |- eeprom_blind (get _) => apply blind_get; intros; reflexivity
  | |- eeprom_blind (put _ _) => apply blind_put; intros; reflexivity
  | |- eeprom_blind (poke _ _ _ _ _) =>
      apply blind_poke; intros; reflexivity
  | |- eeprom_blind (memcpy _ _ _ _ _) =>
      apply blind_memcpy; intros; reflexivity
  | |- eeprom_blind (found_in _) =>
      apply blind_found_in; intros; reflexivity
  | |- eeprom_blind (bind _ _) => apply blind_bind; [|intros ?]
  | |- eeprom_blind (if ?b then _ else _) => destruct b
  | |- eeprom_blind (match ?x with inl _ => _ | inr _ => _ end) =>
      destruct x
  | |- eeprom_blind _ => solve [auto with blind]
  end.

Ltac blind :=
  unfold when, uart_puts, uart_puts_P, delay_sec, send_uart, load_token;
  cbv zeta; repeat blind_step.

Create HintDb blind.

Lemma blind_readline_loop (fuel : nat) :
  forall i, eeprom_blind (readline_loop fuel i).
Proof. induction fuel; intros i; cbn [readline_loop]; blind. Qed.
#[local] Hint Extern 0 (eeprom_blind (readline_loop _ _)) =>
  apply blind_readline_loop : blind.

Lemma blind_readline : eeprom_blind readline.
Proof. unfold readline. blind. Qed.
#[local] Hint Extern 0 (eeprom_blind (readline)) =>
  apply blind_readline : blind.

Lemma blind_readsmstxt_loop (fuel : nat) :
  forall i, eeprom_blind (readsmstxt_loop fuel i).
Proof. induction fuel; intros i; cbn [readsmstxt_loop]; blind. Qed.
#[local] Hint Extern 0 (eeprom_blind (readsmstxt_loop _ _)) =>
  apply blind_readsmstxt_loop : blind.

Lemma blind_readsmstxt : eeprom_blind readsmstxt.
Proof. unfold readsmstxt. blind. Qed.
#[local] Hint Extern 0 (eeprom_blind (readsmstxt)) =>
  apply blind_readsmstxt : blind.

Lemma blind_skip_response (fuel : nat) :
  forall stop i, eeprom_blind (skip_response fuel stop i).
Proof. induction fuel; intros stop i; cbn [skip_response]; blind. Qed.
#[local] Hint Extern 0 (eeprom_blind (skip_response _ _ _)) =>
  apply blind_skip_response : blind.

Lemma blind_copy_number (fuel : nat) :
  forall i, eeprom_blind (copy_number fuel i).
Proof. induction fuel; intros i; cbn [copy_number]; blind. Qed.
#[local] Hint Extern 0 (eeprom_blind (copy_number _ _)) =>
  apply blind_copy_number : blind.

Lemma blind_readsmsphonenumber : eeprom_blind readsmsphonenumber.
Proof. unfold readsmsphonenumber. blind. Qed.
#[local] Hint Extern 0 (eeprom_blind (readsmsphonenumber)) =>
  apply blind_readsmsphonenumber : blind.

Lemma blind_skip_uart (fuel : nat) :
  forall stop lim i, eeprom_blind (skip_uart fuel stop lim i).
Proof. induction fuel; intros stop lim i; cbn [skip_uart]; blind. Qed.
#[local] Hint Extern 0 (eeprom_blind (skip_uart _ _ _ _)) =>
  apply blind_skip_uart : blind.

Lemma blind_copy_uart (name : string) (g : world -> array)
    (set : array -> world -> world) (gpos : world -> nat)
    (setpos : nat -> world -> world) (stops : list byte) (lim : nat) :
  (forall w e, g (set_eeprom e w) = g w) ->
  (forall v w e,
     set_eeprom [] (set v (set_eeprom e w)) = set_eeprom [] (set v w)) ->
  (forall w e, gpos (set_eeprom e w) = gpos w) ->
  (forall v w e,
     set_eeprom [] (setpos v (set_eeprom e w))
     = set_eeprom [] (setpos v w)) ->
  forall fuel i,
    eeprom_blind (copy_uart fuel name g set gpos setpos stops lim i).
Proof.
  intros Hg Hs Hp Hsp. induction fuel; intros i; cbn [copy_uart].
  - blind.
  - apply blind_bind; [blind|intros c].
    apply blind_bind; [now apply blind_get|intros pos].
    apply blind_bind; [now apply blind_poke|intros _].
    apply blind_bind; [apply blind_put; intros; apply Hsp|intros _].
    blind.
Qed.

Lemma blind_readbattery : eeprom_blind readbattery.
Proof.
  unfold readbattery. blind.
  apply blind_copy_uart; intros; reflexivity.
Qed.
#[local] Hint Extern 0 (eeprom_blind (readbattery)) =>
  apply blind_readbattery : blind.

Lemma blind_readSIM7000gps : eeprom_blind readSIM7000gps.
Proof.
  unfold readSIM7000gps. blind.
  all: try (apply blind_copy_uart; intros; reflexivity); blind.
Qed.
#[local] Hint Extern 0 (eeprom_blind (readSIM7000gps)) =>
  apply blind_readSIM7000gps : blind.

Lemma blind_readgpsinfo_loop (fuel : nat) :
  forall k, eeprom_blind (readgpsinfo_loop fuel k).
Proof. induction fuel; intros k; cbn [readgpsinfo_loop]; blind. Qed.
#[local] Hint Extern 0 (eeprom_blind (readgpsinfo_loop _ _)) =>
  apply blind_readgpsinfo_loop : blind.

Lemma blind_readgpsinfo : eeprom_blind readgpsinfo.
Proof. unfold readgpsinfo, readgpsinfo_fuel. blind. Qed.
#[local] Hint Extern 0 (eeprom_blind (readgpsinfo)) =>
  apply blind_readgpsinfo : blind.

Lemma blind_checkat_loop (fuel : nat) : eeprom_blind (checkat_loop fuel).
Proof. induction fuel; cbn [checkat_loop]; blind. Qed.
#[local] Hint Extern 0 (eeprom_blind (checkat_loop _)) =>
  apply blind_checkat_loop : blind.

Lemma blind_checkat (fuel : nat) : eeprom_blind (checkat fuel).
Proof. unfold checkat. blind. Qed.

Lemma blind_checkpin_loop (fuel : nat) : eeprom_blind (checkpin_loop fuel).
Proof. induction fuel; cbn [checkpin_loop]; blind. Qed.
#[local] Hint Extern 0 (eeprom_blind (checkpin_loop _)) =>
  apply blind_checkpin_loop : blind.

Lemma blind_checkpin (fuel : nat) : eeprom_blind (checkpin fuel).
Proof. unfold checkpin. blind. Qed.
#[local] Hint Extern 0 (eeprom_blind (checkpin _)) =>
  apply blind_checkpin : blind.

Lemma blind_times (n : nat) (m : M unit) :
  eeprom_blind m -> eeprom_blind (times n m).
Proof. intros H. induction n; cbn [times]; blind. Qed.

Lemma blind_backoff : eeprom_blind backoff.
Proof.
  unfold backoff. blind. apply blind_times. blind.
Qed.
#[local] Hint Extern 0 (eeprom_blind (backoff)) =>
  apply blind_backoff : blind.

Lemma blind_registered : eeprom_blind registered.
Proof. unfold registered. blind. Qed.
#[local] Hint Extern 0 (eeprom_blind (registered)) =>
  apply blind_registered : blind.

Lemma blind_registered_already : eeprom_blind registered_already.
Proof. unfold registered_already. blind. Qed.
#[local] Hint Extern 0 (eeprom_blind (registered_already)) =>
  apply blind_registered_already : blind.

Lemma blind_checkregistration_loop (fuel : nat) :
  forall k, eeprom_blind (checkregistration_loop fuel k).
Proof.
  induction fuel; intros k; cbn [checkregistration_loop]; blind.
Qed.
#[local] Hint Extern 0 (eeprom_blind (checkregistration_loop _ _)) =>
  apply blind_checkregistration_loop : blind.

Lemma blind_checkregistration : eeprom_blind checkregistration.
Proof. unfold checkregistration. blind. Qed.
#[local] Hint Extern 0 (eeprom_blind (checkregistration)) =>
  apply blind_checkregistration : blind.

Lemma blind_wake_modem : eeprom_blind wake_modem.
Proof. unfold wake_modem. blind. Qed.
#[local] Hint Extern 0 (eeprom_blind (wake_modem)) =>
  apply blind_wake_modem : blind.

Lemma blind_sms_open : eeprom_blind sms_open.
Proof. unfold sms_open. blind. Qed.
#[local] Hint Extern 0 (eeprom_blind (sms_open)) =>
  apply blind_sms_open : blind.

Lemma blind_sms_close : eeprom_blind sms_close.
Proof. unfold sms_close. blind. Qed.
#[local] Hint Extern 0 (eeprom_blind (sms_close)) =>
  apply blind_sms_close : blind.

Lemma blind_on_keyword (kw : array) (br : M flags) (f : flags) :
  eeprom_blind br -> eeprom_blind (on_keyword kw br f).
Proof. intros H. unfold on_keyword. blind. Qed.

Lemma blind_sms_command : eeprom_blind sms_command.
Proof.
  unfold sms_command. blind; apply blind_on_keyword;
    unfold multi_branch, single_branch, activate_branch, guard_branch;
    blind.
Qed.
#[local] Hint Extern 0 (eeprom_blind (sms_command)) =>
  apply blind_sms_command : blind.

Lemma blind_on_line (fuel : nat) (f : flags) :
  eeprom_blind (on_line fuel f).
Proof. unfold on_line. blind. Qed.

Lemma blind_stop_branch : eeprom_blind stop_branch.
Proof. unfold stop_branch. blind. Qed.
#[local] Hint Extern 0 (eeprom_blind (stop_branch)) =>
  apply blind_stop_branch : blind.

Lemma blind_on_guard_line : eeprom_blind on_guard_line.
Proof. unfold on_guard_line. blind. Qed.

Lemma blind_seed_positions : eeprom_blind seed_positions.
Proof. unfold seed_positions. blind. Qed.

Lemma blind_gps_pass {fp : libm} : eeprom_blind gps_pass.
Proof.
  unfold gps_pass, position_sms, guard_step, guard_check,
    remember_position, alert.
  blind.
Qed.

(** X27.  ACTIVATE writes the sender's number
    to the EEPROM, and nothing reads it back: whatever the EEPROM holds,
    the start-up seeding, [checkat], [checkpin], [checkregistration], the
    reaction to a received line with all four command branches, a pass
    of the position loop and the guard-mode listener return the same
    value, send the same bytes, wait as long and leave every variable
    the same.  The stored number therefore has no part in deciding whom
    the tracker answers or obeys. *)
Theorem stored_number_is_never_read {fp : libm} (fuel : nat) (f : flags)
    (e : array) (w : world) :
  forget_eeprom (seed_positions (set_eeprom e w))
    = forget_eeprom (seed_positions w) /\
  forget_eeprom (checkat fuel (set_eeprom e w))
    = forget_eeprom (checkat fuel w) /\
  forget_eeprom (checkpin fuel (set_eeprom e w))
    = forget_eeprom (checkpin fuel w) /\
  forget_eeprom (checkregistration (set_eeprom e w))
    = forget_eeprom (checkregistration w) /\
  forget_eeprom (on_line fuel f (set_eeprom e w))
    = forget_eeprom (on_line fuel f w) /\
  forget_eeprom (gps_pass (set_eeprom e w))
    = forget_eeprom (gps_pass w) /\
  forget_eeprom (on_guard_line (set_eeprom e w))
    = forget_eeprom (on_guard_line w).
Proof.
  repeat split.
  - apply blind_seed_positions.
  - apply blind_checkat.
  - apply blind_checkpin.
  - apply blind_checkregistration.
  - apply blind_on_line.
  - apply blind_gps_pass.
  - apply blind_on_guard_line.
Qed.

(** ** Registration, reply by reply *)

Lemma emits_frame (es : list event) (w : world) :
  emits es w = set_trace (trace w ++ es) w.
Proof.
  revert w. induction es as [|e es IH]; intros w; cbn [emits fold_left].
  - rewrite app_nil_r. now destruct w.
  - change (fold_left _ es ?x) with (emits es x). rewrite IH. fields.
    now rewrite <- app_assoc.
Qed.

(** [readline] on a reply. *)
Lemma readline_reply (r : reply) (w : world) :
  framed r -> incoming w (wire r) ->
  length (reply_text r) < length (response w) ->
  readline w =
  Ret 1
    (set_response
       (reply_text r ++ NUL :: skipn (S (length (reply_text r))) (response w))
       (set_response_pos 0 (set_rx_pos (rx_pos w + length (wire r)) w))).
Proof.
  intros (Hb & Hl & Hc & Hn & Hlen) Hin Hr. unfold wire in *.
  apply incoming_app in Hin. destruct Hin as [Hin1 Hin2].
  apply incoming_app in Hin2. destruct Hin2 as [Hin2 Hin3].
  unfold readline. run.
  rewrite (readline_loop_blank (length (reply_lead r))); fields; try lia.
  - rewrite (readline_loop_line (reply_text r)); fields; try lia;
      try assumption.
    + unfold place. cbn [firstn app Nat.add].
      rewrite !length_app. cbn [length].
      replace (rx_pos w + length (reply_lead r) + S (length (reply_text r)))
        with (rx_pos w
              + (length (reply_lead r) + (length (reply_text r) + 1)))
        by lia.
      reflexivity.
    + specialize (Hin3 0 ltac:(cbn; lia)). fields.
      rewrite Nat.add_0_r in Hin3. cbn [nth] in Hin3.
      rewrite Hin3. exact Hc.
  - apply incoming_eol; assumption.
Qed.

(** *** What the matcher finds in a stored reply *)

Lemma finds_behind_clean_prefix (t pre post : list byte) :
  t <> [] -> nul_free t = true ->
  Forall (fun c => c <> hd NUL t) pre ->
  length pre < BUFFER_SIZE ->
  finds (t ++ [NUL]) (pre ++ t ++ post) = true.
Proof.
  intros Hne Ht Hpre Hn. unfold finds.
  now rewrite (search_after_clean_prefix pre t post [] BUFFER_SIZE).
Qed.

Lemma finds_absent (t a : list byte) :
  nul_free t = true -> ~ occurs t a -> finds (t ++ [NUL]) a = false.
Proof.
  intros Ht Hno. unfold finds, is_in_rx_buffer.
  destruct (search_01 BUFFER_SIZE 0 0 a (t ++ [NUL])) as [E | E].
  - now rewrite E.
  - exfalso.
    apply (is_in_rx_buffer_sound a (t ++ [NUL]) BUFFER_SIZE) in E.
    destruct E as (_ & _ & _ & Ho). rewrite cstr_token in Ho by assumption.
    now apply Hno.
Qed.

Lemma nul_free_In (t : list byte) : nul_free t = true -> ~ In NUL t.
Proof.
  unfold nul_free. intros H Hin.
  rewrite forallb_forall in H. specialize (H NUL Hin). discriminate H.
Qed.

(** A token without terminator that occurs in a stored line occurs in
    the line itself or in what the buffer held behind it. *)
Lemma occurs_in_stored (tok l r : list byte) :
  tok <> [] -> nul_free tok = true ->
  occurs tok (l ++ NUL :: skipn (S (length l)) r) ->
  occurs tok l \/
  exists pre post, r = pre ++ tok ++ post /\ pre <> [].
Proof.
  intros Hne Hnf (pre & post & E).
  apply nul_free_In in Hnf.
  apply app_eq_app in E. destruct E as (m & [[E1 E2] | [E1 E2]]).
  - (* the token starts inside the line *)
    apply app_eq_app in E2. destruct E2 as (m2 & [[E3 E4] | [E3 E4]]).
    + destruct m2 as [|c m2].
      * left. exists pre, []. rewrite E1, E3, !app_nil_r. reflexivity.
      * injection E4 as <- _. exfalso. apply Hnf. rewrite E3.
        apply in_or_app. right. now left.
    + left. exists pre, m2. rewrite E1, E3. reflexivity.
  - (* the token starts behind the line *)
    right. destruct m as [|c m].
    + cbn [app] in E2. destruct tok as [|c tok]; [congruence|].
      injection E2 as <- _. exfalso. apply Hnf. now left.
    + injection E2 as <- E2.
      exists (firstn (S (length l)) r ++ m), post. split.
      * rewrite <- app_assoc, <- E2. now rewrite firstn_skipn.
      * intros H. apply app_eq_nil in H. destruct H as [H _].
        destruct r as [|x r]; [|discriminate H].
        destruct m; destruct tok; cbn in E2; congruence.
Qed.

Lemma code_is_token (tok : list byte) :
  tok = cstr ISREG1 \/ tok = cstr ISREG2 ->
  tok <> [] /\ nul_free tok = true /\ hd NUL tok = "+"%char /\
  (tok ++ [NUL] = ISREG1 \/ tok ++ [NUL] = ISREG2).
Proof.
  intros [-> | ->]; (split; [discriminate|]); (split; [reflexivity|]);
    (split; [reflexivity|]); [left | right]; reflexivity.
Qed.

(** A reply without a code, stored over a buffer without a stale code,
    leaves no code in the buffer. *)
Lemma stored_reply_holds_no_code (l r : list byte) (tok : list byte) :
  tok = cstr ISREG1 \/ tok = cstr ISREG2 ->
  reports_none l -> no_stale_code r ->
  ~ occurs tok (l ++ NUL :: skipn (S (length l)) r).
Proof.
  intros Ht [N1 N2] Hs Ho.
  destruct (code_is_token tok Ht) as (Hne & Hnf & _ & _).
  apply occurs_in_stored in Ho; [|assumption|assumption].
  destruct Ho as [Ho | (pre & post & E & Hp)].
  - destruct Ht as [-> | ->]; contradiction.
  - apply Hp. exact (Hs tok pre post Ht E).
Qed.

(** *** The verdict of a query *)

Lemma query_reads_reply (es : list event) (r : reply) (w : world) :
  framed r -> incoming w (wire r) ->
  length (reply_text r) < length (response w) ->
  readline (emits es w) = Ret 1 (queried es (buf w) r w).
Proof.
  intros Hf Hin Hr. rewrite emits_frame.
  rewrite (readline_reply r); [| assumption | | fields; assumption].
  - unfold queried. destruct w. reflexivity.
  - eapply incoming_same; [| |exact Hin]; reflexivity.
Qed.

Lemma registered_already_judges (w : world) :
  length (buf w) = 40 ->
  registered_already w =
  Ret (finds ISREG1 (response w) || finds ISREG2 (response w))
    (set_buf (if finds ISREG1 (response w) then token_in ISREG1 (buf w)
              else both_codes (buf w)) w).
Proof.
  intros Hb. unfold registered_already, both_codes. run.
  rewrite (load_token_runs ISREG1 (list_ascii_of_string "+CREG: 0,1") w
             eq_refl) by (rewrite Hb; cbn; lia).
  unfold found_in. cbv beta iota. fields.
  rewrite (finds_token_in ISREG1 (list_ascii_of_string "+CREG: 0,1")
             _ _ eq_refl eq_refl).
  destruct (finds ISREG1 (response w)); [reflexivity|].
  cbn [orb].
  rewrite (load_token_runs ISREG2 (list_ascii_of_string "+CREG: 0,5") _
             eq_refl)
    by (fields;
        rewrite (length_token_in _ (list_ascii_of_string "+CREG: 0,1")
                   _ eq_refl);
        rewrite Hb; cbn; lia).
  cbv beta iota. fields.
  rewrite (finds_token_in ISREG2 (list_ascii_of_string "+CREG: 0,5")
             _ _ eq_refl eq_refl).
  destruct w. reflexivity.
Qed.

Lemma registered_judges (w : world) :
  length (buf w) = 40 ->
  registered w =
  Ret (finds ISREG1 (response w) || finds ISREG2 (response w))
    (set_buf (both_codes (buf w)) w).
Proof.
  intros Hb. unfold registered, both_codes. run.
  rewrite (load_token_runs ISREG1 (list_ascii_of_string "+CREG: 0,1") w
             eq_refl) by (rewrite Hb; cbn; lia).
  unfold found_in. cbv beta iota. fields.
  rewrite (finds_token_in ISREG1 (list_ascii_of_string "+CREG: 0,1")
             _ _ eq_refl eq_refl).
  rewrite (load_token_runs ISREG2 (list_ascii_of_string "+CREG: 0,5") _
             eq_refl)
    by (fields;
        rewrite (length_token_in _ (list_ascii_of_string "+CREG: 0,1")
                   _ eq_refl);
        rewrite Hb; cbn; lia).
  cbv beta iota. fields.
  rewrite (finds_token_in ISREG2 (list_ascii_of_string "+CREG: 0,5")
             _ _ eq_refl eq_refl).
  destruct w. reflexivity.
Qed.

Lemma length_stored (l : list byte) (r : array) :
  length l < length r -> length (stored l r) = length r.
Proof.
  intros H. unfold stored. rewrite length_app. cbn [length].
  rewrite length_skipn. lia.
Qed.

Lemma length_both_codes (b : array) :
  length b = 40 -> length (both_codes b) = 40.
Proof.
  intros H. unfold both_codes.
  rewrite (length_token_in _ (list_ascii_of_string "+CREG: 0,5") _ eq_refl);
    rewrite (length_token_in _ (list_ascii_of_string "+CREG: 0,1") _ eq_refl);
    rewrite ?H; cbn; lia.
Qed.

(** The first query, in terms of the reply it reads. *)
Lemma first_query_on_reply (r : reply) (w : world) :
  framed r -> incoming w (wire r) ->
  length (response w) = BUFFER_SIZE -> length (buf w) = 40 ->
  first_query w =
  Ret (finds ISREG1 (stored (reply_text r) (response w))
       || finds ISREG2 (stored (reply_text r) (response w)))
    (queried [Delay 1; Tx (cstr SHOW_REGISTRATION)]
       (if finds ISREG1 (stored (reply_text r) (response w))
        then token_in ISREG1 (buf w) else both_codes (buf w)) r w).
Proof.
  intros Hf Hin Hr Hb.
  assert (R := query_reads_reply [Delay 1; Tx (cstr SHOW_REGISTRATION)]
                 r w Hf Hin
                 ltac:(destruct Hf as (_ & _ & _ & _ & H); rewrite Hr;
                       unfold BUFFER_SIZE; lia)).
  unfold first_query. run. cbn [emits fold_left] in R. fields.
  rewrite R. change (0 <? 1) with true. cbv beta iota.
  rewrite registered_already_judges by (unfold queried; fields; exact Hb).
  unfold queried. fields. destruct w. reflexivity.
Qed.

(** A cycle, in terms of the reply it reads. *)
Lemma cycle_on_reply (r : reply) (w : world) :
  framed r -> incoming w (wire r) ->
  length (response w) = BUFFER_SIZE -> length (buf w) = 40 ->
  cycle w =
  if finds ISREG1 (stored (reply_text r) (response w))
     || finds ISREG2 (stored (reply_text r) (response w))
  then Ret true
         (queried [Delay 120; Tx (cstr SHOW_REGISTRATION)]
            (both_codes (buf w)) r w)
  else Ret false (queried failed_cycle_events (both_codes (buf w)) r w).
Proof.
  intros Hf Hin Hr Hb.
  assert (R := query_reads_reply [Delay 120; Tx (cstr SHOW_REGISTRATION)]
                 r w Hf Hin
                 ltac:(destruct Hf as (_ & _ & _ & _ & H); rewrite Hr;
                       unfold BUFFER_SIZE; lia)).
  rewrite cycle_unfold, R.
  rewrite registered_judges by (unfold queried; fields; exact Hb).
  unfold queried at 1 2. fields.
  destruct (_ || _).
  - unfold queried. destruct w. reflexivity.
  - rewrite emits_frame. unfold queried, failed_cycle_events. fields.
    rewrite <- app_assoc. destruct w. reflexivity.
Qed.

(** *** The verdict on a reply *)

Lemma verdict_on_registration (l : list byte) (r : array) :
  reports_registration l -> length l < BUFFER_SIZE ->
  finds ISREG1 (stored l r) || finds ISREG2 (stored l r) = true.
Proof.
  intros (tok & pre & post & Ht & -> & Hpre) Hl.
  destruct (code_is_token tok Ht) as (Hne & Hnf & Hhd & Hk).
  assert (F : finds (tok ++ [NUL]) (stored (pre ++ tok ++ post) r) = true).
  { unfold stored. rewrite <- !app_assoc.
    apply finds_behind_clean_prefix; try assumption.
    - now rewrite Hhd.
    - rewrite length_app in Hl. lia. }
  destruct Hk as [Hk | Hk]; rewrite Hk in F; rewrite F;
    [reflexivity | apply orb_true_r].
Qed.

Lemma verdict_on_none (l : list byte) (r : array) :
  reports_none l -> no_stale_code r ->
  finds ISREG1 (stored l r) || finds ISREG2 (stored l r) = false /\
  no_stale_code (stored l r).
Proof.
  intros Hn Hs.
  assert (N : forall tok, tok = cstr ISREG1 \/ tok = cstr ISREG2 ->
                ~ occurs tok (stored l r))
    by (intros tok Ht; now apply stored_reply_holds_no_code).
  split.
  - change ISREG1 with (cstr ISREG1 ++ [NUL]).
    change ISREG2 with (cstr ISREG2 ++ [NUL]).
    rewrite !finds_absent; try reflexivity; apply N; auto.
  - intros tok pre post Ht E. exfalso. apply (N tok Ht).
    now exists pre, post.
Qed.

(** *** The replies one after the other *)

Lemma listening_queried (es : list event) (b : array) (r : reply)
    (w : world) :
  listening w -> framed r -> reports_none (reply_text r) ->
  length b = 40 ->
  listening (queried es b r w).
Proof.
  intros (Hr & Hb & Hs) (_ & _ & _ & _ & Hl) Hn Hb'.
  unfold listening, queried. fields. repeat split.
  - rewrite length_stored; [exact Hr|]. rewrite Hr. unfold BUFFER_SIZE. lia.
  - exact Hb'.
  - now apply verdict_on_none.
Qed.

Lemma concat_repeat_S {A : Type} (l : list A) (k : nat) :
  l ++ concat (repeat l k) = concat (repeat l k) ++ l.
Proof.
  induction k as [|k IH]; cbn [repeat concat].
  - now rewrite app_nil_r.
  - now rewrite <- app_assoc, <- IH.
Qed.

(** Cycles on replies that report no registration. *)
Lemma cycles_on_none (rs : list reply) :
  forall w,
    listening w -> Forall framed rs ->
    Forall (fun r => reports_none (reply_text r)) rs ->
    incoming w (concat (map wire rs)) ->
    exists w',
      failed_cycles (length rs) w w' /\ listening w' /\
      rx w' = rx w /\
      rx_pos w' = rx_pos w + length (concat (map wire rs)) /\
      trace w' = trace w ++ concat (repeat failed_cycle_events (length rs)).
Proof.
  induction rs as [|r rs IH]; intros w Hw Hf Hn Hin.
  - exists w. split; [constructor|]. split; [exact Hw|].
    cbn. rewrite Nat.add_0_r, app_nil_r. auto.
  - inversion Hf as [|? ? Hf1 Hf2]; subst.
    inversion Hn as [|? ? Hn1 Hn2]; subst.
    cbn [map concat] in Hin. apply incoming_app in Hin.
    destruct Hin as [Hin1 Hin2].
    destruct Hw as (Hr & Hb & Hs).
    assert (C := cycle_on_reply r w Hf1 Hin1 Hr Hb).
    destruct (verdict_on_none _ _ Hn1 Hs) as [V _]. rewrite V in C.
    set (w1 := queried failed_cycle_events (both_codes (buf w)) r w) in *.
    assert (L1 : listening w1).
    { apply listening_queried; try assumption; [now repeat split|].
      now apply length_both_codes. }
    destruct (IH w1 L1 Hf2 Hn2) as (w' & Hc & L' & Hrx & Hpos & Htr).
    { eapply incoming_same; [| |exact Hin2];
        unfold w1, queried; fields; reflexivity. }
    exists w'. split; [econstructor; eassumption|].
    split; [exact L'|]. split; [rewrite Hrx; reflexivity|].
    split.
    + rewrite Hpos. unfold w1, queried. fields.
      cbn [map concat]. rewrite length_app. lia.
    + rewrite Htr. unfold w1, queried. fields.
      cbn [length repeat concat]. now rewrite <- !app_assoc.
Qed.

Lemma times_sent_app (tok : array) (a b : list event) :
  times_sent tok (a ++ b) = times_sent tok a + times_sent tok b.
Proof. unfold times_sent. now rewrite filter_app, length_app. Qed.

Lemma times_sent_cycles (tok : array) (l : list event) (k : nat) :
  times_sent tok (concat (repeat l k)) = k * times_sent tok l.
Proof.
  induction k as [|k IH]; [reflexivity|].
  cbn [repeat concat]. rewrite times_sent_app, IH. lia.
Qed.

Lemma radio_on_runs (w : world) :
  radio_on w = Ret tt (set_trace (trace w ++ [Delay 1; Tx (cstr FLIGHTOFF)]) w).
Proof.
  unfold radio_on. run. fields. rewrite <- app_assoc. reflexivity.
Qed.

Lemma wire_last (rs : list reply) (r : reply) :
  concat (map wire (rs ++ [r])) = concat (map wire rs) ++ wire r.
Proof.
  rewrite map_app, concat_app. cbn [map concat]. now rewrite app_nil_r.
Qed.

Lemma registration_events_count (k : nat) :
  times_sent SHOW_REGISTRATION (registration_events k) = S k /\
  times_sent SLEEPON (registration_events k) = k - 1.
Proof.
  assert (C1 : times_sent SHOW_REGISTRATION failed_cycle_events = 1)
    by (vm_compute; reflexivity).
  assert (C2 : times_sent SLEEPON failed_cycle_events = 1)
    by (vm_compute; reflexivity).
  destruct k as [|k]; [split; vm_compute; reflexivity|].
  unfold registration_events.
  rewrite !times_sent_app, !times_sent_cycles, C1, C2.
  replace (times_sent SHOW_REGISTRATION
             [Delay 1; Tx (cstr SHOW_REGISTRATION)])
    with 1 by (vm_compute; reflexivity).
  replace (times_sent SHOW_REGISTRATION [Delay 1; Tx (cstr FLIGHTOFF)])
    with 0 by (vm_compute; reflexivity).
  replace (times_sent SHOW_REGISTRATION
             [Delay 120; Tx (cstr SHOW_REGISTRATION)])
    with 1 by (vm_compute; reflexivity).
  replace (times_sent SLEEPON [Delay 1; Tx (cstr SHOW_REGISTRATION)])
    with 0 by (vm_compute; reflexivity).
  replace (times_sent SLEEPON [Delay 1; Tx (cstr FLIGHTOFF)])
    with 0 by (vm_compute; reflexivity).
  replace (times_sent SLEEPON [Delay 120; Tx (cstr SHOW_REGISTRATION)])
    with 0 by (vm_compute; reflexivity).
  clear C1 C2. split; lia.
Qed.

Lemma given_up_events_count :
  times_sent SHOW_REGISTRATION given_up_events = 25 /\
  times_sent SLEEPON given_up_events = 24.
Proof. split; vm_compute; reflexivity. Qed.

Lemma listening_set_trace (t : list event) (w : world) :
  listening w -> listening (set_trace t w).
Proof. intros H. exact H. Qed.

(** The first query on a reply that reports no registration, and the
    switching on of the radio that follows it. *)
Lemma first_query_on_none (r : reply) (w : world) :
  listening w -> framed r -> reports_none (reply_text r) ->
  incoming w (wire r) ->
  exists w1 w2,
    first_query w = Ret false w1 /\ radio_on w1 = Ret tt w2 /\
    listening w2 /\ rx w2 = rx w /\
    rx_pos w2 = rx_pos w + length (wire r) /\
    trace w2 =
    trace w ++ [Delay 1; Tx (cstr SHOW_REGISTRATION);
                Delay 1; Tx (cstr FLIGHTOFF)].
Proof.
  intros Hw Hf Hn Hin.
  assert (Hw0 := Hw). destruct Hw0 as (Hr & Hb & Hs).
  assert (Q := first_query_on_reply r w Hf Hin Hr Hb).
  destruct (verdict_on_none _ _ Hn Hs) as [V _]. rewrite V in Q.
  assert (Hb1 : length (if finds ISREG1 (stored (reply_text r) (response w))
                       then token_in ISREG1 (buf w)
                       else both_codes (buf w)) = 40).
  { destruct (finds ISREG1 _).
    - rewrite (length_token_in _ (list_ascii_of_string "+CREG: 0,1") _
                 eq_refl); rewrite ?Hb; cbn; lia.
    - exact (length_both_codes _ Hb). }
  assert (L1 := listening_queried [Delay 1; Tx (cstr SHOW_REGISTRATION)]
                  _ r w Hw Hf Hn Hb1).
  eexists. eexists.
  split; [exact Q|]. split; [apply radio_on_runs|].
  split; [apply listening_set_trace; exact L1|].
  unfold queried. fields. rewrite <- app_assoc.
  split; [reflexivity|]. split; reflexivity.
Qed.

(** C7.  [checkregistration] on replies as the modem frames them, in a
    buffer that holds no stale code.  A reply reports registration when
    it holds the home or the roaming code with no plus sign before it,
    as every reply that begins with the code does.  When the first
    reply reports registration, the routine returns 1 having done
    nothing but wait a second and send the query: the radio is not
    switched, nothing sleeps, the GPS is not touched.  When [k] replies
    report none and the next one reports registration, [k] at most 24,
    it returns 1 right after that reply, having sent [k + 1] queries
    and backed off after each failed cycle, [k - 1] times.  When 25
    replies report none, it returns 0 after 24 cycles.  In each case
    exactly these replies are taken from the line. *)
Theorem checkregistration_follows_the_replies (w : world)
    (none : list reply) (last : reply) :
  listening w ->
  Forall framed (none ++ [last]) ->
  Forall (fun r => reports_none (reply_text r)) none ->
  incoming w (concat (map wire (none ++ [last]))) ->
  (reports_registration (reply_text last) -> length none <= 24 ->
   exists w',
     checkregistration w = Ret 1 w' /\
     trace w' = trace w ++ registration_events (length none) /\
     (none = [] ->
      trace w' = trace w ++ [Delay 1; Tx (cstr SHOW_REGISTRATION)]) /\
     times_sent SHOW_REGISTRATION (trace w')
     = times_sent SHOW_REGISTRATION (trace w) + S (length none) /\
     times_sent SLEEPON (trace w')
     = times_sent SLEEPON (trace w) + (length none - 1) /\
     rx_pos w' = rx_pos w + length (concat (map wire (none ++ [last])))) /\
  (reports_none (reply_text last) -> length none = 24 ->
   exists w',
     checkregistration w = Ret 0 w' /\
     trace w' = trace w ++ given_up_events /\
     times_sent SHOW_REGISTRATION (trace w')
     = times_sent SHOW_REGISTRATION (trace w) + 25 /\
     times_sent SLEEPON (trace w')
     = times_sent SLEEPON (trace w) + 24 /\
     rx_pos w' = rx_pos w + length (concat (map wire (none ++ [last])))).
Proof.
  intros Hw Hf Hn Hin.
  assert (Hw0 := Hw). destruct Hw0 as (Hr & Hb & Hs).
  destruct none as [|r0 rest].
  - (* the first reply is the last *)
    cbn [app map concat length] in *. rewrite app_nil_r in Hin.
    inversion Hf as [|? ? Hfl _]; subst.
    split; [|intros _ H; discriminate H].
    intros Hreg _.
    assert (Q := first_query_on_reply last w Hfl Hin Hr Hb).
    rewrite verdict_on_registration in Q;
      [| exact Hreg
       | destruct Hfl as (_ & _ & _ & _ & H); unfold BUFFER_SIZE; lia].
    match type of Q with
    | _ = Ret true ?w1 =>
        destruct (registration_state_machine w w1) as [A _]
    end.
    destruct (A Q) as [R _].
    eexists. split; [exact R|].
    destruct (registration_events_count 0) as [N1 N2].
    unfold queried. fields.
    change [Delay 1; Tx (cstr SHOW_REGISTRATION)]
      with (registration_events 0).
    rewrite !times_sent_app, N1, N2, app_nil_r.
    repeat split; reflexivity.
  - (* the first reply reports no registration *)
    inversion Hf as [|? ? Hf0 Hf']; subst.
    inversion Hn as [|? ? Hn0 Hn']; subst.
    cbn [app map concat] in Hin. apply incoming_app in Hin.
    destruct Hin as [Hin0 Hin'].
    destruct (first_query_on_none r0 w Hw Hf0 Hn0 Hin0)
      as (w1 & w2 & Q & Ron & L2 & Hrx2 & P2 & T2).
    assert (In2 : incoming w2 (concat (map wire (rest ++ [last]))))
      by (eapply incoming_same; [| |exact Hin']; fields;
          [exact Hrx2 | exact P2]).
    destruct (registration_state_machine w w1) as [_ B].
    specialize (B Q).
    split.
    + (* success after the failures *)
      intros Hreg Hk. cbn [length] in Hk.
      apply Forall_app in Hf'. destruct Hf' as [Hfr Hfl].
      inversion Hfl as [|? ? Hfl' _]; subst.
      rewrite wire_last in In2. apply incoming_app in In2.
      destruct In2 as [In2 In3].
      destruct (cycles_on_none rest w2 L2 Hfr Hn' In2)
        as (w3 & Hc & (Hr3 & Hb3 & Hs3) & Hrx3 & Hp3 & Ht3).
      assert (In3' : incoming w3 (wire last)).
      { eapply incoming_same; [| |exact In3]; fields;
          [exact Hrx3 | exact Hp3]. }
      assert (C := cycle_on_reply last w3 Hfl' In3' Hr3 Hb3).
      rewrite verdict_on_registration in C;
        [| exact Hreg
         | destruct Hfl' as (_ & _ & _ & _ & H); unfold BUFFER_SIZE; lia].
      destruct (B (length rest) w2 w3 Ron Hc) as [_ B1].
      specialize (B1 _ ltac:(lia) C).
      eexists. split; [exact B1|].
      assert (T : trace
                    (queried [Delay 120; Tx (cstr SHOW_REGISTRATION)]
                       (both_codes (buf w3)) last w3)
                  = trace w ++ registration_events (S (length rest))).
      { unfold queried. fields. rewrite Ht3, T2.
        unfold registration_events. rewrite <- !app_assoc. reflexivity. }
      split; [exact T|]. split; [discriminate|].
      destruct (registration_events_count (S (length rest))) as [N1 N2].
      rewrite T, !times_sent_app, N1, N2. cbn [length].
      split; [reflexivity|]. split; [reflexivity|].
      * unfold queried. fields. rewrite Hp3, P2.
        cbn [app map concat]. rewrite wire_last, !length_app.
        clear. lia.
    + (* giving up *)
      intros Hnl Hk. cbn [length] in Hk.
      assert (Hn'' : Forall (fun r => reports_none (reply_text r))
                       (rest ++ [last]))
        by (apply Forall_app; split; [exact Hn' | now constructor]).
      destruct (cycles_on_none (rest ++ [last]) w2 L2 Hf' Hn'' In2)
        as (w3 & Hc & _ & _ & Hp3 & Ht3).
      assert (L24 : length (rest ++ [last]) = 24)
        by (rewrite length_app; cbn [length]; lia).
      rewrite L24 in Hc, Ht3.
      destruct (B 24 w2 w3 Ron Hc) as [B0 _].
      exists w3. split; [exact (B0 eq_refl)|].
      assert (T : trace w3 = trace w ++ given_up_events).
      { rewrite Ht3, T2. unfold given_up_events.
        rewrite <- !app_assoc. reflexivity. }
      split; [exact T|].
      destruct given_up_events_count as [N1 N2].
      rewrite T, !times_sent_app, N1, N2.
      split; [reflexivity|]. split; [reflexivity|].
      * rewrite Hp3, P2. cbn [app map concat]. rewrite length_app.
        clear. lia.
Qed.

(** *** Replies of the modem *)

Lemma occurs_whole (tok l : list byte) :
  occurs tok l -> length l = length tok -> l = tok.
Proof.
  intros (pre & post & ->) H. rewrite !length_app in H.
  destruct pre; [|cbn in H; lia]. destruct post; [|cbn in H; lia].
  cbn [app]. now rewrite app_nil_r.
Qed.

Lemma no_plus_no_stale_code (r : array) :
  forallb (fun c => negb (Ascii.eqb c "+"%char)) r = true ->
  no_stale_code r.
Proof.
  intros H tok pre post Ht E. exfalso.
  rewrite forallb_forall in H.
  assert (Hin : In "+"%char r).
  { rewrite E. apply in_or_app. right. apply in_or_app. left.
    destruct Ht as [-> | ->]; now left. }
  specialize (H _ Hin). discriminate H.
Qed.

(** The claim's example: three replies [+CREG: 0,2], then
    [+CREG: 0,5].  Success at the fourth query, with two back-offs, and
    47 bytes taken from the line. *)
Lemma checkregistration_follows_the_replies_witness :
  exists w',
    checkregistration found_at_fourth = Ret 1 w' /\
    trace w' = registration_events 3 /\
    times_sent SHOW_REGISTRATION (trace w') = 4 /\
    times_sent SLEEPON (trace w') = 2 /\
    rx_pos w' = 47.
Proof.
  assert (N : reports_none (list_ascii_of_string "+CREG: 0,2")).
  { split; intros H; apply occurs_whole in H; try reflexivity;
      discriminate H. }
  assert (F : framed (creg_first "+CREG: 0,2") /\
              framed (creg_next "+CREG: 0,2") /\
              framed (creg_next "+CREG: 0,5"))
    by (unfold framed; cbn; repeat split; try lia; repeat constructor).
  destruct F as (F1 & F2 & F3).
  destruct (checkregistration_follows_the_replies found_at_fourth
              [creg_first "+CREG: 0,2"; creg_next "+CREG: 0,2";
               creg_next "+CREG: 0,2"]
              (creg_next "+CREG: 0,5")) as [A _].
  - split; [reflexivity|]. split; [reflexivity|].
    apply no_plus_no_stale_code. vm_compute. reflexivity.
  - repeat (apply Forall_cons; [assumption|]). apply Forall_nil.
  - repeat (apply Forall_cons; [exact N|]). apply Forall_nil.
  - intros k Hk. cbn in Hk.
    do 47 (destruct k as [|k]; [reflexivity|]). lia.
  - destruct A as (w' & R & T & _ & N1 & N2 & P).
    + exists (cstr ISREG2), [], []. repeat split; [now right | constructor].
    + cbn. lia.
    + exists w'. split; [exact R|]. split; [exact T|].
      split; [exact N1|]. split; [exact N2 | exact P].
Defined.
